(** * Offline-Lab: the submission grading service

    A shallow embedding of [backend/services/grading_service.py]:
    [load_problem_with_answer], [compare_results], [save_submission] and
    [grade_submission], together with the parts of Python and pandas that
    these functions call.

    Conventions of the embedding.
    - A Python [str] is a Rocq [string] (a sequence of bytes, UTF-8 for the
      Korean messages).  [str.lower], [str.upper] and [str.strip] are
      modelled on the ASCII range, where they are those of Python; bytes
      above 127 are left as they are, and the statements that depend on
      these functions are made for ASCII text.
    - A Python exception is a value [exn]; code that may raise returns a
      [result], and [try ... except Exception] is [try_except].
    - A pandas [DataFrame] is its column labels and its rows, every row
      carrying its index label and its cells; the dtype of a column is the
      one pandas infers from its cells.  [sort_values] looks up every key
      label (a label carried by two columns raises [ValueError]); on one
      key it raises [TypeError] when Python cannot order two values of the
      column (a number and a string, say), on several keys only when a
      column holds numbers and timestamps; otherwise it sorts the rows,
      nulls last.
    - The collaborators of a grading call make up a [World]: the calendar,
      the successive readings of the clock, the problem files, the outcome
      of PostgreSQL on every query text, the state of DuckDB.  A call runs
      in the monad [M], which threads the world and propagates exceptions;
      the world also keeps the trace of the calls made. *)

From Stdlib Require Import String Ascii List ZArith Lia Bool Arith.
From Stdlib Require Import Sorting.Permutation Sorting.Sorted.
From Stdlib Require Import DecimalString Decimal.
Import ListNotations.
Open Scope list_scope.
Open Scope string_scope.

(** ** Exceptions *)

Inductive exc_class : Type :=
| TypeError
| ValueError
| KeyError
| AttributeError
| DatabaseError
| IOError.

Record exn : Type := mkExn { exn_class : exc_class; exn_msg : string }.

(** [str(e)] *)
Definition str_exn (e : exn) : string := exn_msg e.

Inductive result (A : Type) : Type :=
| Ok (a : A)
| Raise (e : exn).
Arguments Ok {A} a.
Arguments Raise {A} e.

Definition rbind {A B : Type} (m : result A) (k : A -> result B) : result B :=
  match m with
  | Ok a => k a
  | Raise e => Raise e
  end.

(** [try: body  except Exception as e: handler e] *)
Definition try_except {A : Type} (body : result A) (handler : exn -> result A)
  : result A :=
  match body with
  | Ok a => Ok a
  | Raise e => handler e
  end.

Fixpoint rmapM {A B : Type} (f : A -> result B) (l : list A) : result (list B) :=
  match l with
  | [] => Ok []
  | x :: l' => rbind (f x) (fun y => rbind (rmapM f l') (fun ys => Ok (y :: ys)))
  end.

Declare Scope result_scope.
Delimit Scope result_scope with result.
Notation "x <- m ;; k" := (rbind m (fun x => k))
  (at level 61, m at next level, right associativity) : result_scope.

(** ** Python strings *)

Definition is_upper (c : ascii) : bool :=
  let n := nat_of_ascii c in (65 <=? n)%nat && (n <=? 90)%nat.

Definition lower_char (c : ascii) : ascii :=
  if is_upper c then ascii_of_nat (nat_of_ascii c + 32) else c.

(** [s.lower()] *)
Fixpoint lower (s : string) : string :=
  match s with
  | EmptyString => EmptyString
  | String c s' => String (lower_char c) (lower s')
  end.

(** The characters [str.strip()] removes: tab, line feed, vertical tab, form
    feed, carriage return, the separators 28-31 and the space. *)
Definition is_space (c : ascii) : bool :=
  let n := nat_of_ascii c in
  ((9 <=? n)%nat && (n <=? 13)%nat) || ((28 <=? n)%nat && (n <=? 32)%nat).

Definition is_semicolon (c : ascii) : bool := Ascii.eqb c ";"%char.

(** Removal of the leading characters satisfying [p]. *)
Fixpoint lstrip_by (p : ascii -> bool) (s : string) : string :=
  match s with
  | EmptyString => EmptyString
  | String c s' => if p c then lstrip_by p s' else s
  end.

(** Removal of the trailing characters satisfying [p]. *)
Fixpoint rstrip_by (p : ascii -> bool) (s : string) : string :=
  match s with
  | EmptyString => EmptyString
  | String c s' =>
      match rstrip_by p s' with
      | EmptyString => if p c then EmptyString else String c EmptyString
      | r => String c r
      end
  end.

(** [s.strip()] *)
Definition strip (s : string) : string := lstrip_by is_space (rstrip_by is_space s).

(** [s.rstrip(";")] *)
Definition rstrip_semicolon (s : string) : string := rstrip_by is_semicolon s.

(** [str(n)] for a length *)
Definition str_nat (n : nat) : string := NilEmpty.string_of_uint (Nat.to_uint n).

(** [repr(s)] of a string of printable characters without a quote or a
    backslash in it: the text between single quotes.  (Python picks other
    quotes for a text with a single quote in it and escapes backslashes and
    control characters.) *)
Definition repr_str (s : string) : string := "'" ++ s ++ "'".

(** [needle in haystack] *)
Fixpoint contains (needle haystack : string) : bool :=
  String.prefix needle haystack
  || match haystack with
     | EmptyString => false
     | String _ h' => contains needle h'
     end.

(** *** [sorted] on a list of strings *)

Fixpoint insert_str (x : string) (l : list string) : list string :=
  match l with
  | [] => [x]
  | y :: l' => if String.leb x y then x :: l else y :: insert_str x l'
  end.

(** [sorted(l)] *)
Fixpoint sorted (l : list string) : list string :=
  match l with
  | [] => []
  | x :: l' => insert_str x (sorted l')
  end.

(** *** Sets of strings

    A Python [set] of strings is kept as a duplicate-free list.  The order in
    which Python prints a set depends on the hashes of its members, which
    change from one run to the next; [repr_set] prints in the order of the
    list, one of the orders Python may print. *)

Definition mem_str (x : string) (l : list string) : bool :=
  existsb (String.eqb x) l.

(** [set(l)] *)
Fixpoint py_set (l : list string) : list string :=
  match l with
  | [] => []
  | x :: l' => if mem_str x l' then py_set l' else x :: py_set l'
  end.

Definition subset (a b : list string) : bool := forallb (fun x => mem_str x b) a.

(** [a == b] on sets *)
Definition set_eqb (a b : list string) : bool := subset a b && subset b a.

(** [a - b] on sets *)
Definition set_diff (a b : list string) : list string :=
  filter (fun x => negb (mem_str x b)) a.

Fixpoint join_comma (l : list string) : string :=
  match l with
  | [] => ""
  | [x] => x
  | x :: l' => x ++ ", " ++ join_comma l'
  end.

(** [repr] of a set, as an f-string formats it *)
Definition repr_set (a : list string) : string :=
  match a with
  | [] => "set()"
  | _ => "{" ++ join_comma (map repr_str a) ++ "}"
  end.

(** ** Cells of a query result

    A cell is null ([None], [NaN], [NaT]) or a Python value: a [bool], an
    [int], a [str] or a pandas [Timestamp].  Python orders and compares a
    [bool] and an [int] as numbers ([True == 1]); [<] between a number and
    a string, or between a timestamp and a value of another kind, raises
    [TypeError], and [==] between them is [False].  Floating-point cells
    are not modelled. *)

Inductive scalar : Type :=
| SNull
| SBool (b : bool)
| SInt (z : Z)
| SStr (s : string)
| STime (t : Z).

Inductive kind : Type := KBool | KInt | KStr | KTime.

Definition kind_of (x : scalar) : option kind :=
  match x with
  | SNull => None
  | SBool _ => Some KBool
  | SInt _ => Some KInt
  | SStr _ => Some KStr
  | STime _ => Some KTime
  end.

Definition kind_eqb (a b : kind) : bool :=
  match a, b with
  | KBool, KBool | KInt, KInt | KStr, KStr | KTime, KTime => true
  | _, _ => false
  end.

Definition kind_name (k : kind) : string :=
  match k with
  | KBool => "bool"
  | KInt => "int"
  | KStr => "str"
  | KTime => "Timestamp"
  end.

(** The values Python orders among themselves. *)
Inductive pyclass : Type := CNumber | CString | CTimestamp.

Definition class_of (k : kind) : pyclass :=
  match k with
  | KBool | KInt => CNumber
  | KStr => CString
  | KTime => CTimestamp
  end.

Definition class_eqb (a b : pyclass) : bool :=
  match a, b with
  | CNumber, CNumber | CString, CString | CTimestamp, CTimestamp => true
  | _, _ => false
  end.

(** The number a [bool] or an [int] stands for. *)
Definition num_value (x : scalar) : Z :=
  match x with
  | SBool b => Z.b2z b
  | SInt z => z
  | _ => 0%Z
  end.

(** The order in which a sort puts the values of a column: numbers by
    their value, timestamps by their time, strings by their text, numbers
    and timestamps before strings (as pandas orders the categories of a
    mixed column), nulls last ([na_position='last']).  Numbers and
    timestamps are never ordered against each other: the sort raises first;
    they are kept apart here to make the function total. *)
Definition scalar_compare (x y : scalar) : comparison :=
  match x, y with
  | SNull, SNull => Eq
  | SNull, _ => Gt
  | _, SNull => Lt
  | SStr a, SStr b => String.compare a b
  | SStr _, _ => Gt
  | _, SStr _ => Lt
  | STime a, STime b => Z.compare a b
  | STime _, _ => Gt
  | _, STime _ => Lt
  | _, _ => Z.compare (num_value x) (num_value y)
  end.

(** Lexicographic comparison of two sort keys. *)
Fixpoint key_compare (k1 k2 : list scalar) : comparison :=
  match k1, k2 with
  | [], [] => Eq
  | [], _ :: _ => Lt
  | _ :: _, [] => Gt
  | x :: k1', y :: k2' =>
      match scalar_compare x y with
      | Eq => key_compare k1' k2'
      | c => c
      end
  end.

Definition key_leb (k1 k2 : list scalar) : bool :=
  match key_compare k1 k2 with
  | Gt => false
  | _ => true
  end.

(** Equality of two cells as [DataFrame.equals] sees it: [x == y], or both
    null. *)
Definition scalar_eqb (x y : scalar) : bool :=
  match x, y with
  | SNull, SNull => true
  | SNull, _ | _, SNull => false
  | SStr a, SStr b => String.eqb a b
  | SStr _, _ | _, SStr _ => false
  | STime a, STime b => Z.eqb a b
  | STime _, _ | _, STime _ => false
  | _, _ => Z.eqb (num_value x) (num_value y)
  end.

Fixpoint list_eqb {A : Type} (eqb : A -> A -> bool) (l1 l2 : list A) : bool :=
  match l1, l2 with
  | [], [] => true
  | x :: l1', y :: l2' => eqb x y && list_eqb eqb l1' l2'
  | _, _ => false
  end.

(** ** pandas DataFrame *)

Definition row : Type := (nat * list scalar)%type.

Record DataFrame : Type := mkDataFrame {
  columns : list string;
  rows : list row
}.

(** [len(df)] *)
Definition len (df : DataFrame) : nat := length (rows df).

Definition cells (df : DataFrame) : list (list scalar) := map snd (rows df).

(** Every row has one cell per column. *)
Definition well_formed (df : DataFrame) : Prop :=
  Forall (fun r : row => length (snd r) = length (columns df)) (rows df).

(** Positions of the columns labelled [label]. *)
Fixpoint positions_from (i : nat) (label : string) (cols : list string) : list nat :=
  match cols with
  | [] => []
  | c :: cols' =>
      if String.eqb c label then i :: positions_from (S i) label cols'
      else positions_from (S i) label cols'
  end.

Definition positions (label : string) (cols : list string) : list nat :=
  positions_from 0 label cols.

(** The column a sort key names: the label must be there, once. *)
Definition key_position (cols : list string) (label : string) : result nat :=
  match positions label cols with
  | [] => Raise (mkExn KeyError (repr_str label))
  | [i] => Ok i
  | _ => Raise (mkExn ValueError ("The column label " ++ repr_str label ++ " is not unique."))
  end.

Definition cell_at (r : row) (i : nat) : scalar := nth i (snd r) SNull.

Definition column_at (df : DataFrame) (i : nat) : list scalar :=
  map (fun r => cell_at r i) (rows df).

Fixpoint kinds_of (l : list scalar) : list kind :=
  match l with
  | [] => []
  | x :: l' =>
      match kind_of x with
      | Some k => k :: kinds_of l'
      | None => kinds_of l'
      end
  end.

(** The dtype pandas gives a column built from these cells: [bool] and
    [int64] for booleans and for integers without a null, [float64] for
    integers with nulls, [datetime64] for timestamps, [object] for anything
    else (strings, booleans with nulls, mixtures, no value at all). *)
Inductive dtype : Type := DBool | DInt64 | DFloat64 | DDatetime | DObject.

Definition dtype_eqb (a b : dtype) : bool :=
  match a, b with
  | DBool, DBool | DInt64, DInt64 | DFloat64, DFloat64
  | DDatetime, DDatetime | DObject, DObject => true
  | _, _ => false
  end.

Definition has_kind (k : kind) (col : list scalar) : bool :=
  existsb (kind_eqb k) (kinds_of col).

Definition has_null (col : list scalar) : bool :=
  existsb (fun x => match x with SNull => true | _ => false end) col.

Definition dtype_of (col : list scalar) : dtype :=
  match has_kind KBool col, has_kind KInt col, has_kind KStr col, has_kind KTime col with
  | true, false, false, false => if has_null col then DObject else DBool
  | false, true, false, false => if has_null col then DFloat64 else DInt64
  | false, false, false, true => DDatetime
  | _, _, _, _ => DObject
  end.

(** The sort on one key ([nargsort]) runs [numpy.argsort] on the values of
    the column that are not null: Python's [<] between two values that are
    not of one class raises.  The text of the exception names two types of
    the column (which two depends on the steps of the sort). *)
Definition check_orderable (col : list scalar) : result unit :=
  match kinds_of col with
  | [] => Ok tt
  | k :: ks =>
      match find (fun k' => negb (class_eqb (class_of k) (class_of k'))) ks with
      | None => Ok tt
      | Some k' =>
          Raise (mkExn TypeError
                   ("'<' not supported between instances of " ++
                    repr_str (kind_name k') ++ " and " ++ repr_str (kind_name k)))
      end
  end.

(** The sort on several keys ([lexsort_indexer]) turns every key column
    into an ordered [Categorical]: the strings of a mixed column are put
    after its other values, which are ordered with [<]; numbers and
    timestamps in one column make that raise. *)
Definition check_categorical (col : list scalar) : result unit :=
  if (has_kind KBool col || has_kind KInt col) && has_kind KTime col then
    Raise (mkExn TypeError
             ("'values' is not ordered, please explicitly specify the categories " ++
              "order by passing in a categories argument."))
  else Ok tt.

Definition sort_key (ps : list nat) (r : row) : list scalar := map (cell_at r) ps.

Fixpoint insert_row (ps : list nat) (x : row) (l : list row) : list row :=
  match l with
  | [] => [x]
  | y :: l' =>
      if key_leb (sort_key ps x) (sort_key ps y) then x :: l
      else y :: insert_row ps x l'
  end.

(** Stable sort of the rows on the key columns [ps]. *)
Fixpoint sort_rows (ps : list nat) (l : list row) : list row :=
  match l with
  | [] => []
  | x :: l' => insert_row ps x (sort_rows ps l')
  end.

(** [df.sort_values(by=by)]: ascending, nulls last, rows keep their index
    labels.  Every key label is looked up first (a label carried by two
    columns raises [ValueError]); then the rows are sorted, on one key with
    [nargsort], on several with [lexsort_indexer].  (On one key numpy may
    leave rows with equal keys in another order than the stable sort here;
    [compare_results] sorts on every column, so such rows hold cells that
    are equal to [equals].) *)
Definition sort_values (by_ : list string) (df : DataFrame) : result DataFrame :=
  (ps <- rmapM (key_position (columns df)) by_ ;;
   _ <- match ps with
        | [i] => check_orderable (column_at df i)
        | _ => (_ <- rmapM (fun i => check_categorical (column_at df i)) ps ;; Ok tt)
        end ;;
   Ok (mkDataFrame (columns df) (sort_rows ps (rows df))))%result.

(** [df.reset_index(drop=True)] *)
Definition reset_index (df : DataFrame) : DataFrame :=
  mkDataFrame (columns df) (combine (seq 0 (len df)) (cells df)).

(** [df.columns = new_columns]; the new labels must be as many as the old. *)
Definition set_columns (df : DataFrame) (new_columns : list string) : result DataFrame :=
  if Nat.eqb (length new_columns) (length (columns df))
  then Ok (mkDataFrame new_columns (rows df))
  else Raise (mkExn ValueError "Length mismatch").

(** [df[labels]]: for every label, every column that carries it. *)
Definition getitem (df : DataFrame) (labels : list string) : result DataFrame :=
  (pss <- rmapM (fun l => match positions l (columns df) with
                          | [] => Raise (mkExn KeyError (repr_str l))
                          | ps => Ok ps
                          end) labels ;;
   let ps := concat pss in
   Ok (mkDataFrame (map (fun i => nth i (columns df) "") ps)
                   (map (fun r : row => (fst r, map (cell_at r) ps)) (rows df))))%result.

Definition row_eqb (r1 r2 : row) : bool :=
  Nat.eqb (fst r1) (fst r2) && list_eqb scalar_eqb (snd r1) (snd r2).

(** [a.equals(b)]: the same labels, the same index, columns of the same
    dtype and cells that are equal ([==], or both null). *)
Definition equals (a b : DataFrame) : bool :=
  list_eqb String.eqb (columns a) (columns b)
  && list_eqb row_eqb (rows a) (rows b)
  && forallb (fun j => dtype_eqb (dtype_of (column_at a j)) (dtype_of (column_at b j)))
             (seq 0 (length (columns a))).

(** ** compare_results *)

Definition msg_correct : string := "정답입니다! 🎉".
Definition msg_values_differ : string := "결과 값이 다릅니다.".

Definition msg_column_count (n_user n_answer : nat) : string :=
  "컬럼 수가 다릅니다. (제출: " ++ str_nat n_user ++ ", 정답: " ++ str_nat n_answer ++ ")".

Definition msg_row_count (n_user n_answer : nat) : string :=
  "행 수가 다릅니다. (제출: " ++ str_nat n_user ++ ", 정답: " ++ str_nat n_answer ++ ")".

Definition msg_column_names (missing extra : list string) : string :=
  let msg := "컬럼명이 다릅니다." in
  let msg := match missing with [] => msg | _ => msg ++ " 누락: " ++ repr_set missing end in
  let msg := match extra with [] => msg | _ => msg ++ " 추가: " ++ repr_set extra end in
  msg.

Definition msg_compare_error (e : exn) : string := "비교 오류: " ++ str_exn e.

(** The body of the [try] block: sort both frames on all their columns,
    drop the index, lower-case the labels, order the columns by label and
    test the two frames with [equals]. *)
Definition compare_values (user_df answer_df : DataFrame) : result (bool * string) :=
  (user_sorted <- sort_values (columns user_df) user_df ;;
   let user_sorted := reset_index user_sorted in
   answer_sorted <- sort_values (columns answer_df) answer_df ;;
   let answer_sorted := reset_index answer_sorted in
   user_sorted <- set_columns user_sorted (map lower (columns user_sorted)) ;;
   answer_sorted <- set_columns answer_sorted (map lower (columns answer_sorted)) ;;
   user_sorted <- getitem user_sorted (sorted (columns user_sorted)) ;;
   answer_sorted <- getitem answer_sorted (sorted (columns answer_sorted)) ;;
   if equals user_sorted answer_sorted
   then Ok (true, msg_correct)
   else Ok (false, msg_values_differ))%result.

Definition compare_results (user_df answer_df : DataFrame) : result (bool * string) :=
  if negb (Nat.eqb (length (columns user_df)) (length (columns answer_df))) then
    Ok (false, msg_column_count (length (columns user_df)) (length (columns answer_df)))
  else if negb (Nat.eqb (len user_df) (len answer_df)) then
    Ok (false, msg_row_count (len user_df) (len answer_df))
  else
    let user_cols := py_set (map lower (columns user_df)) in
    let answer_cols := py_set (map lower (columns answer_df)) in
    if negb (set_eqb user_cols answer_cols) then
      let missing := set_diff answer_cols user_cols in
      let extra := set_diff user_cols answer_cols in
      Ok (false, msg_column_names missing extra)
    else
      try_except (compare_values user_df answer_df)
                 (fun e => Ok (false, msg_compare_error e)).

(** A frame as a query returns it: rows numbered from 0. *)
Definition frame (cols : list string) (data : list (list scalar)) : DataFrame :=
  mkDataFrame cols (combine (seq 0 (length data)) data).

(** ** The world of a grading call

    The collaborators of the service: the calendar and the clock, the
    problem files, PostgreSQL behind [postgres_connection], DuckDB behind
    [duckdb_connection]. *)

(** A value read by [json.loads]. *)
#[local] Set Warnings "-register-all".
Inductive pyval : Type :=
| PNone
| PBool (b : bool)
| PInt (z : Z)
| PStr (s : string)
| PList (l : list pyval)
| PDict (d : list (string * pyval)).

Record SubmissionRecord : Type := mkSubmissionRecord {
  rec_session_date : string;
  rec_problem_id : string;
  rec_sql_text : string;
  rec_is_correct : bool;
  rec_feedback : string;
  rec_submitted_at : Z
}.

Inductive duck_status : Type :=
| DuckOk
| DuckConnectFails (e : exn)
| DuckInsertFails (e : exn).

(** The calls a grading call makes, in the order it makes them. *)
Inductive event : Type :=
| EvFetch (sql : string)
| EvCompare
| EvInsert (table : string).

Record World : Type := mkWorld {
  today : string;                            (* date.today().isoformat() *)
  clock : nat -> Z;                          (* the n-th reading of the clock *)
  clock_reads : nat;                         (* readings taken so far *)
  files : string -> option (result pyval);   (* None: no such path *)
  postgres : string -> result DataFrame;     (* pg.fetch_df on a query text *)
  duckdb : duck_status;
  submissions : list (string * SubmissionRecord);  (* table, row *)
  trace : list event
}.

(** A computation in the world: it may raise, and it changes the world. *)
Definition M (A : Type) : Type := World -> result A * World.

Definition ret {A : Type} (a : A) : M A := fun w => (Ok a, w).

Definition bind {A B : Type} (m : M A) (k : A -> M B) : M B :=
  fun w =>
    match m w with
    | (Ok a, w') => k a w'
    | (Raise e, w') => (Raise e, w')
    end.

Definition lift {A : Type} (r : result A) : M A := fun w => (r, w).

(** [try: body  except Exception as e: handler e] in the world *)
Definition try_exceptM {A : Type} (body : M A) (handler : exn -> M A) : M A :=
  fun w =>
    match body w with
    | (Ok a, w') => (Ok a, w')
    | (Raise e, w') => handler e w'
    end.

Declare Scope world_scope.
Delimit Scope world_scope with world.
Notation "x <- m ;; k" := (bind m (fun x => k))
  (at level 61, m at next level, right associativity) : world_scope.
Notation "m ;;; k" := (bind m (fun _ => k))
  (at level 61, right associativity) : world_scope.

Definition tick (w : World) : World :=
  mkWorld (today w) (clock w) (S (clock_reads w)) (files w) (postgres w)
          (duckdb w) (submissions w) (trace w).

Definition log_event (ev : event) (w : World) : World :=
  mkWorld (today w) (clock w) (clock_reads w) (files w) (postgres w)
          (duckdb w) (submissions w) (trace w ++ [ev])%list.

Definition store (table : string) (r : SubmissionRecord) (w : World) : World :=
  mkWorld (today w) (clock w) (clock_reads w) (files w) (postgres w)
          (duckdb w) (submissions w ++ [(table, r)])%list (trace w).

(** [time.time()], [datetime.now()] *)
Definition time_time : M Z := fun w => (Ok (clock w (clock_reads w)), tick w).

(** [date.today().isoformat()] *)
Definition date_today : M string := fun w => (Ok (today w), w).

Definition emit (ev : event) : M unit := fun w => (Ok tt, log_event ev w).

(** [with postgres_connection() as pg: pg.fetch_df(sql)] *)
Definition fetch_df (sql : string) : M DataFrame :=
  fun w => (postgres w sql, log_event (EvFetch sql) w).

(** [duckdb_connection()] *)
Definition duckdb_connection : M unit :=
  fun w =>
    match duckdb w with
    | DuckConnectFails e => (Raise e, w)
    | _ => (Ok tt, w)
    end.

(** [duck.insert(table, row)] *)
Definition duck_insert (table : string) (r : SubmissionRecord) : M unit :=
  fun w =>
    match duckdb w with
    | DuckOk => (Ok tt, store table r (log_event (EvInsert table) w))
    | DuckConnectFails e | DuckInsertFails e => (Raise e, log_event (EvInsert table) w)
    end.

(** ** Python values *)

Definition type_name (v : pyval) : string :=
  match v with
  | PNone => "NoneType"
  | PBool _ => "bool"
  | PInt _ => "int"
  | PStr _ => "str"
  | PList _ => "list"
  | PDict _ => "dict"
  end.

Definition no_attribute (v : pyval) (attr : string) : exn :=
  mkExn AttributeError
        (repr_str (type_name v) ++ " object has no attribute " ++ repr_str attr).

(** [bool(v)] *)
Definition truthy (v : pyval) : bool :=
  match v with
  | PNone => false
  | PBool b => b
  | PInt z => negb (Z.eqb z 0)
  | PStr s => negb (String.eqb s "")
  | PList l => match l with [] => false | _ => true end
  | PDict d => match d with [] => false | _ => true end
  end.

Fixpoint lookup (key : string) (d : list (string * pyval)) : pyval :=
  match d with
  | [] => PNone
  | (k, v) :: d' => if String.eqb k key then v else lookup key d'
  end.

(** [v.get(key)] *)
Definition py_get (v : pyval) (key : string) : result pyval :=
  match v with
  | PDict d => Ok (lookup key d)
  | _ => Raise (no_attribute v "get")
  end.

(** [v.strip()] *)
Definition py_strip (v : pyval) : result string :=
  match v with
  | PStr s => Ok (strip s)
  | _ => Raise (no_attribute v "strip")
  end.

Fixpoint chars (s : string) : list pyval :=
  match s with
  | EmptyString => []
  | String c s' => PStr (String c EmptyString) :: chars s'
  end.

(** The values a [for] loop over [v] visits. *)
Definition py_iter (v : pyval) : result (list pyval) :=
  match v with
  | PList l => Ok l
  | PDict d => Ok (map (fun kv => PStr (fst kv)) d)
  | PStr s => Ok (chars s)
  | _ => Raise (mkExn TypeError (repr_str (type_name v) ++ " object is not iterable"))
  end.

(** [v == s] for a string [s] *)
Definition eq_str (v : pyval) (s : string) : bool :=
  match v with
  | PStr s' => String.eqb s' s
  | _ => false
  end.

(** ** load_problem_with_answer *)

Definition problems_path (today_ data_type : string) : string :=
  if String.eqb data_type "stream"
  then "problems/stream_daily/" ++ today_ ++ ".json"
  else "problems/daily/" ++ today_ ++ ".json".

(** [for p in problems: if p.get("problem_id") == problem_id: return p] *)
Fixpoint find_problem (problem_id : string) (problems : list pyval)
  : result (option pyval) :=
  match problems with
  | [] => Ok None
  | p :: rest =>
      (v <- py_get p "problem_id" ;;
       if eq_str v problem_id then Ok (Some p) else find_problem problem_id rest)%result
  end.

Definition load_problem_with_answer (problem_id data_type : string) : M (option pyval) :=
  (today_ <- date_today ;;
   let path := problems_path today_ data_type in
   fun w =>
     match files w path with
     | None => (Ok None, w)
     | Some content =>
         (try_except
            (problems <- content ;;
             ps <- py_iter problems ;;
             find_problem problem_id ps)%result
            (fun _ => Ok None), w)
     end)%world.

(** ** save_submission *)

Definition save_submission
  (session_date problem_id data_type sql_text : string)
  (is_correct : bool) (feedback : string) : M unit :=
  try_exceptM
    (let table := data_type ++ "_submissions" in
     duckdb_connection ;;;
     submitted_at <- time_time ;;
     duck_insert table
       (mkSubmissionRecord session_date problem_id sql_text is_correct feedback
                           submitted_at))%world
    (fun _ => ret tt).

(** ** grade_submission *)

Record SubmitResponse : Type := mkSubmitResponse {
  is_correct : bool;
  feedback : string;
  execution_time_ms : Z;
  diff : option string
}.

Definition msg_no_rows : string := "결과가 없습니다.".

Definition msg_sql_error (e : exn) : string := "SQL 실행 오류: " ++ str_exn e.

Definition grade_submission
  (problem_id sql data_type : string) (note : option string) : M SubmitResponse :=
  (start <- time_time ;;
   session_date <- date_today ;;
   try_exceptM
     ((* 1. the problem and its answer SQL *)
      problem <- load_problem_with_answer problem_id data_type ;;
      answer_sql <- lift (match problem with
                          | Some p => if truthy p then py_get p "answer_sql" else Ok PNone
                          | None => Ok PNone
                          end) ;;
      (* 2. the submitted SQL *)
      user_df <- fetch_df (rstrip_semicolon (strip sql)) ;;
      (* 3. grading *)
      graded <-
        (if truthy answer_sql then
           stripped <- lift (py_strip answer_sql) ;;
           answer_df <- fetch_df (rstrip_semicolon stripped) ;;
           emit EvCompare ;;;
           lift (compare_results user_df answer_df)
         else
           let ok := Nat.ltb 0 (len user_df) in
           ret (ok, if ok then msg_correct else msg_no_rows)) ;;
      (* 4. the record of the submission *)
      save_submission session_date problem_id data_type sql (fst graded) (snd graded) ;;;
      now <- time_time ;;
      let elapsed := ((now - start) * 1000)%Z in
      ret (mkSubmitResponse (fst graded) (snd graded) elapsed None))
     (fun e =>
        let feedback := msg_sql_error e in
        save_submission session_date problem_id data_type sql false feedback ;;;
        ret (mkSubmitResponse false feedback 0 (Some (str_exn e)))))%world.

(** * Notions used in the statements *)

(** The three checks that come before the [try] block all pass. *)
Definition reaches_values (user_df answer_df : DataFrame) : bool :=
  Nat.eqb (length (columns user_df)) (length (columns answer_df))
  && Nat.eqb (len user_df) (len answer_df)
  && set_eqb (py_set (map lower (columns user_df)))
             (py_set (map lower (columns answer_df))).

(** The [equal] flag of an outcome. *)
Definition equal_flag (r : result (bool * string)) : option bool :=
  match r with
  | Ok (b, _) => Some b
  | Raise _ => None
  end.

(** A comparison function that decides a linear order. *)
Record order_laws {A : Type} (cmp : A -> A -> comparison) : Prop := mkOrderLaws {
  cmp_eq : forall x y, cmp x y = Eq -> x = y;
  cmp_refl : forall x, cmp x x = Eq;
  cmp_opp : forall x y, cmp y x = CompOpp (cmp x y);
  cmp_trans : forall x y z, cmp x y = Lt -> cmp y z = Lt -> cmp x z = Lt
}.

(** A comparison function that decides a total preorder: two values may
    compare [Eq] without being the same ([True] and [1]). *)
Record preorder_laws {A : Type} (cmp : A -> A -> comparison) : Prop := mkPreorderLaws {
  pre_refl : forall x, cmp x x = Eq;
  pre_opp : forall x y, cmp y x = CompOpp (cmp x y);
  pre_trans : forall x y z, cmp x y = Lt -> cmp y z = Lt -> cmp x z = Lt;
  pre_eq : forall x y z, cmp x y = Eq -> cmp x z = cmp y z
}.

(** The order of the sort on keys and on rows. *)
Definition key_le (k1 k2 : list scalar) : Prop := key_leb k1 k2 = true.

Definition row_le (ps : list nat) (r1 r2 : row) : Prop :=
  key_le (sort_key ps r1) (sort_key ps r2).

(** Two cells, two keys that the sort does not tell apart. *)
Definition cell_equiv (x y : scalar) : Prop := scalar_compare x y = Eq.

Definition key_equiv (k1 k2 : list scalar) : Prop := key_compare k1 k2 = Eq.

Definition key_equivb (k1 k2 : list scalar) : bool :=
  match key_compare k1 k2 with
  | Eq => true
  | _ => false
  end.

(** How many keys of the list the sort does not tell apart from [z]. *)
Definition count_equiv (z : list scalar) (l : list (list scalar)) : nat :=
  length (filter (key_equivb z) l).

(** The values of the column that are not null are of one kind. *)
Definition one_kind (col : list scalar) : bool :=
  match kinds_of col with
  | [] => true
  | k :: ks => forallb (kind_eqb k) ks
  end.

(** Every column of the frame holds values of one kind, nulls apart, as the
    result of a SQL query does. *)
Definition typed (df : DataFrame) : bool :=
  forallb (fun i => one_kind (column_at df i)) (seq 0 (length (columns df))).

(** The values of the column that are not null are of one class: all
    numbers, all strings or all timestamps. *)
Definition one_class (col : list scalar) : bool :=
  match kinds_of col with
  | [] => true
  | k :: ks => forallb (fun k' => class_eqb (class_of k) (class_of k')) ks
  end.

(** The column does not hold a number and a timestamp. *)
Definition no_number_with_time (col : list scalar) : bool :=
  negb ((has_kind KBool col || has_kind KInt col) && has_kind KTime col).

Fixpoint distinct (l : list string) : bool :=
  match l with
  | [] => true
  | x :: l' => negb (mem_str x l') && distinct l'
  end.

(** The frames on which the sort on all the columns does not raise: the
    labels are distinct, and the only column of a frame with one column
    holds values of one class, while no column of a frame with several
    columns holds a number and a timestamp. *)
Definition sortable (df : DataFrame) : bool :=
  distinct (columns df)
  && match columns df with
     | [_] => one_class (column_at df 0)
     | cols => forallb (fun i => no_number_with_time (column_at df i))
                       (seq 0 (length cols))
     end.

(** The computation returned without raising. *)
Definition is_ok {A : Type} (r : result A) : bool :=
  match r with
  | Ok _ => true
  | Raise _ => false
  end.

(** What [compare_values] does to each of its two frames. *)
Definition normalize (df : DataFrame) : result DataFrame :=
  (s <- sort_values (columns df) df ;;
   let s := reset_index s in
   s <- set_columns s (map lower (columns s)) ;;
   getitem s (sorted (columns s)))%result.

(** Both frames are brought to normal form, and the normal forms are equal. *)
Definition values_agree (A B : DataFrame) : Prop :=
  exists a b, normalize A = Ok a /\ normalize B = Ok b /\ equals a b = true.

(** Two frames with the same labels and the same index whose rows are the
    same multiset, and cell by cell not told apart by the sort. *)
Definition frame_equiv (a b : DataFrame) : Prop :=
  columns a = columns b
  /\ map fst (rows a) = map fst (rows b)
  /\ Forall2 (Forall2 cell_equiv) (cells a) (cells b)
  /\ Permutation (cells a) (cells b).

(** The cells of a row at the positions [ps]. *)
Definition pick (ps : list nat) (c : list scalar) : list scalar :=
  map (fun i => nth i c SNull) ps.

(** Scenario 1: the same rows in another order, labels in another case. *)
Definition scenario1_user : DataFrame :=
  frame ["id"; "name"] [[SInt 1; SStr "a"]; [SInt 2; SStr "b"]].
Definition scenario1_answer : DataFrame :=
  frame ["ID"; "NAME"] [[SInt 2; SStr "b"]; [SInt 1; SStr "a"]].

(** One column holding an integer and a string. *)
Definition mixed_frame : DataFrame := frame ["a"] [[SInt 1]; [SStr "x"]].

(** Two columns, the first holding an integer, a string and a boolean; and
    the same rows in another order. *)
Definition mixed_pair : DataFrame :=
  frame ["a"; "b"] [[SStr "x"; SInt 1]; [SInt 1; SInt 2]; [SBool true; SInt 2]].
Definition mixed_pair_answer : DataFrame :=
  frame ["A"; "B"] [[SBool true; SInt 2]; [SInt 1; SInt 2]; [SStr "x"; SInt 1]].

(** The same two rows, the columns selected in the other order. *)
Definition columns_ab : DataFrame :=
  frame ["a"; "b"] [[SInt 1; SInt 2]; [SInt 2; SInt 1]].
Definition columns_ba : DataFrame :=
  frame ["b"; "a"] [[SInt 2; SInt 1]; [SInt 1; SInt 2]].

(** One column and three rows against two columns and five rows. *)
Definition three_rows : DataFrame :=
  frame ["a"] [[SInt 1]; [SInt 2]; [SInt 3]].
Definition five_rows : DataFrame :=
  frame ["a"; "b"] [[SInt 1; SInt 1]; [SInt 2; SInt 2]; [SInt 3; SInt 3];
                    [SInt 4; SInt 4]; [SInt 5; SInt 5]].
Definition two_rows : DataFrame := frame ["A"] [[SInt 1]; [SInt 2]].

(** The reason names both row counts. *)
Definition mentions_row_counts (A B : DataFrame) (reason : string) : Prop :=
  contains (str_nat (len A)) reason = true /\ contains (str_nat (len B)) reason = true.

(** The SQL text that reaches the database. *)
Definition executed (sql : string) : string := rstrip_semicolon (strip sql).

(** The answer SQL the call finds for the problem. *)
Definition reference_sql (w : World) (problem_id data_type : string) : result pyval :=
  (problem <- fst (load_problem_with_answer problem_id data_type w) ;;
   match problem with
   | Some p => if truthy p then py_get p "answer_sql" else Ok PNone
   | None => Ok PNone
   end)%result.

(** The value of the [try] block of [grade_submission] up to the record of
    the submission. *)
Definition grading (w : World) (problem_id sql data_type : string)
  : result (bool * string) :=
  (answer_sql <- reference_sql w problem_id data_type ;;
   user_df <- postgres w (executed sql) ;;
   if truthy answer_sql then
     stripped <- py_strip answer_sql ;;
     answer_df <- postgres w (rstrip_semicolon stripped) ;;
     compare_results user_df answer_df
   else
     let ok := Nat.ltb 0 (len user_df) in
     Ok (ok, if ok then msg_correct else msg_no_rows))%result.

(** The world with DuckDB in the state [d]. *)
Definition set_duckdb (d : duck_status) (w : World) : World :=
  mkWorld (today w) (clock w) (clock_reads w) (files w) (postgres w)
          d (submissions w) (trace w).

(** Every character of the string satisfies [p]. *)
Fixpoint all_chars (p : ascii -> bool) (s : string) : bool :=
  match s with
  | EmptyString => true
  | String c s' => p c && all_chars p s'
  end.

(** The characters of the ASCII range, on which [upper], [lower] and [strip]
    are those of Python. *)
Definition is_ascii (c : ascii) : bool := (nat_of_ascii c <? 128)%nat.

Definition ascii_only (s : string) : Prop := all_chars is_ascii s = true.

(** The labels whose [repr] is the text between single quotes: printable
    ASCII characters other than the single quote and the backslash. *)
Definition is_plain (c : ascii) : bool :=
  let n := nat_of_ascii c in
  (32 <=? n)%nat && (n <=? 126)%nat && negb (Nat.eqb n 39) && negb (Nat.eqb n 92).

Definition plain_label (s : string) : Prop := all_chars is_plain s = true.

(** A day with three problems: the second has no answer SQL, the answer SQL
    of the third names a table that is not there. *)
Definition sample_problems : pyval :=
  PList [PDict [("problem_id", PStr "p1"); ("answer_sql", PStr "SELECT id FROM users;")];
         PDict [("problem_id", PStr "p2")];
         PDict [("problem_id", PStr "p3"); ("answer_sql", PStr "SELECT id FROM missing")]].

Definition sample_files (path : string) : option (result pyval) :=
  if String.eqb path "problems/daily/2025-01-01.json"
  then Some (Ok sample_problems) else None.

(** A database with one table; it reports a statement it cannot run
    together with its text. *)
Definition sample_postgres (sql : string) : result DataFrame :=
  if String.eqb sql "SELECT id FROM users"
  then Ok (frame ["id"] [[SInt 1]; [SInt 2]])
  else Raise (mkExn DatabaseError ("cannot run the statement" ++ " LINE 1: " ++ sql)).

(** The clock advances 7 units between two readings. *)
Definition sample_world : World :=
  mkWorld "2025-01-01" (fun n => 100 + 7 * Z.of_nat n)%Z 0
          sample_files sample_postgres DuckOk [] [].

(** The errors of the sample database on two statements. *)
Definition missing_error : exn :=
  mkExn DatabaseError "cannot run the statement LINE 1: SELECT id FROM missing".


(** * backend/api/practice.py: [submit_practice]

    The grader of the practice mode, [grader.sql_grader.SQLGrader], is not
    among the sources: its two methods are taken as they are given.
    [submit_practice] is returned with the SQL texts it had executed, in
    order. *)

Record SubmitPracticeRequest : Type := mkSubmitPracticeRequest {
  req_problem_id : string;
  req_sql : string;
  req_answer_sql : string;
  req_difficulty : string;
  req_data_type : string
}.

(** The dictionary [grader.execute_sql] returns: ["success"], ["data"], and
    ["error"] when the key is there. *)
Record ExecResult (D : Type) : Type := mkExecResult {
  exec_success : bool;
  exec_data : D;
  exec_error : option string
}.
Arguments mkExecResult {D} _ _ _.
Arguments exec_success {D} _.
Arguments exec_data {D} _.
Arguments exec_error {D} _.

Record SQLGrader (D : Type) : Type := mkSQLGrader {
  execute_sql : string -> string -> result (ExecResult D);   (* sql, data_type *)
  grader_compare_results : D -> D -> result bool
}.
Arguments mkSQLGrader {D} _ _.
Arguments execute_sql {D} _ _ _.
Arguments grader_compare_results {D} _ _ _.

(** The dictionary [submit_practice] returns; ["score"] is not in all of
    them. *)
Record PracticeResponse : Type := mkPracticeResponse {
  pr_success : bool;
  pr_is_correct : bool;
  pr_score : option nat;
  pr_message : string
}.

(** [DIFFICULTY_SCORES.get(difficulty)] *)
Definition DIFFICULTY_SCORES (difficulty : string) : option nat :=
  if String.eqb difficulty "easy" then Some 10
  else if String.eqb difficulty "medium" then Some 25
  else if String.eqb difficulty "hard" then Some 50
  else None.

(** [d.get('error', '알 수 없는 오류')] *)
Definition error_or_unknown {D : Type} (r : ExecResult D) : string :=
  match exec_error r with
  | Some e => e
  | None => "알 수 없는 오류"
  end.

Definition msg_wrong : string := "오답입니다. 다시 시도해보세요.".

(** The response of the [except] branch. *)
Definition grading_failed (e : exn) : PracticeResponse :=
  mkPracticeResponse false false None ("채점 오류: " ++ str_exn e).

Definition submit_practice {D : Type}
  (import_grader : result (SQLGrader D)) (request : SubmitPracticeRequest)
  : PracticeResponse * list string :=
  match import_grader with
  | Raise e => (grading_failed e, [])
  | Ok grader =>
      (* the answer SQL *)
      match execute_sql grader (req_answer_sql request) (req_data_type request) with
      | Raise e => (grading_failed e, [req_answer_sql request])
      | Ok expected_result =>
          if negb (exec_success expected_result) then
            (mkPracticeResponse false false None
               ("정답 SQL 실행 오류: " ++ error_or_unknown expected_result),
             [req_answer_sql request])
          else
            (* the submitted SQL, and the comparison *)
            let calls := [req_answer_sql request; req_sql request] in
            match execute_sql grader (req_sql request) (req_data_type request) with
            | Raise e => (grading_failed e, calls)
            | Ok user_result =>
                if negb (exec_success user_result) then
                  (mkPracticeResponse true false None
                     ("SQL 실행 오류: " ++ error_or_unknown user_result), calls)
                else
                  match grader_compare_results grader (exec_data expected_result)
                                               (exec_data user_result) with
                  | Raise e => (grading_failed e, calls)
                  | Ok is_correct_ =>
                      let score := 0 in
                      let score :=
                        if is_correct_ then
                          match DIFFICULTY_SCORES (req_difficulty request) with
                          | Some n => n
                          | None => 25
                          end
                        else score in
                      (mkPracticeResponse true is_correct_
                         (Some (if is_correct_ then score else 0))
                         (if is_correct_ then msg_correct else msg_wrong), calls)
                  end
            end
      end
  end.

(** A grader over tables of numbers that runs every statement but one. *)
Definition sample_grader : SQLGrader (list Z) :=
  mkSQLGrader
    (fun sql _ =>
       if String.eqb sql "SELECT broken"
       then Ok (mkExecResult false [] (Some "no such table"))
       else Ok (mkExecResult true [1; 2]%Z None))
    (fun expected got => Ok (list_eqb Z.eqb expected got)).

(** * problems/templates.py and problems/generator.py

    [build_expected_sql] and [generate].  The calls of the logger are left
    out, and with them the count of the difficulties, which feeds only a
    warning.  [build_prompt] (the call of Gemini) is given by what it
    returns; [pg] by what [pg.execute] does on each statement.  Writing the
    file is taken to succeed, and reading it back with [json.loads] to give
    the value written. *)

Definition sql_retention : string :=
"
        WITH cohort AS (
            SELECT
                user_id,
                date_trunc('day', signup_at) AS cohort_date
            FROM pa_users
        ),
        activity AS (
            SELECT
                c.cohort_date,
                date_part('day', e.event_time - c.cohort_date) AS day_n,
                COUNT(DISTINCT e.user_id)::float
                / COUNT(DISTINCT c.user_id) AS retention_rate
            FROM cohort c
            JOIN pa_events e USING (user_id)
            GROUP BY 1,2
        )
        SELECT cohort_date, day_n, retention_rate
        FROM activity
        WHERE day_n BETWEEN 0 AND 7
        ORDER BY cohort_date, day_n
        ".

Definition sql_funnel : string :=
"
        WITH v AS (
            SELECT DISTINCT user_id FROM pa_events WHERE event_name = 'view'
        ),
        c AS (
            SELECT DISTINCT user_id FROM pa_events WHERE event_name = 'add_to_cart'
        ),
        p AS (
            SELECT DISTINCT user_id FROM pa_events WHERE event_name = 'purchase'
        )
        SELECT
            COUNT(v.user_id) AS view_users,
            COUNT(c.user_id) AS cart_users,
            COUNT(p.user_id) AS purchase_users
        FROM v
        LEFT JOIN c USING (user_id)
        LEFT JOIN p USING (user_id)
        ".

Definition sql_revenue : string :=
"
        SELECT
            date_trunc('day', order_time) AS order_date,
            SUM(amount) AS revenue
        FROM pa_orders
        GROUP BY 1
        ORDER BY 1
        ".

Definition sql_marketing : string :=
"
        SELECT
            device,
            COUNT(DISTINCT user_id) AS users
        FROM pa_sessions
        GROUP BY 1
        ORDER BY users DESC
        LIMIT 10
        ".

Definition sql_cohort : string :=
"
        SELECT
            date_trunc('week', signup_at) AS cohort_week,
            COUNT(DISTINCT user_id) AS users
        FROM pa_users
        GROUP BY 1
        ORDER BY 1
        LIMIT 10
        ".

Definition sql_segmentation : string :=
"
        SELECT
            event_name,
            COUNT(DISTINCT user_id) AS users,
            COUNT(*) AS events
        FROM pa_events
        GROUP BY 1
        ORDER BY users DESC
        LIMIT 10
        ".

Definition sql_placeholder : string :=
"
    SELECT 1 AS placeholder
    ".

Fixpoint dict_find (key : string) (d : list (string * pyval)) : option pyval :=
  match d with
  | [] => None
  | (k, v) :: d' => if String.eqb k key then Some v else dict_find key d'
  end.

(** [v.get(key, default)] *)
Definition py_get_default (v : pyval) (key : string) (default : pyval) : result pyval :=
  match v with
  | PDict d => Ok (match dict_find key d with Some x => x | None => default end)
  | _ => Raise (no_attribute v "get")
  end.

(** [v[key]] for a string [key] *)
Definition py_getitem (v : pyval) (key : string) : result pyval :=
  match v with
  | PDict d =>
      match dict_find key d with
      | Some x => Ok x
      | None => Raise (mkExn KeyError (repr_str key))
      end
  | PList _ => Raise (mkExn TypeError "list indices must be integers or slices, not str")
  | PStr _ => Raise (mkExn TypeError "string indices must be integers, not 'str'")
  | _ => Raise (mkExn TypeError (repr_str (type_name v) ++ " object is not subscriptable"))
  end.

(** [v.lower()] *)
Definition py_lower (v : pyval) : result string :=
  match v with
  | PStr s => Ok (lower s)
  | _ => Raise (no_attribute v "lower")
  end.

Definition build_expected_sql (problem : pyval) : result string :=
  (topic_value <- py_get_default problem "topic" (PStr "") ;;
   topic <- py_lower topic_value ;;
   Ok (
     if String.eqb topic "retention" then sql_retention else
     if String.eqb topic "funnel" then sql_funnel else
     if String.eqb topic "revenue" then sql_revenue else
     if String.eqb topic "marketing" then sql_marketing else
     if String.eqb topic "cohort" then sql_cohort else
     if String.eqb topic "segmentation" then sql_segmentation else
     sql_placeholder))%result.

Definition REQUIRED_FIELDS : list string :=
  ["problem_id"; "difficulty"; "topic"; "question"; "expected_columns"; "sort_keys"].

(** [d[key] = v] for a key the dictionary has: the key keeps its place. *)
Fixpoint dict_set (key : string) (v : pyval) (d : list (string * pyval))
  : list (string * pyval) :=
  match d with
  | [] => [(key, v)]
  | (k, x) :: d' => if String.eqb k key then (k, v) :: d' else (k, x) :: dict_set key v d'
  end.

(** [v in diff_cnt], the keys of [diff_cnt] being easy, medium and hard: a
    list or a dictionary cannot be hashed. *)
Definition in_diff_cnt (v : pyval) : result bool :=
  match v with
  | PStr s => Ok (String.eqb s "easy" || String.eqb s "medium" || String.eqb s "hard")
  | PList _ | PDict _ =>
      Raise (mkExn TypeError ("unhashable type: " ++ repr_str (type_name v)))
  | _ => Ok false
  end.

(** What [generate] acts on: the files, and the statements sent to
    PostgreSQL so far. *)
Record GenState : Type := mkGenState {
  gen_files : string -> option (result pyval);
  gen_executed : list string
}.

Definition G (A : Type) : Type := GenState -> result A * GenState.

Definition gret {A : Type} (a : A) : G A := fun s => (Ok a, s).

Definition glift {A : Type} (r : result A) : G A := fun s => (r, s).

Definition gbind {A B : Type} (m : G A) (k : A -> G B) : G B :=
  fun s =>
    match m s with
    | (Ok a, s') => k a s'
    | (Raise e, s') => (Raise e, s')
    end.

Declare Scope gen_scope.
Delimit Scope gen_scope with gen.
Notation "x <- m ;; k" := (gbind m (fun x => k))
  (at level 61, m at next level, right associativity) : gen_scope.
Notation "m ;;; k" := (gbind m (fun _ => k))
  (at level 61, right associativity) : gen_scope.

(** [pg.execute(sql)] *)
Definition pg_execute (pg : string -> result unit) (sql : string) : G unit :=
  fun s => (pg sql, mkGenState (gen_files s) (gen_executed s ++ [sql])%list).

(** [json.dump(v, open(path, "w"))] *)
Definition write_json (path : string) (v : pyval) : G unit :=
  fun s => (Ok tt,
            mkGenState (fun p => if String.eqb p path then Some (Ok v) else gen_files s p)
                       (gen_executed s)).

Section Generator.

(** How Python prints a value that is not a string; not modelled. *)
Variable py_repr : pyval -> string.

(** [f"{v}"] *)
Definition py_format (v : pyval) : string :=
  match v with
  | PStr s => s
  | _ => py_repr v
  end.

(** One round of the loop that checks the problems: the fields, then the
    difficulty, [advanced] becoming [hard] and anything unknown [medium]. *)
Definition check_problem (p : pyval) : result pyval :=
  match p with
  | PDict d =>
      if negb (forallb (fun k => mem_str k (map fst d)) REQUIRED_FIELDS) then
        Raise (mkExn ValueError ("문제 스키마 누락: " ++ py_repr p))
      else
        let d := if eq_str (lookup "difficulty" d) "advanced"
                 then dict_set "difficulty" (PStr "hard") d else d in
        (known <- in_diff_cnt (lookup "difficulty" d) ;;
         if negb known then Ok (PDict (dict_set "difficulty" (PStr "medium") d))
         else Ok (PDict d))%result
  | _ => Raise (no_attribute p "keys")
  end.

(** The loop that creates the expected tables. *)
Fixpoint create_tables (pg : string -> result unit) (problems : list pyval) : G unit :=
  match problems with
  | [] => gret tt
  | p :: rest =>
      (problem_id <- glift (py_getitem p "problem_id") ;;
       let table := "expected_" ++ py_format problem_id in
       sql <- glift (build_expected_sql p) ;;
       pg_execute pg ("DROP TABLE IF EXISTS " ++ table) ;;;
       pg_execute pg ("CREATE TABLE " ++ table ++ " AS " ++ sql) ;;;
       create_tables pg rest)%gen
  end.

Definition generate (today_ : string) (pg : string -> result unit)
  (build_prompt : result (list pyval)) : G string :=
  (problems <- glift build_prompt ;;
   if negb (Nat.eqb (length problems) 6) then
     glift (Raise (mkExn ValueError "문제는 반드시 6개여야 합니다."))
   else
     problems <- glift (rmapM check_problem problems) ;;
     create_tables pg problems ;;;
     let path := "problems/daily/" ++ today_ ++ ".json" in
     write_json path (PList problems) ;;;
     gret path)%gen.

End Generator.

(** The problem is an object with this id. *)
Definition has_problem_id (problem_id : string) (p : pyval) : bool :=
  match p with
  | PDict d => eq_str (lookup "problem_id" d) problem_id
  | _ => false
  end.

(** A problem as [generate] writes it: an object with the required fields
    and a difficulty that is easy, medium or hard. *)
Definition valid_problem (p : pyval) : Prop :=
  exists d,
    p = PDict d
    /\ (forall k, In k REQUIRED_FIELDS -> In k (map fst d))
    /\ (lookup "difficulty" d = PStr "easy" \/ lookup "difficulty" d = PStr "medium"
        \/ lookup "difficulty" d = PStr "hard").

(** The two statements [generate] sends for the problem [p]: the table of
    the problem is dropped, then created from the SQL that
    [build_expected_sql] gives for the problem. *)
Definition statements_of (py_repr : pyval -> string) (p : pyval) (st : list string)
  : Prop :=
  exists problem_id sql,
    py_getitem p "problem_id" = Ok problem_id
    /\ build_expected_sql p = Ok sql
    /\ st = ["DROP TABLE IF EXISTS expected_" ++ py_format py_repr problem_id;
             "CREATE TABLE expected_" ++ py_format py_repr problem_id ++ " AS " ++ sql].

(** The topic of the problem, when it is a string, is ASCII text (on which
    [lower] is that of Python). *)
Definition ascii_topic (p : pyval) : Prop :=
  match p with
  | PDict d => match lookup "topic" d with
               | PStr s => ascii_only s
               | _ => True
               end
  | _ => True
  end.

(** The state before any generation. *)
Definition empty_gen : GenState := mkGenState (fun _ => None) [].

(** A problem as Gemini may return it. *)
Definition gemini_problem (id difficulty topic : string) : pyval :=
  PDict [("problem_id", PStr id); ("difficulty", PStr difficulty); ("topic", PStr topic);
         ("question", PStr "?"); ("expected_columns", PList []); ("sort_keys", PList [])].

Definition six_problems : list pyval :=
  [gemini_problem "a" "easy" "Retention"; gemini_problem "b" "advanced" "funnel";
   gemini_problem "c" "medium" "revenue"; gemini_problem "d" "expert" "cohort";
   gemini_problem "e" "hard" "marketing"; gemini_problem "f" "easy" "other"].

(** * dashboard/app.py: [is_safe_sql], [run_query], [get_level_info]

    [get_pg()] and [get_duck()] are given by the engine they return, or by
    the exception they raise; [str.upper] acts on the ASCII range. *)

Definition is_lower (c : ascii) : bool :=
  let n := nat_of_ascii c in (97 <=? n)%nat && (n <=? 122)%nat.

Definition upper_char (c : ascii) : ascii :=
  if is_lower c then ascii_of_nat (nat_of_ascii c - 32) else c.

(** [s.upper()] *)
Fixpoint upper (s : string) : string :=
  match s with
  | EmptyString => EmptyString
  | String c s' => String (upper_char c) (upper s')
  end.

Definition dangerous : list string :=
  ["INSERT"; "UPDATE"; "DELETE"; "DROP"; "CREATE"; "ALTER"; "TRUNCATE"; "GRANT"; "REVOKE"].

Definition is_safe_sql (sql : string) : bool :=
  let clean := upper (strip sql) in
  negb (existsb (fun k => String.prefix k clean) dangerous).

(** [f"{n}"] for an integer *)
Definition str_int (n : Z) : string := NilEmpty.string_of_int (Z.to_int n).

Record PostgresEngine : Type := mkPostgresEngine {
  engine_fetch_df : string -> result DataFrame;
  engine_close : result unit
}.

Definition msg_empty_sql : string := "SQL이 비어 있습니다.".
Definition msg_select_only : string := "SELECT 문만 실행 가능합니다.".

(** [run_query(sql, limit)], with the queries it sent to the database. *)
Definition run_query (get_pg : result PostgresEngine) (sql : string) (limit : Z)
  : (option DataFrame * option string) * list string :=
  if String.eqb (strip sql) "" then ((None, Some msg_empty_sql), [])
  else if negb (is_safe_sql sql) then ((None, Some msg_select_only), [])
  else
    match get_pg with
    | Raise e => ((None, Some (str_exn e)), [])
    | Ok pg =>
        let query := rstrip_semicolon (strip sql) in
        let query := if negb (contains "LIMIT" (upper query))
                     then query ++ " LIMIT " ++ str_int limit else query in
        match engine_fetch_df pg query with
        | Raise e => ((None, Some (str_exn e)), [query])
        | Ok df =>
            match engine_close pg with
            | Raise e => ((None, Some (str_exn e)), [query])
            | Ok _ => ((Some df, None), [query])
            end
        end
    end.

Record DuckDBEngine : Type := mkDuckDBEngine {
  engine_fetchone : result pyval;
  duck_close : result unit
}.

Definition levels : list (Z * string) :=
  [(0, "🌱 Beginner"); (5, "🌿 Learner"); (15, "🌳 Analyst");
   (30, "⭐ Senior"); (50, "🏆 Expert"); (100, "👑 Master")]%Z.

(** [v >= t] for an integer [t] *)
Definition py_ge_int (v : pyval) (t : Z) : result bool :=
  match v with
  | PInt z => Ok (Z.leb t z)
  | PBool b => Ok (Z.leb t (if b then 1 else 0))
  | _ => Raise (mkExn TypeError
                  ("'>=' not supported between instances of "
                   ++ repr_str (type_name v) ++ " and 'int'"))
  end.

(** The loop over the levels, from the name and the threshold it has
    reached. *)
Fixpoint level_loop (correct : pyval) (ls : list (Z * string))
  (level_name : string) (next_threshold : Z) : result (string * Z) :=
  match ls with
  | [] => Ok (level_name, next_threshold)
  | (threshold, name) :: rest =>
      (ge <- py_ge_int correct threshold ;;
       if ge then level_loop correct rest name next_threshold
       else Ok (level_name, threshold))%result
  end.

Record LevelInfo : Type := mkLevelInfo {
  level_name : string;
  level_correct : pyval;
  level_next : Z
}.

Definition get_level_info (get_duck : result DuckDBEngine) : result LevelInfo :=
  (duck <- get_duck ;;
   (* try: fetchone  except: zeros  finally: close *)
   let fetched := match engine_fetchone duck with
                  | Ok r => r
                  | Raise _ => PDict [("total", PInt 0); ("correct", PInt 0)]
                  end in
   _ <- duck_close duck ;;
   value <- py_get_default fetched "correct" (PInt 0) ;;
   let correct := if truthy value then value else PInt 0 in
   found <- level_loop correct levels "🌱 Beginner" 5 ;;
   Ok (mkLevelInfo (fst found) correct (snd found)))%result.

(** A DuckDB that counts [correct] right answers. *)
Definition duck_with (correct : Z) : DuckDBEngine :=
  mkDuckDBEngine (Ok (PDict [("total", PInt (correct + 1)); ("correct", PInt correct)]))
                 (Ok tt).

(** A PostgreSQL that answers every query with one row. *)
Definition one_row_engine : PostgresEngine :=
  mkPostgresEngine (fun _ => Ok (frame ["n"] [[SInt 1]])) (Ok tt).

(** * Notions used in the further properties *)

(** The frame with the labels [cols] over the rows of [df]. *)
Definition relabel (cols : list string) (df : DataFrame) : DataFrame :=
  mkDataFrame cols (rows df).

(** The frame with the index [idx] over the cells of [df]. *)
Definition reindex (idx : list nat) (df : DataFrame) : DataFrame :=
  mkDataFrame (columns df) (combine idx (cells df)).

(** The names the column-name message reports as missing and as extra. *)
Definition missing_columns (user_df answer_df : DataFrame) : list string :=
  set_diff (py_set (map lower (columns answer_df))) (py_set (map lower (columns user_df))).

Definition extra_columns (user_df answer_df : DataFrame) : list string :=
  set_diff (py_set (map lower (columns user_df))) (py_set (map lower (columns answer_df))).

(** The calls of the [try] block of [grade_submission], in order: the
    submitted SQL, then the answer SQL if there is one and the submitted SQL
    ran, then the comparison if the answer SQL ran. *)
Definition grading_calls (w : World) (problem_id sql data_type : string) : list event :=
  match reference_sql w problem_id data_type with
  | Raise _ => []
  | Ok answer_sql =>
      EvFetch (executed sql) ::
      match postgres w (executed sql) with
      | Raise _ => []
      | Ok _ =>
          if truthy answer_sql then
            match py_strip answer_sql with
            | Raise _ => []
            | Ok stripped =>
                EvFetch (rstrip_semicolon stripped) ::
                match postgres w (rstrip_semicolon stripped) with
                | Ok _ => [EvCompare]
                | Raise _ => []
                end
            end
          else []
      end
  end.

(** The call [save_submission] makes once the connection is open. *)
Definition persist_calls (w : World) (data_type : string) : list event :=
  match duckdb w with
  | DuckConnectFails _ => []
  | _ => [EvInsert (data_type ++ "_submissions")]
  end.

(** The clock readings a grading call takes before it reads the clock for
    the elapsed time: the start, and [submitted_at] once the connection to
    DuckDB is open. *)
Definition readings_before_end (w : World) : nat :=
  match duckdb w with
  | DuckConnectFails _ => 1
  | _ => 2
  end.

(** The clock never runs backwards. *)
Definition monotone_clock (w : World) : Prop :=
  forall i j, i <= j -> (clock w i <= clock w j)%Z.



(** An entry of the problem file that is an object with another id, or with
    none. *)
Definition other_problem (problem_id : string) (q : pyval) : Prop :=
  exists d, q = PDict d /\ eq_str (lookup "problem_id" d) problem_id = false.

(** An entry of the problem file that is an object with this id. *)
Definition this_problem (problem_id : string) (q : pyval) : Prop :=
  exists d, q = PDict d /\ eq_str (lookup "problem_id" d) problem_id = true.

(** An entry of the problem file that is not an object. *)
Definition not_a_dict (q : pyval) : Prop := forall d, q <> PDict d.

(** A problem file with a stray number between two problems. *)
Definition stray_problems : pyval :=
  PList [PDict [("problem_id", PStr "p1")]; PInt 0; PDict [("problem_id", PStr "p2")]].

Definition stray_world : World :=
  mkWorld "2025-01-01" (fun n => 100 + 7 * Z.of_nat n)%Z 0
          (fun _ => Some (Ok stray_problems)) sample_postgres DuckOk [] [].

(** The number of right answers [get_level_info] reads from DuckDB: the
    [correct] of the row, and 0 when the query raises, when the row has no
    [correct] or when it is [None]. *)
Definition counted (duck : DuckDBEngine) (c : Z) : Prop :=
  (exists e, engine_fetchone duck = Raise e /\ c = 0%Z)
  \/ (exists d, engine_fetchone duck = Ok (PDict d)
               /\ (dict_find "correct" d = Some (PInt c)
                   \/ (dict_find "correct" d = None /\ c = 0%Z)
                   \/ (dict_find "correct" d = Some PNone /\ c = 0%Z))).

(** ** Tactics for runs in the world *)

Ltac run_world :=
  cbv beta iota zeta delta
    [bind try_exceptM time_time date_today fetch_df emit lift ret
     duckdb_connection duck_insert tick log_event store set_duckdb
     today clock clock_reads files postgres duckdb submissions trace fst snd].

Ltac world_scrutinee x :=
  match x with
  | py_iter _ => idtac
  | find_problem _ _ => idtac
  | py_get _ _ => idtac
  | py_strip _ => idtac
  | truthy _ => idtac
  | Nat.ltb _ _ => idtac
  | ?f _ => is_var f
  | _ => is_var x
  end.

Ltac step_world total :=
  run_world;
  match goal with
  | |- context [compare_results ?a ?b] =>
      let c := fresh "c" in let f := fresh "f" in let H := fresh "H" in
      destruct (total a b) as (c & f & H); rewrite H
  | |- context [match ?x with _ => _ end] => world_scrutinee x; destruct x
  end.

Ltac finish_run :=
  run_world; do 3 eexists;
  split; [reflexivity|];
  split; [cbn [trace]; rewrite <- ?app_assoc; try reflexivity;
          try (symmetry; apply app_nil_r)|];
  split; [try exact I; try (eexists; reflexivity)|];
  try (eexists; reflexivity);
  try (split; [reflexivity|cbn; intuition discriminate]).

(** * Properties of [compare_results] *)

Lemma compare_results_reaches (A B : DataFrame) :
  reaches_values A B = true ->
  compare_results A B =
    try_except (compare_values A B) (fun e => Ok (false, msg_compare_error e)).
Proof.
  unfold reaches_values, compare_results. intros H.
  apply andb_prop in H as [H Hs]. apply andb_prop in H as [Hc Hr].
  rewrite Hc, Hr, Hs. reflexivity.
Qed.

Lemma compare_values_cases (A B : DataFrame) :
  compare_values A B = Ok (true, msg_correct)
  \/ compare_values A B = Ok (false, msg_values_differ)
  \/ exists e, compare_values A B = Raise e.
Proof.
  unfold compare_values.
  destruct (sort_values (columns A) A) as [a|e]; cbn [rbind]; [|eauto].
  destruct (sort_values (columns B) B) as [b|e]; cbn [rbind]; [|eauto].
  destruct (set_columns _ _) as [a'|e]; cbn [rbind]; [|eauto].
  destruct (set_columns _ _) as [b'|e]; cbn [rbind]; [|eauto].
  destruct (getitem a' _) as [a''|e]; cbn [rbind]; [|eauto].
  destruct (getitem b' _) as [b''|e]; cbn [rbind]; [|eauto].
  destruct (equals a'' b''); auto.
Qed.

Lemma compare_results_total (A B : DataFrame) :
  exists eq reason, compare_results A B = Ok (eq, reason).
Proof.
  unfold compare_results.
  destruct (negb _); [eauto|].
  destruct (negb _); [eauto|].
  cbv zeta. destruct (negb _); [eauto|].
  destruct (compare_values_cases A B) as [H|[H|[e H]]]; rewrite H; cbn; eauto.
Qed.

(** ** The order on cells and on sort keys *)

Lemma N_order : order_laws N.compare.
Proof.
  constructor.
  - intros x y. apply N.compare_eq.
  - apply N.compare_refl.
  - intros x y. apply N.compare_antisym.
  - intros x y z. rewrite !N.compare_lt_iff. lia.
Qed.

Lemma Z_order : order_laws Z.compare.
Proof.
  constructor.
  - intros x y. apply Z.compare_eq.
  - apply Z.compare_refl.
  - intros x y. apply Z.compare_antisym.
  - intros x y z. rewrite !Z.compare_lt_iff. lia.
Qed.

Lemma ascii_order : order_laws Ascii.compare.
Proof.
  constructor; unfold Ascii.compare.
  - intros x y H. apply N.compare_eq in H.
    rewrite <- (ascii_N_embedding x), <- (ascii_N_embedding y). now f_equal.
  - intros x. apply N.compare_refl.
  - intros x y. apply N.compare_antisym.
  - intros x y z. apply (cmp_trans _ N_order).
Qed.

Lemma string_order : order_laws String.compare.
Proof.
  constructor.
  - apply String.compare_eq_iff.
  - induction x as [|c x IH]; cbn; [reflexivity|].
    now rewrite (cmp_refl _ ascii_order).
  - intros x y. apply String.compare_antisym.
  - induction x as [|a x IH]; intros [|b y] [|c z]; cbn; try congruence.
    destruct (Ascii.compare a b) eqn:Hab; try congruence;
      destruct (Ascii.compare b c) eqn:Hbc; try congruence; intros Hxy Hyz.
    + apply (cmp_eq _ ascii_order) in Hab, Hbc. subst.
      rewrite (cmp_refl _ ascii_order). eauto.
    + apply (cmp_eq _ ascii_order) in Hab. subst. now rewrite Hbc.
    + apply (cmp_eq _ ascii_order) in Hbc. subst. now rewrite Hab.
    + now rewrite (cmp_trans _ ascii_order _ _ _ Hab Hbc).
Qed.

Section Preorder.

Context {A : Type} (cmp : A -> A -> comparison) (laws : preorder_laws cmp).

Lemma pre_eq_sym (x y : A) : cmp x y = Eq -> cmp y x = Eq.
Proof. intros H. now rewrite (pre_opp _ laws x y), H. Qed.

Lemma pre_eq_r (x y z : A) : cmp y z = Eq -> cmp x y = cmp x z.
Proof.
  intros H. rewrite (pre_opp _ laws y x), (pre_opp _ laws z x).
  now rewrite (pre_eq _ laws y z x H).
Qed.

Lemma pre_lt_eq (x y z : A) : cmp x y = Lt -> cmp y z = Eq -> cmp x z = Lt.
Proof. intros H E. now rewrite <- (pre_eq_r x y z E). Qed.

End Preorder.

Lemma scalar_order : preorder_laws scalar_compare.
Proof.
  constructor.
  - intros [|a|a|a|a]; cbn; trivial; try apply Z.compare_refl.
    apply (cmp_refl _ string_order).
  - intros [|a|a|a|a] [|b|b|b|b]; cbn; trivial; try apply Z.compare_antisym.
    apply String.compare_antisym.
  - intros [|a|a|a|a] [|b|b|b|b] [|c|c|c|c]; cbn; try congruence;
      try apply (cmp_trans _ Z_order); apply (cmp_trans _ string_order).
  - intros x y z E.
    destruct x as [|a|a|a|a], y as [|b|b|b|b]; cbn in E; try discriminate;
      try apply Z.compare_eq in E; try apply String.compare_eq_iff in E;
      destruct z as [|c|c|c|c]; cbn; try reflexivity; now rewrite E.
Qed.

Lemma key_order : preorder_laws key_compare.
Proof.
  constructor.
  - induction x as [|a x IH]; cbn; [reflexivity|].
    now rewrite (pre_refl _ scalar_order).
  - induction x as [|a x IH]; intros [|b y]; cbn; trivial.
    rewrite (pre_opp _ scalar_order a b).
    destruct (scalar_compare a b); cbn; auto.
  - induction x as [|a x IH]; intros [|b y] [|c z]; cbn; try congruence.
    destruct (scalar_compare a b) eqn:Hab; try congruence;
      destruct (scalar_compare b c) eqn:Hbc; try congruence; intros Hxy Hyz.
    + rewrite (pre_eq _ scalar_order a b c Hab), Hbc. eauto.
    + now rewrite (pre_eq _ scalar_order a b c Hab), Hbc.
    + now rewrite (pre_lt_eq _ scalar_order a b c Hab Hbc).
    + now rewrite (pre_trans _ scalar_order _ _ _ Hab Hbc).
  - induction x as [|a x IH]; intros [|b y] [|c z]; cbn; try congruence.
    destruct (scalar_compare a b) eqn:Hab; try congruence. intros H.
    rewrite (pre_eq _ scalar_order a b c Hab).
    destruct (scalar_compare b c); auto.
Qed.

Lemma key_le_total (k1 k2 : list scalar) : key_le k1 k2 \/ key_le k2 k1.
Proof.
  unfold key_le, key_leb. rewrite (pre_opp _ key_order k1 k2).
  destruct (key_compare k1 k2); cbn; auto.
Qed.

Lemma key_le_equiv (k1 k2 : list scalar) :
  key_le k1 k2 -> key_le k2 k1 -> key_equiv k1 k2.
Proof.
  unfold key_le, key_leb, key_equiv. rewrite (pre_opp _ key_order k1 k2).
  destruct (key_compare k1 k2) eqn:H; cbn; congruence.
Qed.

Lemma key_equiv_le (k1 k2 : list scalar) : key_equiv k1 k2 -> key_le k1 k2.
Proof. unfold key_equiv, key_le, key_leb. now intros ->. Qed.

Lemma key_le_trans (k1 k2 k3 : list scalar) : key_le k1 k2 -> key_le k2 k3 -> key_le k1 k3.
Proof.
  unfold key_le, key_leb.
  destruct (key_compare k1 k2) eqn:H12; try congruence;
    destruct (key_compare k2 k3) eqn:H23; try congruence; intros _ _.
  - now rewrite (pre_eq _ key_order _ _ k3 H12), H23.
  - now rewrite (pre_eq _ key_order _ _ k3 H12), H23.
  - now rewrite (pre_lt_eq _ key_order _ _ _ H12 H23).
  - now rewrite (pre_trans _ key_order _ _ _ H12 H23).
Qed.

Lemma key_equiv_cells (k1 k2 : list scalar) :
  key_equiv k1 k2 <-> Forall2 cell_equiv k1 k2.
Proof.
  unfold key_equiv. revert k2. induction k1 as [|a k1 IH]; intros [|b k2]; cbn.
  - split; [constructor|reflexivity].
  - split; [discriminate|intros H; inversion H].
  - split; [discriminate|intros H; inversion H].
  - destruct (scalar_compare a b) eqn:Hab; split; try discriminate.
    + intros H. constructor; [exact Hab|now apply IH].
    + intros H. inversion H; subst. now apply IH.
    + intros H. inversion H; subst. unfold cell_equiv in *. congruence.
    + intros H. inversion H; subst. unfold cell_equiv in *. congruence.
Qed.

(** ** Sorting rows *)

Section SortRows.

Variable ps : list nat.

Lemma insert_row_perm (x : row) (l : list row) :
  Permutation (insert_row ps x l) (x :: l).
Proof.
  induction l as [|y l IH]; cbn; [reflexivity|].
  destruct (key_leb _ _); [reflexivity|].
  rewrite IH. apply perm_swap.
Qed.

Lemma sort_rows_perm (l : list row) : Permutation (sort_rows ps l) l.
Proof.
  induction l as [|x l IH]; cbn; [reflexivity|].
  rewrite insert_row_perm. now constructor.
Qed.

Lemma insert_row_sorted (x : row) (l : list row) :
  Sorted (row_le ps) l -> Sorted (row_le ps) (insert_row ps x l).
Proof.
  induction l as [|y l IH]; cbn; intros Hs.
  - repeat constructor.
  - destruct (key_leb (sort_key ps x) (sort_key ps y)) eqn:Hxy.
    + constructor; [assumption|]. constructor. exact Hxy.
    + inversion Hs as [|? ? Hs' Hhd]; subst.
      constructor; [auto|].
      assert (Hyx : (row_le ps) y x).
      { destruct (key_le_total (sort_key ps x) (sort_key ps y)) as [H|H];
          [unfold key_le in H; congruence | exact H]. }
      destruct l as [|z l]; cbn.
      * constructor. exact Hyx.
      * destruct (key_leb (sort_key ps x) (sort_key ps z));
          constructor; [exact Hyx|].
        now inversion Hhd.
Qed.

Lemma sort_rows_sorted (l : list row) : Sorted (row_le ps) (sort_rows ps l).
Proof.
  induction l as [|x l IH]; cbn; [constructor|].
  now apply insert_row_sorted.
Qed.

Lemma sort_rows_keys_sorted (l : list row) :
  StronglySorted key_le (map (sort_key ps) (sort_rows ps l)).
Proof.
  assert (H : StronglySorted (row_le ps) (sort_rows ps l)).
  { apply Sorted_StronglySorted; [|apply sort_rows_sorted].
    intros a b c. apply key_le_trans. }
  induction H as [|r rs Hs IH Hall]; cbn; constructor; [assumption|].
  apply Forall_map. exact Hall.
Qed.
End SortRows.

(** ** Sorted lists of keys that hold the same keys *)

Lemma key_equivb_refl (z : list scalar) : key_equivb z z = true.
Proof. unfold key_equivb. now rewrite (pre_refl _ key_order). Qed.

Lemma key_equivb_congr (z a b : list scalar) :
  key_equiv a b -> key_equivb z a = key_equivb z b.
Proof.
  intros H. unfold key_equivb. now rewrite (pre_eq_r _ key_order z a b H).
Qed.

Lemma count_equiv_cons (z a : list scalar) (l : list (list scalar)) :
  count_equiv z (a :: l) = (if key_equivb z a then 1 else 0) + count_equiv z l.
Proof. unfold count_equiv. cbn. now destruct (key_equivb z a). Qed.

Lemma count_equiv_perm (z : list scalar) (l l' : list (list scalar)) :
  Permutation l l' -> count_equiv z l = count_equiv z l'.
Proof.
  induction 1 as [|a l l' _ IH|a b l|l l' l'' _ IH1 _ IH2];
    rewrite ?count_equiv_cons; lia.
Qed.

Lemma count_equiv_in (z : list scalar) (l : list (list scalar)) :
  0 < count_equiv z l -> exists w, In w l /\ key_equiv z w.
Proof.
  induction l as [|a l IH]; [cbn; lia|].
  rewrite count_equiv_cons. unfold key_equivb at 1.
  destruct (key_compare z a) eqn:Hza; cbn; intros H.
  - exists a. split; [now left|exact Hza].
  - destruct (IH H) as (w & Hw & Hzw). exists w. split; [now right|exact Hzw].
  - destruct (IH H) as (w & Hw & Hzw). exists w. split; [now right|exact Hzw].
Qed.

(** Two sorted lists with as many keys of every class of keys the sort does
    not tell apart hold, place by place, keys of one class. *)
Lemma sorted_keys_equiv (k1 k2 : list (list scalar)) :
  StronglySorted key_le k1 -> StronglySorted key_le k2 ->
  (forall z, count_equiv z k1 = count_equiv z k2) ->
  Forall2 key_equiv k1 k2.
Proof.
  intros H1. revert k2.
  induction H1 as [|a k1 Hs1 IH Ha]; intros k2 H2 Hc.
  - destruct k2 as [|b k2]; [constructor|].
    specialize (Hc b). rewrite count_equiv_cons, key_equivb_refl in Hc.
    cbn in Hc. discriminate.
  - destruct H2 as [|b k2 Hs2 Hb].
    + specialize (Hc a). rewrite count_equiv_cons, key_equivb_refl in Hc.
      cbn in Hc. discriminate.
    + assert (Hmin : forall x l y m,
                 Forall (key_le x) l -> count_equiv y (x :: l) = count_equiv y (y :: m) ->
                 key_le x y).
      { intros x l y m Hx Hcount.
        destruct (count_equiv_in y (x :: l)) as (w & Hw & Hyw).
        { rewrite Hcount, count_equiv_cons, key_equivb_refl. lia. }
        assert (Hxw : key_le x w).
        { destruct Hw as [<-|Hw].
          - apply key_equiv_le. apply (pre_refl _ key_order).
          - rewrite Forall_forall in Hx. auto. }
        apply (key_le_trans x w y Hxw).
        apply key_equiv_le. now apply (pre_eq_sym _ key_order). }
      assert (Hab : key_equiv a b).
      { apply key_le_equiv.
        - apply (Hmin a k1 b k2 Ha). apply Hc.
        - apply (Hmin b k2 a k1 Hb). symmetry. apply Hc. }
      constructor; [exact Hab|]. apply IH; [exact Hs2|].
      intros z. specialize (Hc z). rewrite !count_equiv_cons in Hc.
      rewrite (key_equivb_congr z a b Hab) in Hc. lia.
Qed.

(** Sorting two lists of rows that hold the same multiset of sort keys gives
    two sequences of keys that the sort does not tell apart. *)
Lemma sort_rows_keys_equiv (ps : list nat) (l1 l2 : list row) :
  Permutation (map (sort_key ps) l1) (map (sort_key ps) l2) ->
  Forall2 key_equiv (map (sort_key ps) (sort_rows ps l1))
                    (map (sort_key ps) (sort_rows ps l2)).
Proof.
  intros Hp.
  apply sorted_keys_equiv; try apply sort_rows_keys_sorted.
  intros z. apply count_equiv_perm.
  rewrite (Permutation_map (sort_key ps) (sort_rows_perm ps l1)).
  rewrite (Permutation_map (sort_key ps) (sort_rows_perm ps l2)).
  exact Hp.
Qed.

Lemma map_cell_at_seq (r : row) (n : nat) :
  length (snd r) = n -> map (cell_at r) (seq 0 n) = snd r.
Proof.
  intros <-. unfold cell_at.
  apply nth_ext with (d := SNull) (d' := SNull).
  - now rewrite length_map, length_seq.
  - intros i Hi. rewrite length_map, length_seq in Hi.
    rewrite (nth_indep _ SNull (nth 0 (snd r) SNull))
      by now rewrite length_map, length_seq.
    rewrite (map_nth (fun i => nth i (snd r) SNull)).
    now rewrite seq_nth.
Qed.

(** ** Results of [rmapM] *)

Lemma rmapM_ok {A B : Type} (f : A -> result B) (l : list A) :
  (forall x, In x l -> exists y, f x = Ok y) -> exists ys, rmapM f l = Ok ys.
Proof.
  induction l as [|x l IH]; cbn; intros H; [eauto|].
  destruct (H x (or_introl eq_refl)) as [y ->]. cbn.
  destruct IH as [ys ->]; [auto|]. cbn. eauto.
Qed.

Lemma rmapM_ok_inv {A B : Type} (f : A -> result B) (l : list A) (ys : list B) :
  rmapM f l = Ok ys -> forall x, In x l -> exists y, f x = Ok y.
Proof.
  revert ys. induction l as [|x l IH]; cbn; intros ys H z Hz; [contradiction|].
  destruct (f x) as [y|e] eqn:Hx; cbn in H; [|discriminate].
  destruct (rmapM f l) as [ys'|e] eqn:Hl; cbn in H; [|discriminate].
  destruct Hz as [<-|Hz]; eauto.
Qed.

Lemma rmapM_raise {A B : Type} (f : A -> result B) (l : list A) (x : A) (e : exn) :
  In x l -> f x = Raise e -> exists e', rmapM f l = Raise e'.
Proof.
  intros Hin Hx. destruct (rmapM f l) as [ys|e'] eqn:Hl; [|eauto].
  destruct (rmapM_ok_inv f l ys Hl x Hin) as [y Hy]. congruence.
Qed.

(** ** Sort keys: the labels of a frame name its columns in order *)

Lemma positions_from_spec (cols : list string) (i : nat) (label : string) (p : nat) :
  In p (positions_from i label cols) <->
  exists j, p = i + j /\ nth_error cols j = Some label.
Proof.
  revert i. induction cols as [|c cols IH]; intros i; cbn.
  - split; [contradiction|]. intros [[|j] [_ H]]; discriminate.
  - destruct (String.eqb_spec c label) as [->|Hne]; cbn; rewrite IH; split.
    + intros [<-|[j [-> H]]].
      * exists 0. split; [lia|reflexivity].
      * exists (S j). split; [lia|exact H].
    + intros [[|j] [-> H]]; [left; lia|right]. exists j. split; [lia|exact H].
    + intros [j [-> H]]. exists (S j). split; [lia|exact H].
    + intros [[|j] [-> H]]; cbn in H; [congruence|].
      exists j. split; [lia|exact H].
Qed.

Lemma key_position_at (cols : list string) (label : string) (p j : nat) :
  key_position cols label = Ok p -> nth_error cols j = Some label -> p = j.
Proof.
  unfold key_position, positions. intros H Hj.
  assert (Hin : In j (positions_from 0 label cols))
    by (apply positions_from_spec; exists j; auto).
  destruct (positions_from 0 label cols) as [|q [|q' qs]]; try discriminate.
  destruct Hin as [<-|[]]. congruence.
Qed.

Lemma key_positions_seq (cols pre suf : list string) (ps : list nat) :
  cols = (pre ++ suf)%list ->
  rmapM (key_position cols) suf = Ok ps -> ps = seq (length pre) (length suf).
Proof.
  revert pre ps. induction suf as [|c suf IH]; cbn; intros pre ps Hc H.
  - congruence.
  - destruct (key_position cols c) as [p|e] eqn:Hp; cbn in H; [|discriminate].
    destruct (rmapM (key_position cols) suf) as [qs|e] eqn:Hq; cbn in H; [|discriminate].
    injection H as <-.
    assert (p = length pre) as ->.
    { eapply key_position_at; [exact Hp|]. subst cols.
      rewrite nth_error_app2, Nat.sub_diag; [reflexivity|lia]. }
    f_equal. specialize (IH (pre ++ [c])%list qs).
    rewrite length_app, Nat.add_1_r in IH. apply IH; [|reflexivity].
    now rewrite <- app_assoc.
Qed.

Lemma positions_from_absent (cols : list string) (i : nat) (label : string) :
  ~ In label cols -> positions_from i label cols = [].
Proof.
  revert i. induction cols as [|c cols IH]; cbn; intros i H; [reflexivity|].
  destruct (String.eqb_spec c label) as [->|_]; [tauto|]. apply IH. tauto.
Qed.

Lemma positions_from_unique (cols : list string) (i j : nat) (label : string) :
  NoDup cols -> nth_error cols j = Some label ->
  positions_from i label cols = [i + j].
Proof.
  intros Hnd. revert i j. induction Hnd as [|c cols Hc Hnd IH]; intros i j Hj.
  - destruct j; discriminate.
  - cbn. destruct j as [|j]; cbn in Hj.
    + injection Hj as ->. rewrite String.eqb_refl, Nat.add_0_r.
      now rewrite positions_from_absent.
    + destruct (String.eqb_spec c label) as [->|_].
      * apply nth_error_In in Hj. contradiction.
      * rewrite (IH (S i) j Hj). f_equal. lia.
Qed.

Lemma key_positions_nodup (cols : list string) :
  NoDup cols -> rmapM (key_position cols) cols = Ok (seq 0 (length cols)).
Proof.
  intros Hnd.
  destruct (rmapM_ok (key_position cols) cols) as [ps Hps].
  - intros c Hc. apply In_nth_error in Hc as [j Hj].
    unfold key_position, positions.
    rewrite (positions_from_unique cols 0 j c Hnd Hj). eauto.
  - rewrite Hps. f_equal. now apply (key_positions_seq cols [] cols).
Qed.

(** ** Columns the sort can order *)

Lemma bool_ext (a b : bool) : (a = true <-> b = true) -> a = b.
Proof.
  destruct a, b; intros [H1 H2]; auto.
  - symmetry. auto.
Qed.

Lemma existsb_perm {A : Type} (f : A -> bool) (l l' : list A) :
  Permutation l l' -> existsb f l = existsb f l'.
Proof.
  intros H. apply bool_ext. rewrite !existsb_exists.
  split; intros (x & Hx & Hf); exists x; (split; [|exact Hf]).
  - eapply Permutation_in; eauto.
  - eapply Permutation_in; [apply Permutation_sym|]; eauto.
Qed.

Lemma forallb_ext_in {A : Type} (f g : A -> bool) (l : list A) :
  (forall x, In x l -> f x = g x) -> forallb f l = forallb g l.
Proof.
  induction l as [|x l IH]; cbn; [reflexivity|].
  intros H. rewrite (H x), IH; auto.
Qed.

Lemma kinds_of_spec (col : list scalar) (k : kind) :
  In k (kinds_of col) <-> exists x, In x col /\ kind_of x = Some k.
Proof.
  induction col as [|x col IH]; cbn.
  - split; [contradiction|]. now intros [x [[] _]].
  - destruct (kind_of x) as [k'|] eqn:Hk; cbn; rewrite IH; split.
    + intros [<-|[y [Hy Hky]]]; eauto.
    + intros [y [[<-|Hy] Hky]]; [left; congruence|eauto].
    + intros [y [Hy Hky]]; eauto.
    + intros [y [[<-|Hy] Hky]]; [congruence|eauto].
Qed.

Lemma kind_eqb_spec (a b : kind) : reflect (a = b) (kind_eqb a b).
Proof. destruct a, b; cbn; constructor; congruence. Qed.

Lemma class_eqb_spec (a b : pyclass) : reflect (a = b) (class_eqb a b).
Proof. destruct a, b; cbn; constructor; congruence. Qed.

Lemma kinds_of_perm (col col' : list scalar) :
  Permutation col col' -> Permutation (kinds_of col) (kinds_of col').
Proof.
  induction 1 as [|x l l' _ IH|x y l|l l' l'' _ IH1 _ IH2]; cbn.
  - reflexivity.
  - destruct (kind_of x); auto.
  - destruct (kind_of x), (kind_of y); auto. apply perm_swap.
  - now rewrite IH1.
Qed.

Lemma has_kind_perm (k : kind) (col col' : list scalar) :
  Permutation col col' -> has_kind k col = has_kind k col'.
Proof. intros H. apply existsb_perm, kinds_of_perm, H. Qed.

Lemma dtype_of_perm (col col' : list scalar) :
  Permutation col col' -> dtype_of col = dtype_of col'.
Proof.
  intros H. unfold dtype_of, has_null.
  now rewrite !(has_kind_perm _ col col' H), (existsb_perm _ col col' H).
Qed.

Lemma no_number_with_time_perm (col col' : list scalar) :
  Permutation col col' -> no_number_with_time col = no_number_with_time col'.
Proof.
  intros H. unfold no_number_with_time. now rewrite !(has_kind_perm _ col col' H).
Qed.

Lemma one_class_spec (col : list scalar) :
  one_class col = true <->
  forall k k', In k (kinds_of col) -> In k' (kinds_of col) -> class_of k = class_of k'.
Proof.
  unfold one_class. destruct (kinds_of col) as [|k0 ks].
  - split; [intros _ k k' []|reflexivity].
  - rewrite forallb_forall. split.
    + intros H.
      assert (H0 : forall k, In k (k0 :: ks) -> class_of k0 = class_of k).
      { intros k [<-|Hin]; [reflexivity|]. specialize (H k Hin).
        now destruct (class_eqb_spec (class_of k0) (class_of k)). }
      intros k k' Hk Hk'. now rewrite <- (H0 k Hk), <- (H0 k' Hk').
    + intros H k Hin. destruct (class_eqb_spec (class_of k0) (class_of k)) as [|Hne];
        [reflexivity|].
      exfalso. apply Hne, H; [now left|now right].
Qed.

Lemma one_class_perm (col col' : list scalar) :
  Permutation col col' -> one_class col = one_class col'.
Proof.
  intros H. apply bool_ext. rewrite !one_class_spec.
  pose proof (kinds_of_perm col col' H) as Hk.
  split; intros Hall k k' H1 H2; apply Hall.
  - eapply Permutation_in; [apply Permutation_sym|]; eauto.
  - eapply Permutation_in; [apply Permutation_sym|]; eauto.
  - eapply Permutation_in; eauto.
  - eapply Permutation_in; eauto.
Qed.

Lemma one_kind_spec (col : list scalar) :
  one_kind col = true <->
  forall k k', In k (kinds_of col) -> In k' (kinds_of col) -> k = k'.
Proof.
  unfold one_kind. destruct (kinds_of col) as [|k0 ks].
  - split; [intros _ k k' []|reflexivity].
  - rewrite forallb_forall. split.
    + intros H.
      assert (H0 : forall k, In k (k0 :: ks) -> k0 = k).
      { intros k [<-|Hin]; [reflexivity|]. specialize (H k Hin).
        now destruct (kind_eqb_spec k0 k). }
      intros k k' Hk Hk'. now rewrite <- (H0 k Hk), <- (H0 k' Hk').
    + intros H k Hin. destruct (kind_eqb_spec k0 k) as [|Hne]; [reflexivity|].
      exfalso. apply Hne, H; [now left|now right].
Qed.

Lemma one_kind_perm (col col' : list scalar) :
  Permutation col col' -> one_kind col = one_kind col'.
Proof.
  intros H. apply bool_ext. rewrite !one_kind_spec.
  pose proof (kinds_of_perm col col' H) as Hk.
  split; intros Hall k k' H1 H2; apply Hall.
  - eapply Permutation_in; [apply Permutation_sym|]; eauto.
  - eapply Permutation_in; [apply Permutation_sym|]; eauto.
  - eapply Permutation_in; eauto.
  - eapply Permutation_in; eauto.
Qed.

(** The sort on one key raises exactly when the column holds values of two
    classes. *)
Lemma check_orderable_ok (col : list scalar) :
  is_ok (check_orderable col) = one_class col.
Proof.
  unfold check_orderable, one_class. destruct (kinds_of col) as [|k ks]; [reflexivity|].
  destruct (find _ ks) as [k'|] eqn:Hf; cbn [is_ok]; symmetry.
  - apply find_some in Hf as [Hin Hne].
    destruct (forallb _ ks) eqn:E; [|reflexivity].
    rewrite forallb_forall in E. rewrite (E k' Hin) in Hne. discriminate.
  - apply forallb_forall. intros k' Hin.
    pose proof (find_none _ _ Hf k' Hin) as Hn. cbn in Hn.
    now destruct (class_eqb (class_of k) (class_of k')).
Qed.

Lemma check_categorical_ok (col : list scalar) :
  is_ok (check_categorical col) = no_number_with_time col.
Proof.
  unfold check_categorical, no_number_with_time.
  now destruct ((has_kind KBool col || has_kind KInt col) && has_kind KTime col).
Qed.

Lemma is_ok_rmapM {A B : Type} (f : A -> result B) (l : list A) :
  is_ok (rmapM f l) = forallb (fun x => is_ok (f x)) l.
Proof.
  induction l as [|x l IH]; cbn; [reflexivity|].
  destruct (f x) as [y|e]; cbn; [|reflexivity].
  rewrite <- IH. now destruct (rmapM f l).
Qed.

Lemma mem_str_In (x : string) (l : list string) : mem_str x l = true <-> In x l.
Proof.
  unfold mem_str. rewrite existsb_exists. split.
  - intros (y & Hy & He). apply String.eqb_eq in He. now subst.
  - intros H. exists x. split; [exact H|apply String.eqb_refl].
Qed.

Lemma distinct_NoDup (l : list string) : distinct l = true <-> NoDup l.
Proof.
  induction l as [|x l IH]; cbn.
  - split; [constructor|reflexivity].
  - rewrite andb_true_iff, negb_true_iff, IH. split.
    + intros [Hx Hl]. constructor; [|exact Hl].
      intros Hin. apply mem_str_In in Hin. congruence.
    + intros H. inversion H as [|? ? Hx Hl]; subst. split; [|exact Hl].
      destruct (mem_str x l) eqn:E; [|reflexivity]. apply mem_str_In in E. contradiction.
Qed.

(** The labels of a frame are looked up without an exception exactly when
    they are distinct. *)
Lemma key_positions_NoDup (cols : list string) (ps : list nat) :
  rmapM (key_position cols) cols = Ok ps -> NoDup cols.
Proof.
  intros H. apply (NoDup_nth_error cols). intros i j Hi E.
  destruct (nth_error cols i) as [c|] eqn:Hc; [|apply nth_error_None in Hc; lia].
  destruct (rmapM_ok_inv _ _ _ H c) as [p Hp]; [eapply nth_error_In; eauto|].
  rewrite <- (key_position_at cols c p i Hp Hc).
  symmetry in E. now rewrite <- (key_position_at cols c p j Hp E).
Qed.

Lemma column_at_cells (df : DataFrame) (i : nat) :
  column_at df i = map (fun c => nth i c SNull) (cells df).
Proof. unfold column_at, cells, cell_at. now rewrite map_map. Qed.

(** [sort_values] on all the columns returns exactly on the frames that are
    [sortable]. *)
Lemma sort_values_sortable (df : DataFrame) :
  is_ok (sort_values (columns df) df) = sortable df.
Proof.
  unfold sort_values, sortable.
  destruct (distinct (columns df)) eqn:Hd; cbn [andb].
  - apply distinct_NoDup in Hd. rewrite (key_positions_nodup _ Hd). cbn [rbind].
    destruct (columns df) as [|c [|c' cs]].
    + reflexivity.
    + cbn [length seq]. rewrite <- check_orderable_ok.
      now destruct (check_orderable (column_at df 0)).
    + cbn [length seq].
      rewrite <- (forallb_ext_in _ _ _
                    (fun i _ => check_categorical_ok (column_at df i))).
      rewrite <- is_ok_rmapM.
      now destruct (rmapM (fun i => check_categorical (column_at df i)) _).
  - destruct (rmapM (key_position (columns df)) (columns df)) as [ps|e] eqn:Hps;
      [|reflexivity].
    apply key_positions_NoDup, distinct_NoDup in Hps. congruence.
Qed.

Lemma sort_values_rows (df s : DataFrame) :
  sort_values (columns df) df = Ok s ->
  s = mkDataFrame (columns df) (sort_rows (seq 0 (length (columns df))) (rows df)).
Proof.
  unfold sort_values.
  destruct (rmapM (key_position (columns df)) (columns df)) as [ps|e] eqn:Hps;
    cbn [rbind]; [|discriminate].
  apply (key_positions_seq _ [] _ _ eq_refl) in Hps. cbn in Hps. subst ps.
  destruct (match seq 0 (length (columns df)) with
            | [i] => check_orderable (column_at df i)
            | _ => _
            end); cbn [rbind]; [|discriminate].
  now intros H; injection H as <-.
Qed.

Lemma sortable_perm (A A' : DataFrame) :
  columns A' = columns A -> Permutation (cells A) (cells A') ->
  sortable A' = sortable A.
Proof.
  intros Hc Hp. unfold sortable. rewrite Hc. f_equal.
  assert (Hcol : forall i, Permutation (column_at A' i) (column_at A i)).
  { intros i. rewrite !column_at_cells. apply Permutation_map, Permutation_sym, Hp. }
  destruct (columns A) as [|c [|c' cs]].
  - reflexivity.
  - apply one_class_perm, Hcol.
  - apply forallb_ext_in. intros i _. apply no_number_with_time_perm, Hcol.
Qed.

(** ** [equals] *)

Lemma compare_values_true (A B : DataFrame) :
  compare_values A B = Ok (true, msg_correct) <-> values_agree A B.
Proof.
  unfold values_agree, compare_values, normalize.
  destruct (sort_values (columns A) A) as [a|e]; cbn [rbind];
    [|split; [discriminate|intros (?&?&?&?); discriminate]].
  destruct (sort_values (columns B) B) as [b|e]; cbn [rbind];
    [|split; [discriminate|intros (?&?&?&?&?); discriminate]].
  destruct (set_columns (reset_index a) _) as [a'|e]; cbn [rbind];
    [|split; [discriminate|intros (?&?&?&?); discriminate]].
  destruct (set_columns (reset_index b) _) as [b'|e]; cbn [rbind];
    [|split; [discriminate|intros (?&?&?&?&?); discriminate]].
  destruct (getitem a' _) as [a''|e]; cbn [rbind];
    [|split; [discriminate|intros (?&?&?&?); discriminate]].
  destruct (getitem b' _) as [b''|e]; cbn [rbind];
    [|split; [discriminate|intros (?&?&?&?&?); discriminate]].
  destruct (equals a'' b'') eqn:He; split; try discriminate; eauto.
  intros (x & y & Hx & Hy & Hxy). congruence.
Qed.

Lemma list_eqb_sym {A : Type} (eqb : A -> A -> bool) (l1 l2 : list A) :
  (forall x y, eqb x y = eqb y x) -> list_eqb eqb l1 l2 = list_eqb eqb l2 l1.
Proof.
  intros H. revert l2. induction l1 as [|x l1 IH]; intros [|y l2]; cbn; trivial.
  now rewrite H, IH.
Qed.

Lemma list_eqb_refl {A : Type} (eqb : A -> A -> bool) (l : list A) :
  (forall x, eqb x x = true) -> list_eqb eqb l l = true.
Proof.
  intros H. induction l as [|x l IH]; cbn; trivial. now rewrite H, IH.
Qed.

Lemma list_eqb_eq {A : Type} (eqb : A -> A -> bool) (l1 l2 : list A) :
  (forall x y, eqb x y = true -> x = y) -> list_eqb eqb l1 l2 = true -> l1 = l2.
Proof.
  intros H. revert l2. induction l1 as [|x l1 IH]; intros [|y l2]; cbn;
    try discriminate; [reflexivity|].
  intros E. apply andb_prop in E as [Ex El]. f_equal; auto.
Qed.

Lemma list_eqb_Forall2 {A : Type} (eqb : A -> A -> bool) (l1 l2 : list A) :
  list_eqb eqb l1 l2 = true <-> Forall2 (fun x y => eqb x y = true) l1 l2.
Proof.
  revert l2. induction l1 as [|x l1 IH]; intros [|y l2]; cbn.
  - split; [constructor|reflexivity].
  - split; [discriminate|intros H; inversion H].
  - split; [discriminate|intros H; inversion H].
  - rewrite andb_true_iff, IH. split.
    + intros [Hx Hl]. now constructor.
    + intros H. inversion H; subst. auto.
Qed.

Lemma Z_eqb_compare (a b : Z) :
  Z.eqb a b = match Z.compare a b with Eq => true | _ => false end.
Proof.
  destruct (Z.compare_spec a b) as [->|H|H].
  - apply Z.eqb_refl.
  - apply Z.eqb_neq. lia.
  - apply Z.eqb_neq. lia.
Qed.

Lemma string_eqb_compare (a b : string) :
  String.eqb a b = match String.compare a b with Eq => true | _ => false end.
Proof.
  destruct (String.compare a b) eqn:H.
  - apply String.compare_eq_iff in H. subst. apply String.eqb_refl.
  - apply String.eqb_neq. intros ->. now rewrite (cmp_refl _ string_order) in H.
  - apply String.eqb_neq. intros ->. now rewrite (cmp_refl _ string_order) in H.
Qed.

(** Two cells are equal to [equals] exactly when the sort does not tell
    them apart. *)
Lemma scalar_eqb_compare (x y : scalar) :
  scalar_eqb x y = match scalar_compare x y with Eq => true | _ => false end.
Proof.
  destruct x, y; cbn; try reflexivity;
    try apply Z_eqb_compare; apply string_eqb_compare.
Qed.

Lemma scalar_eqb_sym (x y : scalar) : scalar_eqb x y = scalar_eqb y x.
Proof.
  rewrite !scalar_eqb_compare, (pre_opp _ scalar_order x y).
  now destruct (scalar_compare x y).
Qed.

Lemma scalar_eqb_refl (x : scalar) : scalar_eqb x x = true.
Proof. now rewrite scalar_eqb_compare, (pre_refl _ scalar_order). Qed.

Lemma scalar_eqb_congr (x x' y y' : scalar) :
  cell_equiv x x' -> cell_equiv y y' -> scalar_eqb x y = scalar_eqb x' y'.
Proof.
  unfold cell_equiv. intros Hx Hy. rewrite !scalar_eqb_compare.
  now rewrite (pre_eq _ scalar_order x x' y Hx), (pre_eq_r _ scalar_order x' y y' Hy).
Qed.

Lemma dtype_eqb_sym (a b : dtype) : dtype_eqb a b = dtype_eqb b a.
Proof. now destruct a, b. Qed.

Lemma dtype_eqb_refl (a : dtype) : dtype_eqb a a = true.
Proof. now destruct a. Qed.

Lemma dtype_eqb_eq (a b : dtype) : dtype_eqb a b = true -> a = b.
Proof. destruct a, b; cbn; congruence. Qed.

Lemma equals_sym (a b : DataFrame) : equals a b = equals b a.
Proof.
  unfold equals.
  rewrite (list_eqb_sym String.eqb (columns a) (columns b) String.eqb_sym).
  destruct (list_eqb String.eqb (columns b) (columns a)) eqn:Hc; [|reflexivity].
  apply list_eqb_eq in Hc; [|intros x y; apply String.eqb_eq].
  cbn [andb]. f_equal.
  - apply list_eqb_sym. intros x y. unfold row_eqb. f_equal.
    + apply Nat.eqb_sym.
    + apply list_eqb_sym, scalar_eqb_sym.
  - rewrite Hc. apply forallb_ext_in. intros j _. apply dtype_eqb_sym.
Qed.

Lemma equals_refl (a : DataFrame) : equals a a = true.
Proof.
  unfold equals. rewrite (list_eqb_refl _ _ String.eqb_refl). cbn [andb].
  apply andb_true_intro. split.
  - apply list_eqb_refl. intros x. unfold row_eqb.
    now rewrite Nat.eqb_refl, (list_eqb_refl _ _ scalar_eqb_refl).
  - apply forallb_forall. intros j _. apply dtype_eqb_refl.
Qed.

Lemma values_agree_sym (A B : DataFrame) : values_agree A B -> values_agree B A.
Proof.
  intros (a & b & Ha & Hb & He). exists b, a. now rewrite equals_sym.
Qed.

(** ** Frames that [equals] does not tell apart *)

Lemma cell_equiv_refl (x : scalar) : cell_equiv x x.
Proof. apply (pre_refl _ scalar_order). Qed.

Lemma cell_equiv_sym (x y : scalar) : cell_equiv x y -> cell_equiv y x.
Proof. apply (pre_eq_sym _ scalar_order). Qed.

Lemma Forall2_refl {A : Type} (R : A -> A -> Prop) (l : list A) :
  (forall x, R x x) -> Forall2 R l l.
Proof. intros H. induction l; constructor; auto. Qed.

Lemma Forall2_sym {A : Type} (R : A -> A -> Prop) (l l' : list A) :
  (forall x y, R x y -> R y x) -> Forall2 R l l' -> Forall2 R l' l.
Proof. intros H. induction 1; constructor; auto. Qed.

Lemma frame_equiv_refl (a : DataFrame) : frame_equiv a a.
Proof.
  repeat split; [|apply Permutation_refl].
  apply Forall2_refl. intros c. apply Forall2_refl, cell_equiv_refl.
Qed.

Lemma frame_equiv_sym (a b : DataFrame) : frame_equiv a b -> frame_equiv b a.
Proof.
  intros (Hc & Hi & Hf & Hp). repeat split; auto using Permutation_sym.
  apply Forall2_sym; [|exact Hf].
  intros c c'. apply Forall2_sym, cell_equiv_sym.
Qed.

Lemma cells_eqb_congr (c c' d d' : list scalar) :
  Forall2 cell_equiv c c' -> Forall2 cell_equiv d d' ->
  list_eqb scalar_eqb c d = list_eqb scalar_eqb c' d'.
Proof.
  intros Hc. revert d d'. induction Hc as [|x x' c c' Hx Hc IH]; intros d d' Hd.
  - now destruct Hd.
  - destruct Hd as [|y y' d d' Hy Hd]; [reflexivity|]. cbn.
    now rewrite (scalar_eqb_congr x x' y y' Hx Hy), (IH d d' Hd).
Qed.

Lemma rows_eqb_congr (ra ra' rb rb' : list row) :
  map fst ra = map fst ra' ->
  Forall2 (Forall2 cell_equiv) (map snd ra) (map snd ra') ->
  map fst rb = map fst rb' ->
  Forall2 (Forall2 cell_equiv) (map snd rb) (map snd rb') ->
  list_eqb row_eqb ra rb = list_eqb row_eqb ra' rb'.
Proof.
  revert ra' rb rb'. induction ra as [|r ra IH]; intros [|r' ra'] rb rb' Hia Hca Hib Hcb;
    cbn in Hia, Hca; try discriminate.
  - destruct rb, rb'; cbn in Hib; try discriminate; reflexivity.
  - destruct rb as [|s rb], rb' as [|s' rb']; cbn in Hib, Hcb; try discriminate;
      [reflexivity|].
    injection Hia as Hr Hia. injection Hib as Hs Hib.
    inversion Hca as [|? ? ? ? Hrc Hca']; subst.
    inversion Hcb as [|? ? ? ? Hsc Hcb']; subst.
    cbn. unfold row_eqb at 1 3. rewrite Hr, Hs.
    rewrite (cells_eqb_congr _ _ _ _ Hrc Hsc).
    now rewrite (IH ra' rb rb' Hia Hca' Hib Hcb').
Qed.

(** [equals] gives the same answer on frames it does not tell apart. *)
Lemma equals_equiv (a a' b b' : DataFrame) :
  frame_equiv a a' -> frame_equiv b b' -> equals a b = equals a' b'.
Proof.
  intros (Hca & Hia & Hfa & Hpa) (Hcb & Hib & Hfb & Hpb). unfold equals.
  rewrite <- Hca, <- Hcb. f_equal; [f_equal|].
  - now apply rows_eqb_congr.
  - apply forallb_ext_in. intros j _. rewrite !column_at_cells.
    rewrite (dtype_of_perm _ _ (Permutation_map (fun c => nth j c SNull) Hpa)).
    now rewrite (dtype_of_perm _ _ (Permutation_map (fun c => nth j c SNull) Hpb)).
Qed.

(** ** Frames holding the same rows *)

Lemma well_formed_cells (df : DataFrame) :
  well_formed df <-> Forall (fun c => length c = length (columns df)) (cells df).
Proof. unfold well_formed, cells. now rewrite Forall_map. Qed.

Lemma sort_key_all (df : DataFrame) :
  well_formed df ->
  map (sort_key (seq 0 (length (columns df)))) (rows df) = cells df.
Proof.
  unfold well_formed, cells. rewrite Forall_forall. intros H.
  apply map_ext_in. intros r Hr. apply map_cell_at_seq. auto.
Qed.

Lemma sorted_cells (df : DataFrame) :
  well_formed df ->
  map snd (sort_rows (seq 0 (length (columns df))) (rows df)) =
  map (sort_key (seq 0 (length (columns df))))
      (sort_rows (seq 0 (length (columns df))) (rows df)).
Proof.
  unfold well_formed. rewrite Forall_forall. intros H.
  apply map_ext_in. intros r Hr. symmetry. apply map_cell_at_seq, H.
  eapply Permutation_in; [apply sort_rows_perm|exact Hr].
Qed.

Lemma insert_str_in (x y : string) (l : list string) :
  In y (insert_str x l) -> y = x \/ In y l.
Proof.
  induction l as [|z l IH]; cbn.
  - intros [<-|[]]. now left.
  - destruct (String.leb x z); cbn.
    + intros [<-|H]; auto.
    + intros [<-|H]; [auto|]. destruct (IH H); auto.
Qed.

Lemma sorted_in (y : string) (l : list string) : In y (sorted l) -> In y l.
Proof.
  induction l as [|x l IH]; cbn; [trivial|].
  intros H. apply insert_str_in in H as [->|H]; auto.
Qed.

Lemma getitem_ok (df : DataFrame) (labels : list string) :
  (forall l, In l labels -> In l (columns df)) ->
  exists g, getitem df labels = Ok g.
Proof.
  intros H. unfold getitem.
  destruct (rmapM_ok
              (fun l => match positions l (columns df) with
                        | [] => Raise (mkExn KeyError (repr_str l))
                        | ps => Ok ps
                        end) labels) as [pss ->]; [|cbn; eauto].
  intros l Hl. apply H, In_nth_error in Hl as [j Hj].
  assert (Hin : In j (positions l (columns df)))
    by (apply positions_from_spec; exists j; auto).
  destruct (positions l (columns df)); [contradiction|eauto].
Qed.

Lemma length_insert_row (ps : list nat) (x : row) (l : list row) :
  length (insert_row ps x l) = S (length l).
Proof.
  induction l as [|y l IH]; cbn; [reflexivity|].
  destruct (key_leb _ _); cbn; [reflexivity|]. now rewrite IH.
Qed.

Lemma length_sort_rows (ps : list nat) (l : list row) :
  length (sort_rows ps l) = length l.
Proof.
  induction l as [|x l IH]; cbn; [reflexivity|].
  now rewrite length_insert_row, IH.
Qed.

Lemma map_fst_combine {A B : Type} (l : list A) (l' : list B) :
  length l = length l' -> map fst (combine l l') = l.
Proof.
  revert l'. induction l as [|x l IH]; intros [|y l'] H; cbn in *;
    try discriminate; [reflexivity|].
  f_equal. apply IH. lia.
Qed.

Lemma map_snd_combine {A B : Type} (l : list A) (l' : list B) :
  length l = length l' -> map snd (combine l l') = l'.
Proof.
  revert l'. induction l as [|x l IH]; intros [|y l'] H; cbn in *;
    try discriminate; [reflexivity|].
  f_equal. apply IH. lia.
Qed.

(** The normal form of a frame the sort returns on. *)
Lemma normalize_sorted (df s : DataFrame) :
  sort_values (columns df) df = Ok s ->
  normalize df =
    getitem
      (mkDataFrame (map lower (columns df))
         (combine (seq 0 (len df))
            (map snd (sort_rows (seq 0 (length (columns df))) (rows df)))))
      (sorted (map lower (columns df))).
Proof.
  intros Hs. unfold normalize. rewrite Hs. apply sort_values_rows in Hs. subst s.
  cbn [rbind]. unfold set_columns, reset_index, len, cells. cbn [columns rows].
  now rewrite length_map, Nat.eqb_refl, length_sort_rows.
Qed.

Lemma set_eqb_refl (a : list string) : set_eqb a a = true.
Proof.
  unfold set_eqb, subset.
  assert (H : forallb (fun x => mem_str x a) a = true).
  { apply forallb_forall. intros x Hx. unfold mem_str.
    apply existsb_exists. exists x. split; [exact Hx|apply String.eqb_refl]. }
  now rewrite H.
Qed.

Lemma Forall2_pick (ps : list nat) (c c' : list scalar) :
  Forall2 cell_equiv c c' -> Forall2 cell_equiv (pick ps c) (pick ps c').
Proof.
  intros H. unfold pick. induction ps as [|i ps IH]; cbn; constructor; [|exact IH].
  clear IH. revert i. induction H as [|x x' c c' Hx _ IH]; intros [|i]; cbn;
    auto using cell_equiv_refl.
Qed.

Lemma cells_select (ps : list nat) (l : list row) :
  map snd (map (fun r : row => (fst r, map (cell_at r) ps)) l) = map (pick ps) (map snd l).
Proof. rewrite !map_map. reflexivity. Qed.

Lemma index_select (ps : list nat) (l : list row) :
  map fst (map (fun r : row => (fst r, map (cell_at r) ps)) l) = map fst l.
Proof. rewrite map_map. reflexivity. Qed.

Lemma Forall2_map {A B : Type} (R : B -> B -> Prop) (f : A -> B) (l l' : list A) :
  Forall2 (fun x y => R (f x) (f y)) l l' -> Forall2 R (map f l) (map f l').
Proof. induction 1; cbn; constructor; auto. Qed.

Lemma Forall2_impl {A : Type} (R R' : A -> A -> Prop) (l l' : list A) :
  (forall x y, R x y -> R' x y) -> Forall2 R l l' -> Forall2 R' l l'.
Proof. intros H. induction 1; constructor; auto. Qed.

(** Selecting columns keeps two frames that [equals] does not tell apart
    that way. *)
Lemma getitem_equiv (a b ga : DataFrame) (labels : list string) :
  frame_equiv a b -> getitem a labels = Ok ga ->
  exists gb, getitem b labels = Ok gb /\ frame_equiv ga gb.
Proof.
  intros (Hc & Hi & Hf & Hp). unfold getitem. rewrite <- Hc.
  destruct (rmapM _ labels) as [pss|e]; cbn [rbind]; [|discriminate].
  intros H. injection H as <-. eexists. split; [reflexivity|].
  unfold frame_equiv, cells. cbn [columns rows].
  rewrite !index_select, !cells_select. repeat split.
  - exact Hi.
  - apply Forall2_map. eapply Forall2_impl; [|exact Hf].
    intros c c'. apply Forall2_pick.
  - apply Permutation_map, Hp.
Qed.

(** The sorted cells of two well-formed frames holding the same rows. *)
Lemma sorted_cells_equiv (A B : DataFrame) :
  well_formed A -> well_formed B ->
  length (columns A) = length (columns B) ->
  Permutation (cells A) (cells B) ->
  Forall2 (Forall2 cell_equiv)
    (map snd (sort_rows (seq 0 (length (columns A))) (rows A)))
    (map snd (sort_rows (seq 0 (length (columns B))) (rows B)))
  /\ Permutation
       (map snd (sort_rows (seq 0 (length (columns A))) (rows A)))
       (map snd (sort_rows (seq 0 (length (columns B))) (rows B))).
Proof.
  intros HwA HwB Hn Hp. split.
  - rewrite (sorted_cells A HwA), (sorted_cells B HwB), <- Hn.
    eapply Forall2_impl; [intros c c'; apply key_equiv_cells|].
    apply sort_rows_keys_equiv.
    rewrite (sort_key_all A HwA). rewrite Hn. now rewrite (sort_key_all B HwB).
  - rewrite (Permutation_map snd (sort_rows_perm _ (rows A))).
    rewrite (Permutation_map snd (sort_rows_perm _ (rows B))). exact Hp.
Qed.

Lemma well_formed_perm (A B : DataFrame) :
  well_formed A -> length (columns A) = length (columns B) ->
  Permutation (cells A) (cells B) -> well_formed B.
Proof.
  intros Hwf Hn Hp. apply well_formed_cells. apply well_formed_cells in Hwf.
  rewrite <- Hn. eapply Permutation_Forall; eauto.
Qed.

Lemma len_perm (A B : DataFrame) : Permutation (cells A) (cells B) -> len A = len B.
Proof.
  intros Hp. apply Permutation_length in Hp. unfold cells in Hp.
  now rewrite !length_map in Hp.
Qed.

(** Two well-formed frames with the same lower-cased labels and the same
    rows, on which the sort returns, have normal forms that [equals] does
    not tell apart. *)
Lemma normalize_equiv (A B sa sb : DataFrame) :
  well_formed A ->
  map lower (columns A) = map lower (columns B) ->
  Permutation (cells A) (cells B) ->
  sort_values (columns A) A = Ok sa ->
  sort_values (columns B) B = Ok sb ->
  exists a b, normalize A = Ok a /\ normalize B = Ok b /\ frame_equiv a b.
Proof.
  intros Hwf Hcols Hp Hsa Hsb.
  assert (Hn : length (columns A) = length (columns B)).
  { rewrite <- (length_map lower (columns A)), Hcols. apply length_map. }
  pose proof (well_formed_perm A B Hwf Hn Hp) as HwfB.
  pose proof (len_perm A B Hp) as Hlen.
  destruct (sorted_cells_equiv A B Hwf HwfB Hn Hp) as [Hf Hperm].
  rewrite (normalize_sorted A sa Hsa), (normalize_sorted B sb Hsb).
  rewrite <- Hcols, <- Hlen.
  destruct (getitem_ok
              (mkDataFrame (map lower (columns A))
                 (combine (seq 0 (len A))
                    (map snd (sort_rows (seq 0 (length (columns A))) (rows A)))))
              (sorted (map lower (columns A)))) as [ga Hga].
  { intros l Hl. cbn. now apply sorted_in. }
  assert (Hfe : frame_equiv
                  (mkDataFrame (map lower (columns A))
                     (combine (seq 0 (len A))
                        (map snd (sort_rows (seq 0 (length (columns A))) (rows A)))))
                  (mkDataFrame (map lower (columns A))
                     (combine (seq 0 (len A))
                        (map snd (sort_rows (seq 0 (length (columns B))) (rows B)))))).
  { unfold frame_equiv, cells. cbn [columns rows].
    assert (HlA : length (seq 0 (len A))
                  = length (map snd (sort_rows (seq 0 (length (columns A))) (rows A))))
      by (unfold len; now rewrite length_seq, length_map, length_sort_rows).
    assert (HlB : length (seq 0 (len A))
                  = length (map snd (sort_rows (seq 0 (length (columns B))) (rows B))))
      by (rewrite Hlen; unfold len; now rewrite length_seq, length_map, length_sort_rows).
    rewrite !map_fst_combine, !map_snd_combine by assumption. auto. }
  destruct (getitem_equiv _ _ ga _ Hfe Hga) as (gb & Hgb & He).
  exists ga, gb. auto.
Qed.

Lemma values_agree_same_rows (A B : DataFrame) :
  well_formed A ->
  map lower (columns A) = map lower (columns B) ->
  Permutation (cells A) (cells B) ->
  sortable A = true -> sortable B = true ->
  values_agree A B.
Proof.
  intros Hwf Hcols Hp HA HB.
  rewrite <- sort_values_sortable in HA, HB.
  destruct (sort_values (columns A) A) as [sa|e] eqn:Hsa; [|discriminate].
  destruct (sort_values (columns B) B) as [sb|e] eqn:Hsb; [|discriminate].
  destruct (normalize_equiv A B sa sb Hwf Hcols Hp Hsa Hsb) as (a & b & Ha & Hb & He).
  exists a, b. split; [exact Ha|]. split; [exact Hb|].
  rewrite (equals_equiv a a b a (frame_equiv_refl a) (frame_equiv_sym a b He)).
  apply equals_refl.
Qed.

(** * Claims about [compare_results] *)

(** C1, as amended.  Two well-formed frames with ASCII labels that are,
    lower-cased, the same sequence, whose rows are the same multiset of
    cell tuples, and on which the sort of the rows does not raise (distinct
    labels; values of one class in the column of a frame with one column;
    no column holding a number and a timestamp in a frame with several),
    are found equal: [compare_results] returns [True] with the success
    message, whatever the order of the rows and the case of the labels. *)
Theorem compare_results_same_rows (A B : DataFrame) :
  well_formed A ->
  Forall ascii_only (columns A) -> Forall ascii_only (columns B) ->
  map lower (columns A) = map lower (columns B) ->
  Permutation (cells A) (cells B) ->
  sortable A = true -> sortable B = true ->
  compare_results A B = Ok (true, msg_correct).
Proof.
  intros Hwf _ _ Hcols Hp HA HB.
  assert (Hr : reaches_values A B = true).
  { unfold reaches_values. rewrite Hcols, set_eqb_refl, andb_true_r.
    apply andb_true_intro. split; apply Nat.eqb_eq.
    - rewrite <- (length_map lower (columns A)), Hcols. apply length_map.
    - now apply len_perm. }
  rewrite (compare_results_reaches A B Hr).
  assert (Hv : compare_values A B = Ok (true, msg_correct))
    by (apply compare_values_true, values_agree_same_rows; assumption).
  now rewrite Hv.
Qed.

Lemma compare_results_same_rows_witness :
  compare_results mixed_pair mixed_pair_answer = Ok (true, msg_correct).
Proof.
  apply compare_results_same_rows.
  - repeat constructor.
  - repeat constructor.
  - repeat constructor.
  - reflexivity.
  - exact (Permutation_rev [[SStr "x"; SInt 1]; [SInt 1; SInt 2]; [SBool true; SInt 2]]).
  - reflexivity.
  - reflexivity.
Defined.

(** C1, as stated, fails on a frame compared with itself when its only
    column holds an integer and a string: the sort raises and the outcome
    is [False]. *)
Lemma compare_results_same_rows_counterexample :
  map lower (columns mixed_frame) = map lower (columns mixed_frame)
  /\ Permutation (cells mixed_frame) (cells mixed_frame)
  /\ equal_flag (compare_results mixed_frame mixed_frame) = Some false.
Proof.
  split; [reflexivity|]. split; [apply Permutation_refl|].
  vm_compute. reflexivity.
Qed.

(** The rows are sorted on the columns in the order each query selected
    them, before the columns are put in one order: two frames with the same
    rows and the same labels in another column order are found different. *)
Example compare_results_column_order :
  compare_results columns_ab columns_ba = Ok (false, msg_values_differ).
Proof. vm_compute. reflexivity. Qed.

Lemma append_assoc (a b c : string) : (a ++ b) ++ c = a ++ (b ++ c).
Proof. induction a as [|x a IH]; cbn; [reflexivity|]. now rewrite IH. Qed.

Lemma prefix_app (n q : string) : String.prefix n (n ++ q) = true.
Proof.
  induction n as [|c n IH]; cbn; [now destruct q|].
  destruct (ascii_dec c c); [exact IH|congruence].
Qed.

Lemma contains_app (p n q : string) : contains n (p ++ n ++ q) = true.
Proof.
  induction p as [|c p IH]; cbn [append].
  - pose proof (prefix_app n q) as H.
    destruct (n ++ q); cbn [contains]; now rewrite H.
  - cbn [contains]. rewrite IH. apply orb_true_r.
Qed.

Lemma msg_row_count_mentions (A B : DataFrame) :
  mentions_row_counts A B (msg_row_count (len A) (len B)).
Proof.
  unfold mentions_row_counts, msg_row_count. split.
  - apply contains_app.
  - rewrite <- !append_assoc. rewrite (append_assoc _ (str_nat (len B)) ")").
    apply contains_app.
Qed.

(** C5, as amended.  When the row counts differ the outcome is [False]; when
    the column counts agree, the reason is the row-count message, which
    names both row counts; when the column counts differ too, the reason is
    the column-count message. *)
Theorem compare_results_row_count (A B : DataFrame) :
  len A <> len B ->
  exists reason,
    compare_results A B = Ok (false, reason)
    /\ (length (columns A) = length (columns B) ->
        reason = msg_row_count (len A) (len B)
        /\ mentions_row_counts A B reason)
    /\ (length (columns A) <> length (columns B) ->
        reason = msg_column_count (length (columns A)) (length (columns B))).
Proof.
  intros Hne. unfold compare_results.
  destruct (Nat.eqb_spec (length (columns A)) (length (columns B))) as [Hc|Hc]; cbn [negb].
  - destruct (Nat.eqb_spec (len A) (len B)) as [Hr|_]; [contradiction|]. cbn [negb].
    eexists. split; [reflexivity|]. split; [|intros H; contradiction].
    intros _. split; [reflexivity|]. apply msg_row_count_mentions.
  - eexists. split; [reflexivity|]. split; [intros H; contradiction|reflexivity].
Qed.

Lemma compare_results_row_count_witness :
  exists reason,
    compare_results three_rows two_rows = Ok (false, reason)
    /\ (length (columns three_rows) = length (columns two_rows) ->
        reason = msg_row_count 3 2
        /\ mentions_row_counts three_rows two_rows reason)
    /\ (length (columns three_rows) <> length (columns two_rows) ->
        reason = msg_column_count 1 1).
Proof. apply (compare_results_row_count three_rows two_rows). cbn. lia. Defined.

(** C5, as stated, fails when the column counts differ too: the column-count
    check comes first and its message names the column counts. *)
Lemma compare_results_row_count_counterexample :
  len three_rows <> len five_rows
  /\ exists reason,
       compare_results three_rows five_rows = Ok (false, reason)
       /\ ~ mentions_row_counts three_rows five_rows reason.
Proof.
  split; [cbn; lia|]. eexists. split; [vm_compute; reflexivity|].
  intros [H _]. vm_compute in H. discriminate.
Qed.

Lemma check_orderable_raises (col : list scalar) (e : exn) :
  check_orderable col = Raise e -> exn_class e = TypeError.
Proof.
  unfold check_orderable. destruct (kinds_of col) as [|k ks]; [discriminate|].
  destruct (find _ ks); [|discriminate]. now intros H; injection H as <-.
Qed.

(** The sort of a frame with one column. *)
Lemma sort_values_single (df : DataFrame) (c : string) :
  columns df = [c] ->
  sort_values (columns df) df =
    (_ <- check_orderable (column_at df 0) ;;
     Ok (mkDataFrame (columns df) (sort_rows [0] (rows df))))%result.
Proof.
  intros Hc. unfold sort_values. rewrite Hc. cbn [rmapM rbind].
  unfold key_position, positions. cbn [positions_from].
  now rewrite String.eqb_refl.
Qed.

Lemma sort_values_single_raises (df : DataFrame) :
  length (columns df) = 1 -> one_class (column_at df 0) = false ->
  exists e, sort_values (columns df) df = Raise e /\ exn_class e = TypeError.
Proof.
  intros Hlen Hmix.
  destruct (columns df) as [|c [|c' cs]] eqn:Hc; try discriminate.
  rewrite <- Hc, (sort_values_single df c Hc).
  rewrite <- check_orderable_ok in Hmix.
  destruct (check_orderable (column_at df 0)) as [u|e] eqn:He; [discriminate|].
  exists e. split; [reflexivity|]. eapply check_orderable_raises; eauto.
Qed.

(** C6.  [compare_results] returns an outcome on every pair of frames; an
    exception raised in the value comparison becomes [False] with a reason
    that is [비교 오류: ] followed by the text of that exception; and a
    frame with one column holding values that cannot be ordered (a number
    and a string, say), on either side, is such a case: the sort raises a
    [TypeError], whose text the reason carries. *)
Theorem compare_results_fails_closed (A B : DataFrame) :
  (exists eq reason, compare_results A B = Ok (eq, reason))
  /\ (forall e, reaches_values A B = true -> compare_values A B = Raise e ->
      compare_results A B = Ok (false, "비교 오류: " ++ exn_msg e))
  /\ (reaches_values A B = true ->
      length (columns A) = 1 ->
      one_class (column_at A 0) = false \/ one_class (column_at B 0) = false ->
      exists e,
        compare_values A B = Raise e
        /\ exn_class e = TypeError
        /\ compare_results A B = Ok (false, "비교 오류: " ++ exn_msg e)).
Proof.
  assert (Hexn : forall e, reaches_values A B = true -> compare_values A B = Raise e ->
                 compare_results A B = Ok (false, "비교 오류: " ++ exn_msg e)).
  { intros e Hr He. now rewrite (compare_results_reaches A B Hr), He. }
  split; [apply compare_results_total|]. split; [exact Hexn|].
  intros Hr HlA Hmix.
  assert (HlB : length (columns B) = 1).
  { unfold reaches_values in Hr. apply andb_prop in Hr as [Hr _].
    apply andb_prop in Hr as [Hr _]. apply Nat.eqb_eq in Hr. lia. }
  assert (He : exists e, compare_values A B = Raise e /\ exn_class e = TypeError).
  { unfold compare_values.
    destruct (one_class (column_at A 0)) eqn:HA.
    - destruct Hmix as [Hmix|Hmix]; [discriminate|].
      destruct (sort_values_single_raises B HlB Hmix) as (e & He & Hc).
      destruct (sort_values (columns A) A) as [a|e'] eqn:Ha; cbn [rbind].
      + rewrite He. cbn. eauto.
      + destruct (columns A) as [|c [|c' cs]] eqn:Hcols; try discriminate.
        rewrite <- Hcols, (sort_values_single A c Hcols) in Ha.
        destruct (check_orderable (column_at A 0)) as [u|e''] eqn:Hchk;
          cbn [rbind] in Ha; [discriminate|].
        injection Ha as <-. exists e''. split; [reflexivity|].
        eapply check_orderable_raises; eauto.
    - destruct (sort_values_single_raises A HlA HA) as (e & He & Hc).
      rewrite He. cbn. eauto. }
  destruct He as (e & He & Hc). exists e. auto.
Qed.

Lemma compare_results_fails_closed_witness :
  compare_results mixed_frame mixed_frame
  = Ok (false, "비교 오류: '<' not supported between instances of 'str' and 'int'").
Proof.
  destruct (proj2 (proj2 (compare_results_fails_closed mixed_frame mixed_frame)))
    as (e & He & _ & Hr); [reflexivity|reflexivity|now left|].
  rewrite Hr. vm_compute in He. injection He as <-. reflexivity.
Defined.

(** C8.  The [equal] flag does not depend on which frame is the submission
    and which the answer. *)
Theorem compare_results_equal_symmetric (A B : DataFrame) :
  equal_flag (compare_results A B) = equal_flag (compare_results B A).
Proof.
  unfold compare_results.
  rewrite (Nat.eqb_sym (length (columns B))), (Nat.eqb_sym (len B)).
  destruct (negb (Nat.eqb (length (columns A)) (length (columns B)))); [reflexivity|].
  destruct (negb (Nat.eqb (len A) (len B))); [reflexivity|]. cbv zeta.
  replace (set_eqb (py_set (map lower (columns B))) (py_set (map lower (columns A))))
    with (set_eqb (py_set (map lower (columns A))) (py_set (map lower (columns B))))
    by (unfold set_eqb; apply andb_comm).
  destruct (negb (set_eqb _ _)); [reflexivity|].
  destruct (compare_values_cases A B) as [HA|[HA|[e HA]]];
    destruct (compare_values_cases B A) as [HB|[HB|[e' HB]]];
    rewrite HA, HB; cbn; try reflexivity; exfalso.
  - apply compare_values_true, values_agree_sym, compare_values_true in HA. congruence.
  - apply compare_values_true, values_agree_sym, compare_values_true in HA. congruence.
  - apply compare_values_true, values_agree_sym, compare_values_true in HB. congruence.
  - apply compare_values_true, values_agree_sym, compare_values_true in HB. congruence.
Qed.

Lemma msg_column_names_populated (missing extra : list string) :
  msg_column_names missing extra <> "".
Proof.
  unfold msg_column_names. destruct missing, extra; cbn; discriminate.
Qed.

(** C9.  The reason of every outcome is a non-empty string, and with
    [True] it is the success message. *)
Theorem compare_results_reason_populated (A B : DataFrame) :
  exists eq reason,
    compare_results A B = Ok (eq, reason)
    /\ reason <> ""
    /\ (eq = true -> reason = msg_correct)
    /\ msg_correct <> "".
Proof.
  unfold compare_results.
  destruct (negb (Nat.eqb (length (columns A)) (length (columns B)))).
  { do 2 eexists. split; [reflexivity|]. repeat split; cbn; discriminate. }
  destruct (negb (Nat.eqb (len A) (len B))).
  { do 2 eexists. split; [reflexivity|]. repeat split; cbn; discriminate. }
  cbv zeta. destruct (negb (set_eqb _ _)).
  { do 2 eexists. split; [reflexivity|].
    repeat split; try discriminate. apply msg_column_names_populated. }
  destruct (compare_values_cases A B) as [H|[H|[e H]]]; rewrite H; cbn;
    do 2 eexists; (split; [reflexivity|]); repeat split; discriminate.
Qed.

(** * The grading call *)

Lemma save_submission_run
  (session_date problem_id data_type sql_text : string)
  (c : bool) (f : string) (w : World) :
  exists w' evs,
    save_submission session_date problem_id data_type sql_text c f w = (Ok tt, w')
    /\ trace w' = (trace w ++ evs)%list
    /\ ~ In EvCompare evs
    /\ clock w' = clock w.
Proof.
  unfold save_submission. destruct w as [td ck n fs pg [|e|e] subs tr]; run_world.
  - do 2 eexists. split; [reflexivity|]. split; [reflexivity|].
    split; [|reflexivity]. intros [H|[]]. discriminate.
  - exists (mkWorld td ck n fs pg (DuckConnectFails e) subs tr), [].
    rewrite app_nil_r. auto.
  - do 2 eexists. split; [reflexivity|]. split; [reflexivity|].
    split; [|reflexivity]. intros [H|[]]. discriminate.
Qed.

(** What a grading call returns, and the calls it makes. *)
Lemma grade_submission_run (w : World) (problem_id sql data_type : string)
  (note : option string) :
  exists v w' evs,
    grade_submission problem_id sql data_type note w = (Ok v, w')
    /\ trace w' = (trace w ++ evs)%list
    /\ match reference_sql w problem_id data_type with
       | Ok _ => exists evs', evs = EvFetch (executed sql) :: evs'
       | Raise _ => True
       end
    /\ match grading w problem_id sql data_type with
       | Ok (c, f) => exists t, v = mkSubmitResponse c f t None
       | Raise e =>
           v = mkSubmitResponse false (msg_sql_error e) 0 (Some (str_exn e))
           /\ ~ In EvCompare evs
       end.
Proof.
  unfold grade_submission, grading, reference_sql, load_problem_with_answer,
    save_submission, executed, try_except, rbind.
  destruct w as [td ck n fs pg dk subs tr].
  repeat step_world compare_results_total.
  all: finish_run.
Qed.

Lemma find_problem_dict (problem_id : string) (ps : list pyval) (p : pyval) :
  find_problem problem_id ps = Ok (Some p) -> exists d, p = PDict d.
Proof.
  induction ps as [|q ps IH]; cbn; [discriminate|].
  destruct q; cbn; try discriminate.
  destruct (eq_str _ _); [|exact IH].
  intros H. injection H as <-. eauto.
Qed.

(** The lookup of the answer SQL does not raise. *)
Lemma reference_sql_total (w : World) (problem_id data_type : string) :
  exists v, reference_sql w problem_id data_type = Ok v.
Proof.
  unfold reference_sql, load_problem_with_answer.
  destruct w as [td ck n fs pg dk subs tr]. run_world.
  destruct (fs (problems_path td data_type)) as [content|]; cbn; [|eauto].
  destruct content as [v|e]; cbn; [|eauto].
  destruct (py_iter v) as [ps|e]; cbn; [|eauto].
  destruct (find_problem problem_id ps) as [[p|]|e] eqn:H; cbn; eauto.
  destruct (find_problem_dict _ _ _ H) as [d ->]. cbn. destruct d; eauto.
Qed.

Lemma grading_set_duckdb (d : duck_status) (w : World)
  (problem_id sql data_type : string) :
  grading (set_duckdb d w) problem_id sql data_type
  = grading w problem_id sql data_type.
Proof.
  unfold grading, reference_sql, load_problem_with_answer.
  destruct w as [td ck n fs pg dk subs tr]. run_world.
  destruct (fs (problems_path td data_type)); reflexivity.
Qed.

(** ** Stripping *)

Lemma rstrip_by_all (p : ascii -> bool) (t : string) :
  all_chars p t = true -> rstrip_by p t = "".
Proof.
  induction t as [|c t IH]; cbn; [reflexivity|].
  intros H. apply andb_prop in H as [Hc Ht]. now rewrite (IH Ht), Hc.
Qed.

Lemma rstrip_by_app_all (p : ascii -> bool) (s t : string) :
  all_chars p t = true -> rstrip_by p (s ++ t) = rstrip_by p s.
Proof.
  intros Ht. induction s as [|c s IH]; cbn.
  - now apply rstrip_by_all.
  - now rewrite IH.
Qed.

Lemma rstrip_by_none (p : ascii -> bool) (t : string) :
  all_chars (fun c => negb (p c)) t = true -> rstrip_by p t = t.
Proof.
  induction t as [|c t IH]; cbn; [reflexivity|].
  intros H. apply andb_prop in H as [Hc Ht]. rewrite (IH Ht).
  apply negb_true_iff in Hc. rewrite Hc. now destruct t.
Qed.

Lemma rstrip_by_app_kept (p : ascii -> bool) (s t : string) :
  t <> "" -> rstrip_by p t = t -> rstrip_by p (s ++ t) = s ++ t.
Proof.
  intros Hne Ht. induction s as [|c s IH]; cbn; [exact Ht|].
  rewrite IH. destruct (s ++ t) eqn:E; [|reflexivity].
  destruct s; cbn in E; [contradiction|discriminate].
Qed.

Lemma lstrip_by_app (p : ascii -> bool) (s t : string) :
  lstrip_by p t = t -> lstrip_by p (s ++ t) = lstrip_by p s ++ t.
Proof.
  intros Ht. induction s as [|c s IH]; cbn; [exact Ht|].
  now destruct (p c).
Qed.

Lemma semicolon_not_space (c : ascii) : is_semicolon c = true -> is_space c = false.
Proof. unfold is_semicolon. intros H. apply Ascii.eqb_eq in H. now subst. Qed.

Lemma semicolons_no_space (t : string) :
  all_chars is_semicolon t = true ->
  all_chars (fun c => negb (is_space c)) t = true.
Proof.
  induction t as [|c t IH]; cbn; [reflexivity|].
  intros H. apply andb_prop in H as [Hc Ht].
  now rewrite (semicolon_not_space c Hc), IH.
Qed.

Lemma lstrip_semicolons (t : string) :
  all_chars is_semicolon t = true -> lstrip_by is_space t = t.
Proof.
  destruct t as [|c t]; cbn; [reflexivity|].
  intros H. apply andb_prop in H as [Hc _].
  now rewrite (semicolon_not_space c Hc).
Qed.

(** Semicolons, then white space, after the SQL text do not reach the
    database when the text itself does not end in white space. *)
Lemma executed_trailing (sql semis ws : string) :
  all_chars is_semicolon semis = true ->
  all_chars is_space ws = true ->
  semis = "" \/ rstrip_by is_space sql = sql ->
  executed (sql ++ semis ++ ws) = executed sql.
Proof.
  intros Hsemi Hws Hcase. unfold executed, strip, rstrip_semicolon.
  rewrite <- append_assoc, (rstrip_by_app_all _ _ _ Hws).
  destruct semis as [|c semis].
  - f_equal. f_equal. f_equal. clear. induction sql as [|c s IH]; cbn; congruence.
  - destruct Hcase as [Hcase|Hcase]; [discriminate|].
    rewrite rstrip_by_app_kept;
      [| discriminate | apply rstrip_by_none, semicolons_no_space, Hsemi].
    rewrite lstrip_by_app by (apply lstrip_semicolons, Hsemi).
    rewrite (rstrip_by_app_all _ _ _ Hsemi). now rewrite Hcase.
Qed.

(** ** Sample worlds *)

(** * Claims about [grade_submission] *)



(** A submission that runs, graded against an answer SQL that does not,
    gets the very response of a submission that does not run itself. *)
Example grade_submission_same_response :
  postgres sample_world (executed "SELECT id FROM users")
    = Ok (frame ["id"] [[SInt 1]; [SInt 2]])
  /\ postgres sample_world (executed "SELECT id FROM missing") = Raise missing_error
  /\ reference_sql sample_world "p3" "pa" = Ok (PStr "SELECT id FROM missing")
  /\ reference_sql sample_world "p2" "pa" = Ok PNone
  /\ fst (grade_submission "p3" "SELECT id FROM users" "pa" None sample_world)
     = fst (grade_submission "p2" "SELECT id FROM missing" "pa" None sample_world)
  /\ exists v,
       fst (grade_submission "p3" "SELECT id FROM users" "pa" None sample_world) = Ok v
       /\ feedback v = msg_sql_error missing_error.
Proof.
  repeat (split; [vm_compute; reflexivity|]).
  eexists. split; vm_compute; reflexivity.
Qed.






(** C7.  [grade_submission] returns a response in every world and on every
    input; [save_submission] returns without raising whatever DuckDB does;
    and what DuckDB does changes neither [is_correct] nor the feedback nor
    [diff] of the response. *)
Theorem grade_submission_never_raises
  (w : World) (problem_id sql data_type : string) (note : option string) :
  exists v w',
    grade_submission problem_id sql data_type note w = (Ok v, w')
    /\ (forall session_date c f, exists w2,
          save_submission session_date problem_id data_type sql c f w = (Ok tt, w2))
    /\ (forall d, exists v2 w2,
          grade_submission problem_id sql data_type note (set_duckdb d w) = (Ok v2, w2)
          /\ is_correct v2 = is_correct v
          /\ feedback v2 = feedback v
          /\ diff v2 = diff v).
Proof.
  destruct (grade_submission_run w problem_id sql data_type note)
    as (v & w' & evs & Hrun & _ & _ & Hg).
  exists v, w'. split; [exact Hrun|]. split.
  - intros sd c f.
    destruct (save_submission_run sd problem_id data_type sql c f w)
      as (w2 & evs2 & H & _). eauto.
  - intros d.
    destruct (grade_submission_run (set_duckdb d w) problem_id sql data_type note)
      as (v2 & w2 & evs2 & Hrun2 & _ & _ & Hg2).
    exists v2, w2. split; [exact Hrun2|].
    rewrite grading_set_duckdb in Hg2.
    destruct (grading w problem_id sql data_type) as [[c f]|e].
    + destruct Hg as [t ->], Hg2 as [t2 ->]. auto.
    + destruct Hg as [-> _], Hg2 as [-> _]. auto.
Qed.

Lemma lstrip_by_app_some (p : ascii -> bool) (s t : string) :
  all_chars p s = false -> lstrip_by p (s ++ t) = lstrip_by p s ++ t.
Proof.
  induction s as [|c s IH]; cbn; [discriminate|].
  destruct (p c); cbn; [exact IH|reflexivity].
Qed.

Lemma spaces_no_semicolon (t : string) :
  all_chars is_space t = true ->
  all_chars (fun c => negb (is_semicolon c)) t = true.
Proof.
  induction t as [|c t IH]; cbn; [reflexivity|].
  intros H. apply andb_prop in H as [Hc Ht]. rewrite (IH Ht), andb_true_r.
  destruct (is_semicolon c) eqn:E; [|reflexivity].
  now rewrite (semicolon_not_space c E) in Hc.
Qed.

(** Semicolons after white space after the SQL text: the white space
    reaches the database. *)
Lemma executed_space_semicolon (sql ws semis : string) :
  all_chars is_semicolon semis = true ->
  all_chars is_space ws = true ->
  semis <> "" -> ws <> "" -> strip sql <> "" ->
  executed (sql ++ ws ++ semis) = lstrip_by is_space sql ++ ws.
Proof.
  intros Hsemi Hws Hne_semi Hne_ws Hsql. unfold executed, strip, rstrip_semicolon.
  assert (Hsome : all_chars is_space sql = false).
  { destruct (all_chars is_space sql) eqn:E; [|reflexivity].
    unfold strip in Hsql. rewrite (rstrip_by_all _ _ E) in Hsql. now contradiction Hsql. }
  rewrite <- append_assoc.
  rewrite (rstrip_by_app_kept is_space (sql ++ ws) semis Hne_semi)
    by (apply rstrip_by_none, semicolons_no_space, Hsemi).
  rewrite (lstrip_by_app is_space (sql ++ ws) semis) by (apply lstrip_semicolons, Hsemi).
  rewrite (rstrip_by_app_all _ _ _ Hsemi).
  rewrite (lstrip_by_app_some _ _ _ Hsome).
  apply rstrip_by_app_kept; [exact Hne_ws|].
  apply rstrip_by_none, spaces_no_semicolon, Hws.
Qed.

(** C10, as amended.  For an ASCII SQL text, the text sent to the database
    is the text after [strip()] and [rstrip(";")].  White space after the
    SQL text, or -- when the text does not end in white space -- semicolons
    and then white space, leave that text, [is_correct] and the feedback as
    they are.  Semicolons after white space do not: the text sent is then
    the SQL text without its leading white space, followed by that white
    space. *)
Theorem grade_submission_trailing
  (w : World) (problem_id sql data_type : string) (note : option string)
  (semis ws : string) :
  ascii_only sql ->
  all_chars is_semicolon semis = true ->
  all_chars is_space ws = true ->
  (semis = "" \/ rstrip_by is_space sql = sql ->
   exists v1 w1 v2 w2 evs1 evs2,
     grade_submission problem_id sql data_type note w = (Ok v1, w1)
     /\ grade_submission problem_id (sql ++ semis ++ ws) data_type note w = (Ok v2, w2)
     /\ trace w1 = (trace w ++ EvFetch (executed sql) :: evs1)%list
     /\ trace w2 = (trace w ++ EvFetch (executed sql) :: evs2)%list
     /\ is_correct v2 = is_correct v1
     /\ feedback v2 = feedback v1)
  /\ (semis <> "" -> ws <> "" -> strip sql <> "" ->
      executed (sql ++ ws ++ semis) = lstrip_by is_space sql ++ ws).
Proof.
  intros _ Hsemi Hws. split; [|now apply executed_space_semicolon].
  intros Hcase.
  pose proof (executed_trailing sql semis ws Hsemi Hws Hcase) as Hexec.
  destruct (grade_submission_run w problem_id sql data_type note)
    as (v1 & w1 & evs1 & Hrun1 & Htr1 & Hf1 & Hg1).
  destruct (grade_submission_run w problem_id (sql ++ semis ++ ws) data_type note)
    as (v2 & w2 & evs2 & Hrun2 & Htr2 & Hf2 & Hg2).
  destruct (reference_sql_total w problem_id data_type) as [a Href].
  rewrite Href in Hf1, Hf2. rewrite Hexec in Hf2.
  destruct Hf1 as [evs1' ->], Hf2 as [evs2' ->].
  assert (Hsame : grading w problem_id (sql ++ semis ++ ws) data_type
                  = grading w problem_id sql data_type).
  { unfold grading. now rewrite Hexec. }
  rewrite Hsame in Hg2.
  exists v1, w1, v2, w2, evs1', evs2'.
  repeat (split; [assumption|]).
  destruct (grading w problem_id sql data_type) as [[c f]|e].
  - destruct Hg1 as [t1 ->], Hg2 as [t2 ->]. auto.
  - destruct Hg1 as [-> _], Hg2 as [-> _]. auto.
Qed.

Lemma grade_submission_trailing_witness :
  (exists v1 w1 v2 w2 evs1 evs2,
     grade_submission "p1" "SELECT id FROM users" "pa" None sample_world = (Ok v1, w1)
     /\ grade_submission "p1" ("SELECT id FROM users" ++ ";;" ++ " ") "pa" None
          sample_world = (Ok v2, w2)
     /\ trace w1 = (trace sample_world
                    ++ EvFetch (executed "SELECT id FROM users") :: evs1)%list
     /\ trace w2 = (trace sample_world
                    ++ EvFetch (executed "SELECT id FROM users") :: evs2)%list
     /\ is_correct v2 = is_correct v1
     /\ feedback v2 = feedback v1)
  /\ executed ("SELECT id FROM users" ++ " " ++ ";;") = "SELECT id FROM users ".
Proof.
  destruct (grade_submission_trailing sample_world "p1" "SELECT id FROM users" "pa"
              None ";;" " " eq_refl eq_refl eq_refl) as [Hsame Hkept].
  split.
  - apply Hsame. right. reflexivity.
  - apply Hkept; discriminate.
Defined.

(** C10, as stated, fails: a space and a semicolon after the SQL text leave
    the space in the text sent to the database, the database reports the
    text with its error, and the feedback differs. *)
Lemma grade_submission_trailing_counterexample :
  all_chars (fun c => is_space c || is_semicolon c) " ;" = true
  /\ executed ("SELEC 1" ++ " ;") <> executed "SELEC 1"
  /\ exists v1 w1 v2 w2,
       grade_submission "p1" "SELEC 1" "pa" None sample_world = (Ok v1, w1)
       /\ grade_submission "p1" ("SELEC 1" ++ " ;") "pa" None sample_world = (Ok v2, w2)
       /\ feedback v2 <> feedback v1.
Proof.
  split; [reflexivity|]. split; [vm_compute; discriminate|].
  do 4 eexists. split; [vm_compute; reflexivity|].
  split; [vm_compute; reflexivity|]. vm_compute. discriminate.
Qed.

(** * Further properties of [compare_results] *)

Lemma py_set_In (x : string) (l : list string) : In x (py_set l) <-> In x l.
Proof.
  induction l as [|y l IH]; cbn; [tauto|].
  destruct (mem_str y l) eqn:Hm.
  - apply mem_str_In in Hm. rewrite IH. split; [auto|]. intros [<-|H]; auto.
  - cbn. rewrite IH. tauto.
Qed.

Lemma py_set_NoDup (l : list string) : NoDup (py_set l).
Proof.
  induction l as [|y l IH]; cbn; [constructor|].
  destruct (mem_str y l) eqn:Hm; [exact IH|].
  constructor; [|exact IH]. rewrite py_set_In. intros Hin.
  apply mem_str_In in Hin. congruence.
Qed.

Lemma subset_spec (a b : list string) :
  subset a b = true <-> (forall x, In x a -> In x b).
Proof.
  unfold subset. rewrite forallb_forall. split; intros H x Hx.
  - apply mem_str_In. auto.
  - apply mem_str_In. auto.
Qed.

Lemma set_eqb_spec (l1 l2 : list string) :
  set_eqb (py_set l1) (py_set l2) = true <-> (forall x, In x l1 <-> In x l2).
Proof.
  unfold set_eqb. rewrite andb_true_iff, !subset_spec. split.
  - intros [H1 H2] x. specialize (H1 x). specialize (H2 x).
    rewrite !py_set_In in H1, H2. tauto.
  - intros H. split; intros x; rewrite !py_set_In; apply H.
Qed.

Lemma set_diff_In (x : string) (a b : list string) :
  In x (set_diff a b) <-> In x a /\ ~ In x b.
Proof.
  unfold set_diff. rewrite filter_In, negb_true_iff. split; intros [Ha Hb]; split; auto.
  - intros Hin. apply mem_str_In in Hin. congruence.
  - destruct (mem_str x b) eqn:Hm; [|reflexivity]. apply mem_str_In in Hm. contradiction.
Qed.

(** When one of the three checks fails the outcome is [False]. *)
Lemma compare_results_not_reached (A B : DataFrame) :
  reaches_values A B = false -> exists reason, compare_results A B = Ok (false, reason).
Proof.
  unfold reaches_values, compare_results. intros H.
  destruct (Nat.eqb (length (columns A)) (length (columns B))); cbn [negb]; [|eauto].
  destruct (Nat.eqb (len A) (len B)); cbn [negb]; [|eauto].
  cbn in H. cbv zeta. rewrite H. cbn [negb]. eauto.
Qed.

Lemma compare_results_true (A B : DataFrame) (reason : string) :
  compare_results A B = Ok (true, reason) ->
  reaches_values A B = true /\ values_agree A B.
Proof.
  intros H. destruct (reaches_values A B) eqn:Hr.
  - split; [reflexivity|]. rewrite (compare_results_reaches A B Hr) in H.
    apply compare_values_true.
    destruct (compare_values_cases A B) as [Hv|[Hv|[e Hv]]]; rewrite Hv in H;
      cbn in H; [exact Hv|discriminate|discriminate].
  - destruct (compare_results_not_reached A B Hr) as [r Hf]. congruence.
Qed.

(** X1.  An outcome [True] is given only to frames with as many columns, as
    many rows, and -- for ASCII labels -- the same column names up to
    case. *)
Theorem compare_results_equal_shape (A B : DataFrame) (reason : string) :
  Forall ascii_only (columns A) -> Forall ascii_only (columns B) ->
  compare_results A B = Ok (true, reason) ->
  length (columns A) = length (columns B)
  /\ len A = len B
  /\ (forall c, In c (map lower (columns A)) <-> In c (map lower (columns B))).
Proof.
  intros _ _ H. apply compare_results_true in H as [Hr _].
  unfold reaches_values in Hr.
  apply andb_prop in Hr as [Hr Hs]. apply andb_prop in Hr as [Hc Hl].
  apply Nat.eqb_eq in Hc, Hl. pose proof (proj1 (set_eqb_spec _ _) Hs). auto.
Qed.

Lemma compare_results_equal_shape_witness :
  length (columns scenario1_user) = length (columns scenario1_answer)
  /\ len scenario1_user = len scenario1_answer
  /\ (forall c, In c (map lower (columns scenario1_user))
                <-> In c (map lower (columns scenario1_answer))).
Proof.
  apply (compare_results_equal_shape scenario1_user scenario1_answer msg_correct).
  - repeat constructor.
  - repeat constructor.
  - vm_compute. reflexivity.
Defined.

(** X2.  For labels of printable ASCII characters without quote or
    backslash: when the column counts and the row counts agree and the
    column names differ up to case, the outcome is [False] with the
    column-name message over two lists of distinct names, in some order:
    the names listed as missing are those of the answer that the submission
    lacks, the names listed as extra those of the submission that the
    answer lacks, up to case, and one of the two lists is not empty. *)
Theorem compare_results_column_names (A B : DataFrame) :
  Forall plain_label (columns A) -> Forall plain_label (columns B) ->
  length (columns A) = length (columns B) ->
  len A = len B ->
  ~ (forall c, In c (map lower (columns A)) <-> In c (map lower (columns B))) ->
  exists missing extra,
    compare_results A B = Ok (false, msg_column_names missing extra)
    /\ NoDup missing /\ NoDup extra
    /\ (forall c, In c missing <->
                  In c (map lower (columns B)) /\ ~ In c (map lower (columns A)))
    /\ (forall c, In c extra <->
                  In c (map lower (columns A)) /\ ~ In c (map lower (columns B)))
    /\ (missing <> [] \/ extra <> []).
Proof.
  intros _ _ Hc Hl Hs.
  assert (Hset : set_eqb (py_set (map lower (columns A)))
                         (py_set (map lower (columns B))) = false).
  { destruct (set_eqb _ _) eqn:E; [|reflexivity].
    pose proof (proj1 (set_eqb_spec _ _) E). contradiction. }
  assert (Hm : forall c, In c (missing_columns A B) <->
                In c (map lower (columns B)) /\ ~ In c (map lower (columns A))).
  { intros c. unfold missing_columns. now rewrite set_diff_In, !py_set_In. }
  assert (He : forall c, In c (extra_columns A B) <->
                In c (map lower (columns A)) /\ ~ In c (map lower (columns B))).
  { intros c. unfold extra_columns. now rewrite set_diff_In, !py_set_In. }
  exists (missing_columns A B), (extra_columns A B).
  split; [|split; [|split; [|split; [exact Hm|split; [exact He|]]]]].
  - unfold compare_results. apply Nat.eqb_eq in Hc, Hl. rewrite Hc, Hl. cbn [negb].
    cbv zeta. rewrite Hset. reflexivity.
  - apply NoDup_filter, py_set_NoDup.
  - apply NoDup_filter, py_set_NoDup.
  - destruct (missing_columns A B) as [|m ms] eqn:Em; [|left; discriminate].
    destruct (extra_columns A B) as [|x xs] eqn:Ex; [|right; discriminate].
    exfalso. unfold set_eqb in Hset. apply andb_false_iff in Hset as [Hsub|Hsub].
    + assert (Hall : subset (py_set (map lower (columns A)))
                            (py_set (map lower (columns B))) = true).
      { apply subset_spec. intros c Hin. rewrite py_set_In in *.
        destruct (in_dec string_dec c (map lower (columns B))) as [|Hn]; [assumption|].
        destruct (proj2 (He c) (conj Hin Hn)). }
      congruence.
    + assert (Hall : subset (py_set (map lower (columns B)))
                            (py_set (map lower (columns A))) = true).
      { apply subset_spec. intros c Hin. rewrite py_set_In in *.
        destruct (in_dec string_dec c (map lower (columns A))) as [|Hn]; [assumption|].
        destruct (proj2 (Hm c) (conj Hin Hn)). }
      congruence.
Qed.

Lemma compare_results_column_names_witness :
  let A := frame ["id"; "amt"] [] in
  let B := frame ["id"; "amount"] [] in
  exists missing extra,
    compare_results A B = Ok (false, msg_column_names missing extra)
    /\ NoDup missing /\ NoDup extra
    /\ (forall c, In c missing <->
                  In c (map lower (columns B)) /\ ~ In c (map lower (columns A)))
    /\ (forall c, In c extra <->
                  In c (map lower (columns A)) /\ ~ In c (map lower (columns B)))
    /\ (missing <> [] \/ extra <> []).
Proof.
  intros A B. apply (compare_results_column_names A B).
  - repeat constructor.
  - repeat constructor.
  - reflexivity.
  - reflexivity.
  - intros H. destruct (proj1 (H "amt")) as [E|[E|[]]]; [now right; left| |]; discriminate.
Defined.

(** ** [compare_values] through the normal forms *)

Lemma sorted_in_iff (y : string) (l : list string) : In y (sorted l) <-> In y l.
Proof.
  split; [apply sorted_in|].
  induction l as [|x l IH]; cbn; [trivial|].
  assert (Hins : forall z m, In y (insert_str z m) <-> y = z \/ In y m).
  { intros z m. induction m as [|u m IHm]; cbn; [intuition|].
    destruct (String.leb z u); cbn; [intuition|]. rewrite IHm. intuition. }
  intros [<-|H]; apply Hins; auto.
Qed.

(** The frame [normalize] builds, written out. *)
Lemma normalize_unfold (df : DataFrame) :
  normalize df =
    (ps <- rmapM (key_position (columns df)) (columns df) ;;
     _ <- match ps with
          | [i] => check_orderable (column_at df i)
          | _ => (_ <- rmapM (fun i => check_categorical (column_at df i)) ps ;; Ok tt)
          end ;;
     getitem
       (mkDataFrame (map lower (columns df))
          (combine (seq 0 (len df)) (map snd (sort_rows ps (rows df)))))
       (sorted (map lower (columns df))))%result.
Proof.
  unfold normalize, sort_values.
  destruct (rmapM (key_position (columns df)) (columns df)) as [ps|e]; cbn [rbind];
    [|reflexivity].
  destruct (match ps with
            | [i] => check_orderable (column_at df i)
            | _ => _
            end) as [u|e]; cbn [rbind]; [|reflexivity].
  unfold set_columns, reset_index, len, cells. cbn [columns rows].
  now rewrite length_map, Nat.eqb_refl, length_sort_rows.
Qed.

Lemma set_columns_getitem_ok (s : DataFrame) :
  exists s' g,
    set_columns s (map lower (columns s)) = Ok s'
    /\ getitem s' (sorted (columns s')) = Ok g.
Proof.
  unfold set_columns. rewrite length_map, Nat.eqb_refl.
  destruct (getitem_ok (mkDataFrame (map lower (columns s)) (rows s))
              (sorted (columns (mkDataFrame (map lower (columns s)) (rows s)))))
    as [g Hg].
  { intros l Hl. now apply sorted_in. }
  eauto.
Qed.

(** [compare_values] normalises the submission, then the answer, and tests
    the two normal forms. *)
Lemma compare_values_normalize (A B : DataFrame) :
  compare_values A B =
    (a <- normalize A ;; b <- normalize B ;;
     if equals a b then Ok (true, msg_correct) else Ok (false, msg_values_differ))%result.
Proof.
  unfold compare_values, normalize.
  destruct (sort_values (columns A) A) as [a|e]; cbn [rbind]; [|reflexivity].
  destruct (set_columns_getitem_ok (reset_index a)) as (a' & ga & Ha & Hga).
  destruct (sort_values (columns B) B) as [b|e]; cbn [rbind].
  - destruct (set_columns_getitem_ok (reset_index b)) as (b' & gb & Hb & Hgb).
    rewrite Ha, Hb. cbn [rbind]. rewrite Hga, Hgb. reflexivity.
  - rewrite Ha. cbn [rbind]. rewrite Hga. reflexivity.
Qed.

(** The outcome depends on a frame through its column count, its row count,
    its lower-cased labels and its normal form. *)
Lemma compare_results_ext (A A' B B' : DataFrame) :
  map lower (columns A') = map lower (columns A) ->
  map lower (columns B') = map lower (columns B) ->
  len A' = len A -> len B' = len B ->
  normalize A' = normalize A -> normalize B' = normalize B ->
  compare_results A' B' = compare_results A B.
Proof.
  intros HcA HcB HlA HlB HnA HnB.
  assert (HnA' : length (columns A') = length (columns A)).
  { rewrite <- (length_map lower (columns A')), HcA. apply length_map. }
  assert (HnB' : length (columns B') = length (columns B)).
  { rewrite <- (length_map lower (columns B')), HcB. apply length_map. }
  unfold compare_results.
  rewrite !compare_values_normalize, HcA, HcB, HlA, HlB, HnA, HnB, HnA', HnB'.
  reflexivity.
Qed.

Lemma insert_row_cells (ps : list nat) (x x' : row) (l l' : list row) :
  snd x = snd x' -> map snd l = map snd l' ->
  map snd (insert_row ps x l) = map snd (insert_row ps x' l').
Proof.
  intros Hx. revert l'. induction l as [|y l IH]; intros [|y' l'] Hl; cbn in *;
    try discriminate.
  - now rewrite Hx.
  - injection Hl as Hy Hl. unfold sort_key, cell_at. rewrite Hx, Hy.
    destruct (key_leb _ _); cbn; rewrite ?Hx, ?Hy, ?Hl; [reflexivity|].
    f_equal. now apply IH.
Qed.

Lemma sort_rows_cells (ps : list nat) (l l' : list row) :
  map snd l = map snd l' -> map snd (sort_rows ps l) = map snd (sort_rows ps l').
Proof.
  revert l'. induction l as [|x l IH]; intros [|x' l'] H; cbn in *; try discriminate.
  - reflexivity.
  - injection H as Hx Hl. apply insert_row_cells; auto.
Qed.

Lemma rmapM_ext_in {A B : Type} (f g : A -> result B) (l : list A) :
  (forall x, In x l -> f x = g x) -> rmapM f l = rmapM g l.
Proof.
  induction l as [|x l IH]; cbn; intros H; [reflexivity|].
  rewrite (H x (or_introl eq_refl)), IH; auto.
Qed.

(** The normal form depends on the labels and the cells only. *)
Lemma normalize_cells (A A' : DataFrame) :
  columns A' = columns A -> cells A' = cells A -> normalize A' = normalize A.
Proof.
  intros Hc Hcells. rewrite !normalize_unfold, Hc.
  assert (Hlen : len A' = len A).
  { apply (f_equal (@length _)) in Hcells. unfold cells in Hcells.
    now rewrite !length_map in Hcells. }
  assert (Hcol : forall i, column_at A' i = column_at A i)
    by (intros i; now rewrite !column_at_cells, Hcells).
  rewrite Hlen.
  destruct (rmapM (key_position (columns A)) (columns A)) as [ps|e]; cbn [rbind];
    [|reflexivity].
  rewrite (rmapM_ext_in (fun i => check_categorical (column_at A' i))
             (fun i => check_categorical (column_at A i)) ps)
    by (intros i _; now rewrite Hcol).
  rewrite (sort_rows_cells ps (rows A') (rows A) Hcells).
  destruct ps as [|i [|j ps]]; try reflexivity. now rewrite Hcol.
Qed.

Lemma cells_reindex (idx : list nat) (df : DataFrame) :
  length idx = len df -> cells (reindex idx df) = cells df.
Proof.
  unfold reindex, cells, len. cbn [rows]. intros H.
  assert (H' : length idx = length (map snd (rows df))) by now rewrite length_map.
  clear H. generalize dependent (map snd (rows df)). clear df.
  induction idx as [|i idx IH]; intros [|c cs] H; cbn in *; try discriminate; trivial.
  f_equal. apply IH. lia.
Qed.

(** X3.  The index labels of the two frames have no part in the outcome:
    [reset_index(drop=True)] discards them after the sort. *)
Theorem compare_results_index (A B : DataFrame) (ia ib : list nat) :
  length ia = len A -> length ib = len B ->
  compare_results (reindex ia A) (reindex ib B) = compare_results A B.
Proof.
  intros Ha Hb.
  pose proof (cells_reindex ia A Ha) as HcA.
  pose proof (cells_reindex ib B Hb) as HcB.
  assert (Hlen : forall idx df, cells (reindex idx df) = cells df ->
                                len (reindex idx df) = len df).
  { intros idx df H. apply (f_equal (@length _)) in H. unfold cells in H.
    now rewrite !length_map in H. }
  apply compare_results_ext; try reflexivity; auto using normalize_cells.
Qed.

Lemma compare_results_index_witness :
  compare_results (reindex [7; 3] scenario1_user) (reindex [4; 4] scenario1_answer)
  = compare_results scenario1_user scenario1_answer.
Proof. apply compare_results_index; reflexivity. Defined.

Lemma normalize_relabel (cols : list string) (A : DataFrame) :
  NoDup (columns A) -> NoDup cols ->
  map lower cols = map lower (columns A) ->
  normalize (relabel cols A) = normalize A.
Proof.
  intros HA Hc Hl. rewrite !normalize_unfold. unfold relabel. cbn [columns rows].
  rewrite (key_positions_nodup _ HA), (key_positions_nodup _ Hc), Hl.
  replace (length cols) with (length (columns A)); [reflexivity|].
  rewrite <- (length_map lower (columns A)), <- Hl. apply length_map.
Qed.

(** X4.  With distinct ASCII labels in each frame, the case in which the
    letters of the labels are written has no part in the outcome. *)
Theorem compare_results_label_case (A B : DataFrame) (cols_a cols_b : list string) :
  Forall ascii_only (columns A) -> Forall ascii_only cols_a ->
  Forall ascii_only (columns B) -> Forall ascii_only cols_b ->
  NoDup (columns A) -> NoDup cols_a -> map lower cols_a = map lower (columns A) ->
  NoDup (columns B) -> NoDup cols_b -> map lower cols_b = map lower (columns B) ->
  compare_results (relabel cols_a A) (relabel cols_b B) = compare_results A B.
Proof.
  intros _ _ _ _ HA Hca Hla HB Hcb Hlb.
  apply compare_results_ext; try reflexivity; try assumption;
    now apply normalize_relabel.
Qed.

Lemma compare_results_label_case_witness :
  compare_results (relabel ["Id"; "Name"] scenario1_user)
                  (relabel ["id"; "NaMe"] scenario1_answer)
  = compare_results scenario1_user scenario1_answer.
Proof.
  apply compare_results_label_case;
    try reflexivity; repeat constructor; cbn; intuition discriminate.
Defined.

(** Permuting the rows leaves the sort raising, or gives a normal form that
    [equals] does not tell from the first. *)
Lemma normalize_perm (A A' : DataFrame) :
  well_formed A -> columns A' = columns A -> Permutation (cells A) (cells A') ->
  (exists a a', normalize A = Ok a /\ normalize A' = Ok a' /\ frame_equiv a a')
  \/ (exists e e', normalize A = Raise e /\ normalize A' = Raise e').
Proof.
  intros Hwf Hc Hp.
  pose proof (sortable_perm A A' Hc Hp) as Hs.
  rewrite <- !sort_values_sortable in Hs.
  destruct (sort_values (columns A) A) as [sa|e] eqn:Ha;
    destruct (sort_values (columns A') A') as [sa'|e'] eqn:Ha'; try discriminate.
  - left. apply (normalize_equiv A A' sa sa'); auto. now rewrite Hc.
  - right. exists e, e'. unfold normalize. now rewrite Ha, Ha'.
Qed.

Lemma equal_flag_compare_values (A A' B B' : DataFrame) :
  ((exists a a', normalize A = Ok a /\ normalize A' = Ok a' /\ frame_equiv a a')
   \/ exists e e', normalize A = Raise e /\ normalize A' = Raise e') ->
  ((exists b b', normalize B = Ok b /\ normalize B' = Ok b' /\ frame_equiv b b')
   \/ exists e e', normalize B = Raise e /\ normalize B' = Raise e') ->
  equal_flag (try_except (compare_values A' B') (fun e => Ok (false, msg_compare_error e)))
  = equal_flag (try_except (compare_values A B) (fun e => Ok (false, msg_compare_error e))).
Proof.
  intros HA HB. rewrite !compare_values_normalize.
  destruct HA as [(a & a' & -> & -> & Ha)|(e1 & e1' & -> & ->)];
    cbn [rbind try_except equal_flag]; [|reflexivity].
  destruct HB as [(b & b' & -> & -> & Hb)|(e2 & e2' & -> & ->)];
    cbn [rbind try_except equal_flag]; [|reflexivity].
  rewrite (equals_equiv a a' b b' Ha Hb). now destruct (equals a' b').
Qed.

(** X5.  The order of the rows of either frame has no part in the [equal]
    flag. *)
Theorem compare_results_row_order (A A' B B' : DataFrame) :
  well_formed A -> well_formed B ->
  columns A' = columns A -> columns B' = columns B ->
  Permutation (cells A) (cells A') -> Permutation (cells B) (cells B') ->
  equal_flag (compare_results A' B') = equal_flag (compare_results A B).
Proof.
  intros HwA HwB HcA HcB HpA HpB.
  assert (HlA : len A' = len A).
  { apply Permutation_length in HpA. unfold cells in HpA.
    now rewrite !length_map in HpA. }
  assert (HlB : len B' = len B).
  { apply Permutation_length in HpB. unfold cells in HpB.
    now rewrite !length_map in HpB. }
  unfold compare_results. rewrite HcA, HcB, HlA, HlB.
  destruct (negb (Nat.eqb (length (columns A)) (length (columns B)))); [reflexivity|].
  destruct (negb (Nat.eqb (len A) (len B))); [reflexivity|].
  cbv zeta. destruct (negb (set_eqb _ _)); [reflexivity|].
  apply equal_flag_compare_values; now apply normalize_perm.
Qed.

Lemma compare_results_row_order_witness :
  equal_flag (compare_results scenario1_answer scenario1_user)
  = equal_flag (compare_results (relabel ["ID"; "NAME"] scenario1_user) scenario1_user).
Proof.
  apply (compare_results_row_order (relabel ["ID"; "NAME"] scenario1_user)
           scenario1_answer scenario1_user scenario1_user).
  - repeat constructor.
  - repeat constructor.
  - reflexivity.
  - reflexivity.
  - apply perm_swap.
  - apply Permutation_refl.
Defined.

(** ** What an outcome [True] says of the rows *)

Lemma rmapM_In {A B : Type} (f : A -> result B) (l : list A) (ys : list B) (x : A) :
  rmapM f l = Ok ys -> In x l -> exists y, f x = Ok y /\ In y ys.
Proof.
  revert ys. induction l as [|z l IH]; cbn; intros ys H Hx; [contradiction|].
  destruct (f z) as [y|e] eqn:Hz; cbn in H; [|discriminate].
  destruct (rmapM f l) as [ys'|e]; cbn in H; [|discriminate].
  injection H as <-. destruct Hx as [<-|Hx].
  - exists y. split; [exact Hz|now left].
  - destruct (IH ys' eq_refl Hx) as (y' & Hy & Hin). exists y'. split; [exact Hy|now right].
Qed.

(** The columns [getitem] selects for the sorted labels depend on the labels
    of the frame only, and every column of the frame is among them. *)
Lemma getitem_rows (df g : DataFrame) :
  getitem df (sorted (columns df)) = Ok g ->
  exists pss,
    rmapM (fun l => match positions l (columns df) with
                    | [] => Raise (mkExn KeyError (repr_str l))
                    | ps => Ok ps
                    end) (sorted (columns df)) = Ok pss
    /\ length (columns g) = length (concat pss)
    /\ rows g = map (fun r : row => (fst r, map (cell_at r) (concat pss))) (rows df)
    /\ forall j, j < length (columns df) -> In j (concat pss).
Proof.
  unfold getitem.
  destruct (rmapM _ (sorted (columns df))) as [pss|e] eqn:Hp; cbn [rbind]; [|discriminate].
  intros H. injection H as <-. exists pss. split; [reflexivity|].
  split; [cbn; apply length_map|]. split; [reflexivity|].
  intros j Hj. destruct (nth_error (columns df) j) as [l|] eqn:Hl;
    [|apply nth_error_None in Hl; lia].
  destruct (rmapM_In _ _ _ l Hp) as (qs & Hqs & Hin).
  { apply sorted_in_iff. eapply nth_error_In; eauto. }
  apply in_concat. exists qs. split; [exact Hin|].
  assert (Hjin : In j (positions l (columns df)))
    by (apply positions_from_spec; exists j; auto).
  destruct (positions l (columns df)); [discriminate|]. now injection Hqs as <-.
Qed.

(** Two cells that are equal to [equals] are the same, or a boolean and an
    integer. *)
Lemma scalar_eqb_kinds (x y : scalar) :
  scalar_eqb x y = true ->
  x = y
  \/ (kind_of x = Some KBool /\ kind_of y = Some KInt)
  \/ (kind_of x = Some KInt /\ kind_of y = Some KBool).
Proof.
  destruct x as [|a|a|a|a], y as [|b|b|b|b]; cbn; try discriminate; auto; intros H.
  - left. apply Z.eqb_eq in H. destruct a, b; cbn in H; congruence.
  - left. apply Z.eqb_eq in H. congruence.
  - left. apply String.eqb_eq in H. congruence.
  - left. apply Z.eqb_eq in H. congruence.
Qed.

Lemma one_kind_has (col : list scalar) (x : scalar) (k : kind) :
  one_kind col = true -> In x col -> kind_of x = Some k ->
  forall k', has_kind k' col = kind_eqb k' k.
Proof.
  intros H1 Hx Hk k'. rewrite one_kind_spec in H1.
  assert (Hin : In k (kinds_of col)) by (apply kinds_of_spec; eauto).
  unfold has_kind. apply bool_ext. rewrite existsb_exists. split.
  - intros (k2 & Hk2 & E). now rewrite (H1 k k2 Hin Hk2).
  - intros E. eauto.
Qed.

(** In two columns of one kind each and of the same dtype, cells that are
    equal to [equals] are the same. *)
Lemma typed_cells_eq (ca cb : list scalar) (x y : scalar) :
  one_kind ca = true -> one_kind cb = true ->
  dtype_of ca = dtype_of cb ->
  In x ca -> In y cb -> scalar_eqb x y = true -> x = y.
Proof.
  intros Ha Hb Hd Hx Hy E.
  destruct (scalar_eqb_kinds x y E) as [H|[[Hkx Hky]|[Hkx Hky]]]; [exact H| |];
    exfalso; unfold dtype_of in Hd;
    rewrite !(one_kind_has ca x _ Ha Hx Hkx), !(one_kind_has cb y _ Hb Hy Hky) in Hd;
    cbn in Hd; destruct (has_null ca), (has_null cb); discriminate.
Qed.

Lemma list_eqb_map_in {A : Type} (f g : A -> scalar) (l : list A) (q : A) :
  list_eqb scalar_eqb (map f l) (map g l) = true -> In q l ->
  scalar_eqb (f q) (g q) = true.
Proof.
  induction l as [|a l IH]; cbn; [contradiction|].
  intros H. apply andb_prop in H as [Ha Hl]. intros [<-|Hq]; auto.
Qed.

Lemma selected_rows_eq (qs : list nat) (n : nat) (la lb : list row) :
  (forall j, j < n -> In j qs) ->
  Forall (fun r : row => length (snd r) = n) la ->
  Forall (fun r : row => length (snd r) = n) lb ->
  (forall j x y, j < n ->
     In x (map (fun r => cell_at r j) la) -> In y (map (fun r => cell_at r j) lb) ->
     scalar_eqb x y = true -> x = y) ->
  list_eqb row_eqb (map (fun r : row => (fst r, map (cell_at r) qs)) la)
                   (map (fun r : row => (fst r, map (cell_at r) qs)) lb) = true ->
  map snd la = map snd lb.
Proof.
  intros Hqs Ha. revert lb. induction Ha as [|r la Hr Ha IH]; intros lb Hb Hcol E.
  - destruct lb; [reflexivity|discriminate].
  - destruct Hb as [|s lb Hs Hb]; [discriminate|]. cbn in E.
    apply andb_prop in E as [Ers El]. unfold row_eqb in Ers. cbn in Ers.
    apply andb_prop in Ers as [_ Ec]. cbn. f_equal.
    + apply nth_ext with (d := SNull) (d' := SNull); [congruence|].
      intros j Hj. rewrite Hr in Hj.
      apply (Hcol j); [exact Hj|now left|now left|].
      apply (list_eqb_map_in (cell_at r) (cell_at s) qs j Ec). auto.
    + apply IH; [exact Hb| |exact El].
      intros j x y Hj Hx Hy. apply (Hcol j x y Hj); now right.
Qed.

Lemma nth_map_in {A B : Type} (f : A -> B) (l : list A) (k : nat) (d : B) (d' : A) :
  k < length l -> nth k (map f l) d = f (nth k l d').
Proof.
  revert k. induction l as [|a l IH]; intros [|k] H; cbn in *; try lia; auto.
  apply IH. lia.
Qed.

Lemma typed_column (df : DataFrame) (j : nat) :
  typed df = true -> j < length (columns df) -> one_kind (column_at df j) = true.
Proof.
  unfold typed. rewrite forallb_forall. intros H Hj. apply H, in_seq. lia.
Qed.

(** X6.  An outcome [True] is given only when the two frames hold the same
    rows: for well-formed frames with ASCII labels that are, lower-cased,
    the same sequence, and whose columns each hold values of one kind
    (nulls apart), the cell tuples of the one are a permutation of those of
    the other. *)
Theorem compare_results_equal_rows (A B : DataFrame) (reason : string) :
  well_formed A -> well_formed B ->
  Forall ascii_only (columns A) -> Forall ascii_only (columns B) ->
  map lower (columns A) = map lower (columns B) ->
  typed A = true -> typed B = true ->
  compare_results A B = Ok (true, reason) ->
  Permutation (cells A) (cells B).
Proof.
  intros HwA HwB _ _ Hcols HtA HtB H.
  apply compare_results_true in H as [Hr (a & b & Ha & Hb & Heq)].
  assert (Hn : length (columns A) = length (columns B)).
  { rewrite <- (length_map lower (columns A)), Hcols. apply length_map. }
  assert (Hlen : len A = len B).
  { unfold reaches_values in Hr. apply andb_prop in Hr as [Hr _].
    apply andb_prop in Hr as [_ Hr]. now apply Nat.eqb_eq in Hr. }
  destruct (sort_values (columns A) A) as [sa|e] eqn:HsA;
    [|unfold normalize in Ha; rewrite HsA in Ha; discriminate].
  destruct (sort_values (columns B) B) as [sb|e] eqn:HsB;
    [|unfold normalize in Hb; rewrite HsB in Hb; discriminate].
  rewrite (normalize_sorted A sa HsA) in Ha.
  rewrite (normalize_sorted B sb HsB) in Hb.
  rewrite <- Hcols, <- Hlen, <- Hn in Hb.
  set (ca := map snd (sort_rows (seq 0 (length (columns A))) (rows A))) in *.
  set (cb := map snd (sort_rows (seq 0 (length (columns A))) (rows B))) in *.
  assert (Hperm_a : Permutation ca (cells A))
    by (apply Permutation_map, sort_rows_perm).
  assert (Hperm_b : Permutation cb (cells B))
    by (apply Permutation_map, sort_rows_perm).
  assert (Hla : length (seq 0 (len A)) = length ca)
    by (unfold ca, len; now rewrite length_seq, length_map, length_sort_rows).
  assert (Hlb : length (seq 0 (len A)) = length cb)
    by (rewrite Hlen; unfold cb, len; now rewrite length_seq, length_map, length_sort_rows).
  apply (getitem_rows (mkDataFrame _ _)) in Ha as (qa & Hpa & Hka & Hra & Hqa).
  apply (getitem_rows (mkDataFrame _ _)) in Hb as (qb & Hpb & Hkb & Hrb & _).
  cbn [columns rows] in *. rewrite Hpa in Hpb. injection Hpb as <-.
  rewrite length_map in Hqa.
  unfold equals in Heq. apply andb_prop in Heq as [Heq Hdt].
  apply andb_prop in Heq as [_ Hrows]. rewrite Hra, Hrb in Hrows.
  rewrite forallb_forall in Hdt.
  assert (Hcol_a : forall j, map (fun r : row => cell_at r j) (combine (seq 0 (len A)) ca)
                             = map (fun c => nth j c SNull) ca).
  { intros j. rewrite <- (map_snd_combine (seq 0 (len A)) ca Hla) at 2.
    now rewrite map_map. }
  assert (Hcol_b : forall j, map (fun r : row => cell_at r j) (combine (seq 0 (len A)) cb)
                             = map (fun c => nth j c SNull) cb).
  { intros j. rewrite <- (map_snd_combine (seq 0 (len A)) cb Hlb) at 2.
    now rewrite map_map. }
  assert (Hsame : ca = cb).
  { rewrite <- (map_snd_combine (seq 0 (len A)) ca Hla).
    rewrite <- (map_snd_combine (seq 0 (len A)) cb Hlb).
    apply (selected_rows_eq (concat qa) (length (columns A))); auto.
    - apply Forall_forall. intros [i c] Hin. apply in_combine_r in Hin. cbn.
      apply well_formed_cells in HwA. rewrite Forall_forall in HwA. apply HwA.
      eapply Permutation_in; [exact Hperm_a|exact Hin].
    - apply Forall_forall. intros [i c] Hin. apply in_combine_r in Hin. cbn.
      apply well_formed_cells in HwB. rewrite Forall_forall in HwB. rewrite Hn.
      apply HwB. eapply Permutation_in; [exact Hperm_b|exact Hin].
    - intros j x y Hj Hx Hy E. rewrite Hcol_a in Hx. rewrite Hcol_b in Hy.
      apply (typed_cells_eq (map (fun c => nth j c SNull) ca)
                            (map (fun c => nth j c SNull) cb) x y); auto.
      + rewrite (one_kind_perm _ _ (Permutation_map _ Hperm_a)).
        rewrite <- column_at_cells. now apply typed_column.
      + rewrite (one_kind_perm _ _ (Permutation_map _ Hperm_b)).
        rewrite <- column_at_cells. apply typed_column; [exact HtB|lia].
      + destruct (In_nth _ _ 0 (Hqa j Hj)) as (k & Hk & Hnth).
        assert (Hkin : In k (seq 0 (length (columns a))))
          by (apply in_seq; rewrite Hka; lia).
        specialize (Hdt k Hkin). apply dtype_eqb_eq in Hdt.
        unfold column_at in Hdt. rewrite Hra, Hrb, !map_map in Hdt.
        unfold cell_at in Hdt at 1 3. cbn [snd] in Hdt.
        rewrite (map_ext _ (fun r : row => cell_at r j)) in Hdt
          by (intros r; rewrite (nth_map_in _ _ _ _ 0 Hk), Hnth; reflexivity).
        rewrite (map_ext (fun r : row => nth k (map (cell_at r) (concat qa)) SNull)
                   (fun r : row => cell_at r j)) in Hdt
          by (intros r; rewrite (nth_map_in _ _ _ _ 0 Hk), Hnth; reflexivity).
        now rewrite Hcol_a, Hcol_b in Hdt. }
  rewrite <- Hperm_a, Hsame. exact Hperm_b.
Qed.

Lemma compare_results_equal_rows_witness :
  Permutation (cells scenario1_user) (cells scenario1_answer).
Proof.
  apply (compare_results_equal_rows scenario1_user scenario1_answer msg_correct).
  - repeat constructor.
  - repeat constructor.
  - repeat constructor.
  - repeat constructor.
  - reflexivity.
  - reflexivity.
  - reflexivity.
  - vm_compute. reflexivity.
Defined.

(** * Further properties of [grade_submission] *)

(** The response of a grading call, the calls it makes, the row it stores
    and the readings it takes of the clock. *)
Lemma grade_submission_effects (w : World) (problem_id sql data_type : string)
  (note : option string) :
  exists v w',
    grade_submission problem_id sql data_type note w = (Ok v, w')
    /\ trace w' = (trace w ++ grading_calls w problem_id sql data_type
                           ++ persist_calls w data_type)%list
    /\ submissions w' =
       (submissions w ++
        match duckdb w with
        | DuckOk =>
            [((data_type ++ "_submissions")%string,
              mkSubmissionRecord (today w) problem_id sql (is_correct v) (feedback v)
                                 (clock w (S (clock_reads w))))]
        | _ => []
        end)%list
    /\ execution_time_ms v =
       (if is_ok (grading w problem_id sql data_type)
        then (clock w (readings_before_end w + clock_reads w) - clock w (clock_reads w)) * 1000
        else 0)%Z
    /\ match grading w problem_id sql data_type with
       | Ok (c, f) => is_correct v = c /\ feedback v = f /\ diff v = None
       | Raise e => is_correct v = false /\ feedback v = msg_sql_error e
                    /\ diff v = Some (str_exn e)
       end.
Proof.
  unfold grade_submission, grading, grading_calls, persist_calls, readings_before_end,
    reference_sql, load_problem_with_answer, save_submission, executed, try_except,
    rbind, is_ok.
  destruct w as [td ck n fs pg dk subs tr].
  repeat step_world compare_results_total.
  all: run_world; do 2 eexists; split; [reflexivity|].
  all: cbn [trace submissions is_correct feedback diff execution_time_ms Nat.add].
  all: rewrite <- ?app_assoc, ?app_nil_r.
  all: repeat (split; [reflexivity|]).
  all: try reflexivity.
  all: try (repeat split; reflexivity).
Qed.



(** X8.  Every graded attempt is handed to DuckDB once: when DuckDB works,
    the table [<data_type>_submissions] gains exactly one row, with the day,
    the problem, the SQL text as it was submitted (not stripped), and the
    [is_correct] and feedback of the response; when DuckDB fails, the stored
    rows are as before. *)
Theorem grade_submission_recorded
  (w : World) (problem_id sql data_type : string) (note : option string) :
  exists v w',
    grade_submission problem_id sql data_type note w = (Ok v, w')
    /\ (duckdb w = DuckOk ->
        exists submitted_at,
          submissions w' =
          (submissions w ++
           [((data_type ++ "_submissions")%string,
             mkSubmissionRecord (today w) problem_id sql (is_correct v) (feedback v)
                                submitted_at)])%list)
    /\ (duckdb w <> DuckOk -> submissions w' = submissions w).
Proof.
  destruct (grade_submission_effects w problem_id sql data_type note)
    as (v & w' & Hrun & _ & Hsub & _).
  exists v, w'. split; [exact Hrun|]. split.
  - intros Hd. rewrite Hd in Hsub. eauto.
  - intros Hd. destruct (duckdb w); [congruence| |]; now rewrite app_nil_r in Hsub.
Qed.

Lemma grade_submission_recorded_witness :
  exists v w',
    grade_submission "p2" "SELECT id FROM users; " "pa" None sample_world = (Ok v, w')
    /\ exists submitted_at,
         submissions w' =
         [("pa_submissions",
           mkSubmissionRecord "2025-01-01" "p2" "SELECT id FROM users; "
                              (is_correct v) (feedback v) submitted_at)].
Proof.
  destruct (grade_submission_recorded sample_world "p2" "SELECT id FROM users; " "pa" None)
    as (v & w' & Hrun & Hok & _).
  exists v, w'. split; [exact Hrun|]. apply Hok. reflexivity.
Defined.



(** X10.  The time in the response is 1000 times the difference of two
    readings of the clock, the later minus the one the call began with, or
    0; when the clock does not run backwards it is never negative. *)
Theorem grade_submission_elapsed
  (w : World) (problem_id sql data_type : string) (note : option string) :
  monotone_clock w ->
  exists v w',
    grade_submission problem_id sql data_type note w = (Ok v, w')
    /\ (0 <= execution_time_ms v)%Z
    /\ (execution_time_ms v = 0%Z
        \/ execution_time_ms v
           = ((clock w (readings_before_end w + clock_reads w) - clock w (clock_reads w))
              * 1000)%Z).
Proof.
  intros Hmono.
  destruct (grade_submission_effects w problem_id sql data_type note)
    as (v & w' & Hrun & _ & _ & Ht & _).
  exists v, w'. split; [exact Hrun|].
  revert Ht. destruct (is_ok _); intros ->; [|split; [lia|now left]].
  split; [|now right].
  specialize (Hmono (clock_reads w) (readings_before_end w + clock_reads w)). lia.
Qed.

Lemma sample_clock_monotone : monotone_clock sample_world.
Proof. intros i j H. unfold sample_world. cbn [clock]. lia. Qed.

Lemma grade_submission_elapsed_witness :
  exists v w',
    grade_submission "p1" "SELECT id FROM users" "pa" None sample_world = (Ok v, w')
    /\ (0 <= execution_time_ms v)%Z
    /\ (execution_time_ms v = 0%Z
        \/ execution_time_ms v
           = ((clock sample_world (readings_before_end sample_world
                                   + clock_reads sample_world)
               - clock sample_world (clock_reads sample_world)) * 1000)%Z).
Proof.
  apply (grade_submission_elapsed sample_world "p1" "SELECT id FROM users" "pa" None).
  exact sample_clock_monotone.
Defined.





(** * Properties of [load_problem_with_answer] *)

Lemma find_problem_spec (problem_id : string) (ps : list pyval) (p : pyval) :
  find_problem problem_id ps = Ok (Some p) <->
  exists pre post,
    ps = (pre ++ p :: post)%list
    /\ Forall (other_problem problem_id) pre
    /\ this_problem problem_id p.
Proof.
  induction ps as [|q ps IH]; cbn.
  - split; [discriminate|]. intros (pre & post & H & _). now destruct pre.
  - destruct q as [| | | | |d]; cbn;
      try (split; [discriminate|];
           intros ([|q pre] & post & H & Hpre & (d & -> & Hd)); [discriminate|];
           injection H as <- _; inversion Hpre as [|? ? (d' & Hq & _) _];
           discriminate).
    destruct (eq_str (lookup "problem_id" d) problem_id) eqn:Hid.
    + split.
      * intros H. injection H as <-. exists [], ps. repeat split; [constructor|].
        exists d. auto.
      * intros ([|q pre] & post & H & Hpre & Hp).
        -- now injection H as <- _.
        -- injection H as <- _. inversion Hpre as [|? ? (d' & Hq & Hd') _].
           injection Hq as <-. congruence.
    + rewrite IH. split.
      * intros (pre & post & -> & Hpre & Hp). exists (PDict d :: pre), post.
        repeat split; [|exact Hp]. constructor; [|exact Hpre]. exists d. auto.
      * intros ([|q pre] & post & H & Hpre & Hp).
        -- injection H as <- _. destruct Hp as (d' & Hq & Hd'). injection Hq as <-. congruence.
        -- injection H as _ ->. inversion Hpre. eauto.
Qed.

Lemma find_problem_stray (problem_id : string) (pre post : list pyval) (q : pyval) :
  Forall (other_problem problem_id) pre -> not_a_dict q ->
  exists e, find_problem problem_id (pre ++ q :: post) = Raise e.
Proof.
  intros Hpre Hq. induction Hpre as [|r pre (d & -> & Hd) _ IH]; cbn.
  - destruct q; cbn; eauto. now destruct (Hq d).
  - rewrite Hd. exact IH.
Qed.

(** X13.  [load_problem_with_answer] returns a problem exactly when today's
    file for the category exists, parses to a sequence, and holds an object
    with the requested id before which every entry is an object with another
    id; the problem returned is the first such object. *)
Theorem load_problem_found (w : World) (problem_id data_type : string) (p : pyval) :
  fst (load_problem_with_answer problem_id data_type w) = Ok (Some p) <->
  exists v ps pre post,
    files w (problems_path (today w) data_type) = Some (Ok v)
    /\ py_iter v = Ok ps
    /\ ps = (pre ++ p :: post)%list
    /\ Forall (other_problem problem_id) pre
    /\ this_problem problem_id p.
Proof.
  unfold load_problem_with_answer. destruct w as [td ck n fs pg dk subs tr]. run_world.
  destruct (fs (problems_path td data_type)) as [[v|e]|]; cbn.
  - destruct (py_iter v) as [ps|e] eqn:Hi; cbn.
    + destruct (find_problem problem_id ps) as [o|e] eqn:Hf; cbn.
      * split.
        -- intros H. injection H as ->. apply find_problem_spec in Hf.
           destruct Hf as (pre & post & H1 & H2 & H3). exists v, ps, pre, post. auto 10.
        -- intros (v' & ps' & pre & post & Hv & Hps & Hsplit & Hpre & Hp).
           injection Hv as <-. rewrite Hi in Hps. injection Hps as <-.
           assert (Hf' : find_problem problem_id ps = Ok (Some p))
             by (apply find_problem_spec; eauto).
           congruence.
      * split; [discriminate|].
        intros (v' & ps' & pre & post & Hv & Hps & Hsplit & Hpre & Hp).
        injection Hv as <-. rewrite Hi in Hps. injection Hps as <-.
        assert (Hf' : find_problem problem_id ps = Ok (Some p))
          by (apply find_problem_spec; eauto).
        congruence.
    + split; [discriminate|]. intros (v' & ps' & pre & post & Hv & Hps & _).
      injection Hv as <-. congruence.
  - split; [discriminate|]. intros (v' & ps' & pre & post & Hv & _). discriminate.
  - split; [discriminate|]. intros (v' & ps' & pre & post & Hv & _). discriminate.
Qed.

Lemma load_problem_found_witness :
  fst (load_problem_with_answer "p2" "pa" sample_world)
  = Ok (Some (PDict [("problem_id", PStr "p2")])).
Proof.
  apply (proj2 (load_problem_found sample_world "p2" "pa" (PDict [("problem_id", PStr "p2")]))).
  exists sample_problems,
    [PDict [("problem_id", PStr "p1"); ("answer_sql", PStr "SELECT id FROM users;")];
     PDict [("problem_id", PStr "p2")];
     PDict [("problem_id", PStr "p3"); ("answer_sql", PStr "SELECT id FROM missing")]],
    [PDict [("problem_id", PStr "p1"); ("answer_sql", PStr "SELECT id FROM users;")]],
    [PDict [("problem_id", PStr "p3"); ("answer_sql", PStr "SELECT id FROM missing")]].
  repeat split.
  - repeat constructor. eexists. split; reflexivity.
  - eexists. split; reflexivity.
Defined.

(** X14.  One entry that is not an object hides every problem after it: when
    the file holds such an entry and no problem with the requested id before
    it, the lookup returns nothing, whatever follows the entry. *)
Theorem load_problem_stray_entry
  (w : World) (problem_id data_type : string) (v q : pyval) (pre post : list pyval) :
  files w (problems_path (today w) data_type) = Some (Ok v) ->
  py_iter v = Ok (pre ++ q :: post)%list ->
  Forall (other_problem problem_id) pre ->
  not_a_dict q ->
  fst (load_problem_with_answer problem_id data_type w) = Ok None.
Proof.
  intros Hf Hv Hpre Hq.
  unfold load_problem_with_answer. destruct w as [td ck n fs pg dk subs tr].
  cbn [files today] in Hf. run_world. rewrite Hf. cbn. rewrite Hv. cbn.
  destruct (find_problem_stray problem_id pre post q Hpre Hq) as [e ->]. reflexivity.
Qed.

Lemma load_problem_stray_entry_witness :
  fst (load_problem_with_answer "p2" "pa" stray_world) = Ok None.
Proof.
  apply (load_problem_stray_entry stray_world "p2" "pa" stray_problems (PInt 0)
           [PDict [("problem_id", PStr "p1")]] [PDict [("problem_id", PStr "p2")]]).
  - reflexivity.
  - reflexivity.
  - repeat constructor. eexists. split; reflexivity.
  - intros d. discriminate.
Defined.

(** * Properties of [submit_practice] *)

(** X15.  The score of the practice mode: a correct submission scores 10,
    25 or 50 for the difficulty easy, medium or hard and 25 for any other
    difficulty, with success and the success message; a submission that is
    not correct never scores more than 0. *)
Theorem submit_practice_score {D : Type}
  (import_grader : result (SQLGrader D)) (request : SubmitPracticeRequest) :
  let r := fst (submit_practice import_grader request) in
  (pr_is_correct r = true ->
     pr_success r = true
     /\ pr_message r = msg_correct
     /\ exists n, pr_score r = Some n
        /\ (req_difficulty request = "easy" -> n = 10)
        /\ (req_difficulty request = "medium" -> n = 25)
        /\ (req_difficulty request = "hard" -> n = 50)
        /\ (req_difficulty request <> "easy" -> req_difficulty request <> "medium" ->
            req_difficulty request <> "hard" -> n = 25))
  /\ (pr_is_correct r = false -> pr_score r = None \/ pr_score r = Some 0).
Proof.
  unfold submit_practice.
  destruct import_grader as [grader|e]; cbn; [|split; [discriminate|auto]].
  destruct (execute_sql grader _ _) as [er|e]; cbn; [|split; [discriminate|auto]].
  destruct (exec_success er); cbn; [|split; [discriminate|auto]].
  destruct (execute_sql grader _ _) as [ur|e]; cbn; [|split; [discriminate|auto]].
  destruct (exec_success ur); cbn; [|split; [discriminate|auto]].
  destruct (grader_compare_results grader _ _) as [[|]|e]; cbn;
    [|split; [discriminate|auto]|split; [discriminate|auto]].
  split; [|discriminate]. intros _. repeat split.
  unfold DIFFICULTY_SCORES.
  destruct (String.eqb_spec (req_difficulty request) "easy") as [->|H1].
  { exists 10. repeat split; try reflexivity; intros; congruence. }
  destruct (String.eqb_spec (req_difficulty request) "medium") as [->|H2].
  { exists 25. repeat split; try reflexivity; intros; congruence. }
  destruct (String.eqb_spec (req_difficulty request) "hard") as [->|H3].
  { exists 50. repeat split; try reflexivity; intros; congruence. }
  exists 25. repeat split; try reflexivity; intros; congruence.
Qed.

Lemma submit_practice_score_witness :
  let r := fst (submit_practice (Ok sample_grader)
                  (mkSubmitPracticeRequest "practice_1" "SELECT 2" "SELECT 1" "hard" "pa")) in
  pr_success r = true /\ pr_message r = msg_correct /\ pr_score r = Some 50.
Proof.
  intros r.
  destruct (proj1 (submit_practice_score (Ok sample_grader)
                     (mkSubmitPracticeRequest "practice_1" "SELECT 2" "SELECT 1" "hard" "pa"))
              eq_refl) as (Hs & Hm & n & Hn & _ & _ & Hhard & _).
  split; [exact Hs|]. split; [exact Hm|]. unfold r. rewrite Hn, (Hhard eq_refl). reflexivity.
Defined.

(** X16.  In the practice mode the answer SQL is executed first, and its
    failure has a response of its own: success and [is_correct] false, the
    message [정답 SQL 실행 오류: ] followed by the error (or by
    [알 수 없는 오류] when the grader gives none), no score; the submitted
    SQL is then not executed at all. *)
Theorem submit_practice_answer_fails {D : Type}
  (grader : SQLGrader D) (request : SubmitPracticeRequest) (expected_result : ExecResult D) :
  execute_sql grader (req_answer_sql request) (req_data_type request) = Ok expected_result ->
  exec_success expected_result = false ->
  submit_practice (Ok grader) request
  = (mkPracticeResponse false false None
       ("정답 SQL 실행 오류: " ++ error_or_unknown expected_result),
     [req_answer_sql request]).
Proof.
  intros He Hs. unfold submit_practice. now rewrite He, Hs.
Qed.

Lemma submit_practice_answer_fails_witness :
  submit_practice (Ok sample_grader)
    (mkSubmitPracticeRequest "practice_1" "SELECT 2" "SELECT broken" "easy" "pa")
  = (mkPracticeResponse false false None ("정답 SQL 실행 오류: " ++ "no such table"),
     ["SELECT broken"]).
Proof.
  apply (submit_practice_answer_fails sample_grader
           (mkSubmitPracticeRequest "practice_1" "SELECT 2" "SELECT broken" "easy" "pa")
           (mkExecResult false [] (Some "no such table"))); reflexivity.
Defined.

(** X17.  The practice mode accepts a submission only when the answer SQL
    and the submitted SQL both ran with success and the grader found the
    result of the submission equal to the expected one; and the submitted
    SQL is executed only after the answer SQL ran with success. *)
Theorem submit_practice_accepts {D : Type}
  (import_grader : result (SQLGrader D)) (request : SubmitPracticeRequest) :
  let out := submit_practice import_grader request in
  (pr_is_correct (fst out) = true ->
     exists grader expected_result user_result,
       import_grader = Ok grader
       /\ execute_sql grader (req_answer_sql request) (req_data_type request)
          = Ok expected_result
       /\ exec_success expected_result = true
       /\ execute_sql grader (req_sql request) (req_data_type request) = Ok user_result
       /\ exec_success user_result = true
       /\ grader_compare_results grader (exec_data expected_result) (exec_data user_result)
          = Ok true)
  /\ (snd out = [req_answer_sql request; req_sql request] ->
     exists grader expected_result,
       import_grader = Ok grader
       /\ execute_sql grader (req_answer_sql request) (req_data_type request)
          = Ok expected_result
       /\ exec_success expected_result = true)
  /\ (snd out = [] \/ snd out = [req_answer_sql request]
      \/ snd out = [req_answer_sql request; req_sql request]).
Proof.
  unfold submit_practice.
  destruct import_grader as [grader|e]; cbn;
    [|split; [discriminate|split; [discriminate|auto]]].
  destruct (execute_sql grader (req_answer_sql request) _) as [er|e] eqn:He; cbn;
    [|split; [discriminate|split; [discriminate|auto]]].
  destruct (exec_success er) eqn:Hs; cbn;
    [|split; [discriminate|split; [discriminate|auto]]].
  assert (Hsecond : exists g er',
             Ok grader = Ok g
             /\ execute_sql g (req_answer_sql request) (req_data_type request) = Ok er'
             /\ exec_success er' = true) by (exists grader, er; auto).
  destruct (execute_sql grader (req_sql request) _) as [ur|e] eqn:Hu; cbn;
    [|split; [discriminate|split; [auto|auto]]].
  destruct (exec_success ur) eqn:Hf; cbn;
    [|split; [discriminate|split; [auto|auto]]].
  destruct (grader_compare_results grader _ _) as [[|]|e] eqn:Hc; cbn;
    try (split; [discriminate|split; [auto|auto]]).
  split; [|split; [auto|auto]].
  intros _. exists grader, er, ur. auto 10.
Qed.

Lemma submit_practice_accepts_witness :
  exists grader expected_result user_result,
    Ok sample_grader = Ok grader
    /\ execute_sql grader "SELECT 1" "pa" = Ok expected_result
    /\ exec_success expected_result = true
    /\ execute_sql grader "SELECT 2" "pa" = Ok user_result
    /\ exec_success user_result = true
    /\ grader_compare_results grader (exec_data expected_result) (exec_data user_result)
       = Ok true.
Proof.
  apply (proj1 (submit_practice_accepts (Ok sample_grader)
                  (mkSubmitPracticeRequest "practice_1" "SELECT 2" "SELECT 1" "hard" "pa"))).
  reflexivity.
Defined.

(** * Properties of [generate] *)

Lemma dict_find_lookup (key : string) (d : list (string * pyval)) (v : pyval) :
  dict_find key d = Some v -> lookup key d = v.
Proof.
  induction d as [|[k x] d IH]; cbn; [discriminate|].
  destruct (String.eqb k key); [congruence|exact IH].
Qed.

Lemma dict_find_keys (key : string) (d : list (string * pyval)) :
  In key (map fst d) -> exists v, dict_find key d = Some v.
Proof.
  induction d as [|[k x] d IH]; cbn; [contradiction|].
  destruct (String.eqb_spec k key) as [->|Hne]; [eauto|].
  intros [H|H]; [contradiction|auto].
Qed.

Lemma keys_dict_set (key : string) (v : pyval) (d : list (string * pyval)) :
  In key (map fst d) -> map fst (dict_set key v d) = map fst d.
Proof.
  induction d as [|[k x] d IH]; cbn; [contradiction|].
  destruct (String.eqb_spec k key) as [->|Hne]; cbn; [reflexivity|].
  intros [H|H]; [contradiction|]. now rewrite IH.
Qed.

Lemma lookup_dict_set_same (key : string) (v : pyval) (d : list (string * pyval)) :
  lookup key (dict_set key v d) = v.
Proof.
  induction d as [|[k x] d IH]; cbn.
  - now rewrite String.eqb_refl.
  - destruct (String.eqb k key) eqn:E; cbn; rewrite E; [reflexivity|exact IH].
Qed.

Lemma lookup_dict_set_other (key key' : string) (v : pyval) (d : list (string * pyval)) :
  key' <> key -> In key (map fst d) -> lookup key' (dict_set key v d) = lookup key' d.
Proof.
  intros Hne. induction d as [|[k x] d IH]; cbn; [contradiction|].
  destruct (String.eqb_spec k key) as [->|Hk]; cbn.
  - intros _. destruct (String.eqb_spec key key'); [congruence|reflexivity].
  - intros [H|H]; [contradiction|]. destruct (String.eqb k key'); [reflexivity|auto].
Qed.

Lemma required_fields_spec (d : list (string * pyval)) :
  forallb (fun k => mem_str k (map fst d)) REQUIRED_FIELDS = true <->
  (forall k, In k REQUIRED_FIELDS -> In k (map fst d)).
Proof.
  rewrite forallb_forall. split; intros H k Hk; apply mem_str_In; auto.
Qed.

Section GeneratorFacts.

Variable py_repr : pyval -> string.

Lemma eq_str_false (v : pyval) (s : string) : v <> PStr s -> eq_str v s = false.
Proof.
  destruct v; cbn; try reflexivity. intros H.
  apply String.eqb_neq. congruence.
Qed.

(** What the check of one problem comes to. *)
Lemma check_problem_run (p p' : pyval) :
  check_problem py_repr p = Ok p' ->
  exists d d',
    p = PDict d /\ p' = PDict d'
    /\ (forall k, In k REQUIRED_FIELDS -> In k (map fst d))
    /\ map fst d' = map fst d
    /\ (forall k, k <> "difficulty" -> lookup k d' = lookup k d)
    /\ (lookup "difficulty" d = PStr "advanced" -> lookup "difficulty" d' = PStr "hard")
    /\ (forall s, lookup "difficulty" d = PStr s ->
                  s = "easy" \/ s = "medium" \/ s = "hard" ->
                  lookup "difficulty" d' = PStr s)
    /\ (lookup "difficulty" d <> PStr "advanced" ->
        lookup "difficulty" d <> PStr "easy" ->
        lookup "difficulty" d <> PStr "medium" ->
        lookup "difficulty" d <> PStr "hard" ->
        lookup "difficulty" d' = PStr "medium")
    /\ (lookup "difficulty" d' = PStr "easy" \/ lookup "difficulty" d' = PStr "medium"
        \/ lookup "difficulty" d' = PStr "hard").
Proof.
  unfold check_problem. destruct p as [| | | | |d]; try discriminate.
  destruct (forallb (fun k => mem_str k (map fst d)) REQUIRED_FIELDS) eqn:Hreq;
    cbn [negb]; [|discriminate].
  pose proof (proj1 (required_fields_spec d) Hreq) as Hreq'. clear Hreq.
  rename Hreq' into Hreq.
  assert (Hdiff : In "difficulty" (map fst d)) by (apply Hreq; cbn; auto).
  set (d1 := if eq_str (lookup "difficulty" d) "advanced"
             then dict_set "difficulty" (PStr "hard") d else d).
  assert (Hk1 : map fst d1 = map fst d).
  { unfold d1. destruct (eq_str _ _); [now apply keys_dict_set|reflexivity]. }
  assert (Ho1 : forall k, k <> "difficulty" -> lookup k d1 = lookup k d).
  { intros k Hk. unfold d1. destruct (eq_str _ _); [|reflexivity].
    now apply lookup_dict_set_other. }
  assert (Hd1 : In "difficulty" (map fst d1)) by now rewrite Hk1.
  assert (Hadv : lookup "difficulty" d = PStr "advanced" ->
                 lookup "difficulty" d1 = PStr "hard").
  { intros H. unfold d1. rewrite H. cbn. apply lookup_dict_set_same. }
  assert (Hkeep : forall s, lookup "difficulty" d = PStr s ->
                            s = "easy" \/ s = "medium" \/ s = "hard" ->
                            lookup "difficulty" d1 = PStr s).
  { intros s H Hs. unfold d1. rewrite H.
    assert (E : eq_str (PStr s) "advanced" = false)
      by (destruct Hs as [-> | [-> | ->]]; reflexivity).
    rewrite E. exact H. }
  assert (Hother : lookup "difficulty" d <> PStr "advanced" ->
                   lookup "difficulty" d1 = lookup "difficulty" d).
  { intros H. unfold d1. now rewrite (eq_str_false _ _ H). }
  cbv zeta. fold d1.
  destruct (in_diff_cnt (lookup "difficulty" d1)) as [known|e] eqn:Hin; cbn [rbind];
    [|discriminate].
  destruct known; cbn [negb]; intros H; injection H as <-.
  - exists d, d1.
    assert (Hd : lookup "difficulty" d1 = PStr "easy" \/ lookup "difficulty" d1 = PStr "medium"
                 \/ lookup "difficulty" d1 = PStr "hard").
    { destruct (lookup "difficulty" d1) as [| | |s| |]; cbn in Hin; try discriminate.
      injection Hin as Hin. apply orb_prop in Hin as [Hin|Hin];
        [apply orb_prop in Hin as [Hin|Hin]|]; apply String.eqb_eq in Hin; subst; auto. }
    repeat split; auto.
    intros Ha He Hm Hh. exfalso. rewrite (Hother Ha) in Hd. tauto.
  - exists d, (dict_set "difficulty" (PStr "medium") d1).
    assert (Hnot : forall s, lookup "difficulty" d1 = PStr s ->
                             s = "easy" \/ s = "medium" \/ s = "hard" -> False).
    { intros s Hs Hc. rewrite Hs in Hin. cbn in Hin.
      destruct Hc as [-> | [-> | ->]]; discriminate. }
    repeat split; auto.
    + rewrite keys_dict_set; auto.
    + intros k Hk. rewrite lookup_dict_set_other; auto.
    + intros H. exfalso. apply (Hnot "hard"); auto.
    + intros s H Hs. exfalso. apply (Hnot s); auto.
    + intros _ _ _ _. apply lookup_dict_set_same.
    + right. left. apply lookup_dict_set_same.
Qed.

(** X18.  The check of one problem changes nothing but the difficulty: a
    problem that passes is an object with all six required fields, it keeps
    its keys in their order and the value of every key other than
    [difficulty]; [advanced] becomes [hard], [easy], [medium] and [hard]
    stay, any other difficulty becomes [medium], and so the difficulty of a
    checked problem is always one of the three. *)
Theorem check_problem_normalizes (p p' : pyval) :
  check_problem py_repr p = Ok p' ->
  exists d d',
    p = PDict d /\ p' = PDict d'
    /\ (forall k, In k REQUIRED_FIELDS -> In k (map fst d))
    /\ map fst d' = map fst d
    /\ (forall k, k <> "difficulty" -> lookup k d' = lookup k d)
    /\ (lookup "difficulty" d = PStr "advanced" -> lookup "difficulty" d' = PStr "hard")
    /\ (forall s, lookup "difficulty" d = PStr s ->
                  s = "easy" \/ s = "medium" \/ s = "hard" ->
                  lookup "difficulty" d' = PStr s)
    /\ (lookup "difficulty" d <> PStr "advanced" ->
        lookup "difficulty" d <> PStr "easy" ->
        lookup "difficulty" d <> PStr "medium" ->
        lookup "difficulty" d <> PStr "hard" ->
        lookup "difficulty" d' = PStr "medium")
    /\ (lookup "difficulty" d' = PStr "easy" \/ lookup "difficulty" d' = PStr "medium"
        \/ lookup "difficulty" d' = PStr "hard").
Proof. exact (check_problem_run p p'). Qed.

Lemma check_problem_valid (p p' : pyval) :
  check_problem py_repr p = Ok p' -> valid_problem p'.
Proof.
  intros H. apply check_problem_run in H
    as (d & d' & -> & -> & Hreq & Hkeys & _ & _ & _ & _ & Hd).
  exists d'. repeat split; [|exact Hd]. intros k Hk. rewrite Hkeys. auto.
Qed.

Lemma rmapM_Forall2 {A B : Type} (f : A -> result B) (l : list A) (ys : list B) :
  rmapM f l = Ok ys -> Forall2 (fun x y => f x = Ok y) l ys.
Proof.
  revert ys. induction l as [|x l IH]; cbn; intros ys H.
  - injection H as <-. constructor.
  - destruct (f x) as [y|e] eqn:Hx; cbn in H; [|discriminate].
    destruct (rmapM f l) as [ys'|e]; cbn in H; [|discriminate].
    injection H as <-. constructor; auto.
Qed.

Lemma statements_length (ps : list pyval) (stmts : list (list string)) :
  Forall2 (statements_of py_repr) ps stmts ->
  length (concat stmts) = 2 * length ps.
Proof.
  induction 1 as [|p st ps stmts (id & sql & _ & _ & ->) _ IH]; cbn; [reflexivity|].
  rewrite IH. lia.
Qed.

(** The loop of the tables writes no file, and when it ends well it has
    sent, for every problem in turn, the two statements of the problem. *)
Lemma create_tables_run (pg : string -> result unit) (ps : list pyval) (s : GenState) :
  exists r s',
    create_tables py_repr pg ps s = (r, s')
    /\ gen_files s' = gen_files s
    /\ (r = Ok tt ->
        exists stmts,
          Forall2 (statements_of py_repr) ps stmts
          /\ gen_executed s' = (gen_executed s ++ concat stmts)%list).
Proof.
  revert s. induction ps as [|p ps IH]; intros s; cbn.
  - exists (Ok tt), s. repeat split. intros _. exists []. split; [constructor|].
    cbn. now rewrite app_nil_r.
  - unfold gbind, glift, pg_execute.
    destruct (py_getitem p "problem_id") as [id|e] eqn:Hid;
      [|exists (Raise e), s; repeat split; discriminate].
    destruct (build_expected_sql p) as [sql|e] eqn:Hsql;
      [|exists (Raise e), s; repeat split; discriminate].
    destruct (pg _) as [[]|e];
      [|eexists _, _; split; [reflexivity|]; split; [reflexivity|discriminate]].
    destruct (pg _) as [[]|e];
      [|eexists _, _; split; [reflexivity|]; split; [reflexivity|discriminate]].
    match goal with |- context [create_tables py_repr pg ps ?s0] =>
      destruct (IH s0) as (r & s' & Hrun & Hf & Hst) end.
    exists r, s'. split; [exact Hrun|]. split; [exact Hf|].
    intros Hr. destruct (Hst Hr) as (stmts & Hall & Hex).
    eexists (_ :: stmts). split.
    + constructor; [|exact Hall]. exists id, sql. repeat split; eauto.
    + rewrite Hex. cbn [gen_executed concat]. now rewrite <- !app_assoc.
Qed.

End GeneratorFacts.

Section GenerateFacts.

Variable py_repr : pyval -> string.

(** What a run of [generate] comes to. *)
Lemma generate_run (today_ : string) (pg : string -> result unit)
  (build_prompt : result (list pyval)) (s : GenState) :
  (exists e s', generate py_repr today_ pg build_prompt s = (Raise e, s')
                /\ gen_files s' = gen_files s)
  \/ (exists problems ps s1 stmts,
        build_prompt = Ok problems
        /\ length problems = 6
        /\ rmapM (check_problem py_repr) problems = Ok ps
        /\ create_tables py_repr pg ps s = (Ok tt, s1)
        /\ gen_files s1 = gen_files s
        /\ Forall2 (statements_of py_repr) ps stmts
        /\ gen_executed s1 = (gen_executed s ++ concat stmts)%list
        /\ generate py_repr today_ pg build_prompt s
           = (Ok ("problems/daily/" ++ today_ ++ ".json"),
              mkGenState (fun p => if String.eqb p ("problems/daily/" ++ today_ ++ ".json")
                                   then Some (Ok (PList ps)) else gen_files s1 p)
                         (gen_executed s1))).
Proof.
  unfold generate, gbind, glift, write_json, gret.
  destruct build_prompt as [problems|e]; [|left; eauto].
  destruct (Nat.eqb_spec (length problems) 6) as [Hlen|Hlen]; cbn [negb]; [|left; eauto].
  destruct (rmapM (check_problem py_repr) problems) as [ps|e] eqn:Hps; [|left; eauto].
  destruct (create_tables_run py_repr pg ps s) as (r & s1 & Hrun & Hf & Hst).
  rewrite Hrun. destruct r as [[]|e]; [|left; eauto].
  destruct (Hst eq_refl) as (stmts & Hall & Hex).
  right. exists problems, ps, s1, stmts. auto 10.
Qed.

(** X19.  When [generate] returns, it returns the path
    [problems/daily/<today>.json]; the file at that path holds exactly six
    problems, each an object with the six required fields and a difficulty
    that is easy, medium or hard; no other file is touched; twelve
    statements were sent to PostgreSQL; and, the topics being ASCII text,
    they are, for each of the six problems in turn, the [DROP TABLE IF
    EXISTS] of its table and then the [CREATE TABLE ... AS] of that table
    from the SQL [build_expected_sql] gives for the problem. *)
Theorem generate_writes (today_ : string) (pg : string -> result unit)
  (build_prompt : result (list pyval)) (s s' : GenState) (path : string) :
  generate py_repr today_ pg build_prompt s = (Ok path, s') ->
  exists ps,
    path = "problems/daily/" ++ today_ ++ ".json"
    /\ gen_files s' path = Some (Ok (PList ps))
    /\ length ps = 6
    /\ Forall valid_problem ps
    /\ (forall p, p <> path -> gen_files s' p = gen_files s p)
    /\ length (gen_executed s') = length (gen_executed s) + 12
    /\ (Forall ascii_topic ps ->
        exists stmts,
          Forall2 (statements_of py_repr) ps stmts
          /\ gen_executed s' = (gen_executed s ++ concat stmts)%list).
Proof.
  intros H.
  destruct (generate_run today_ pg build_prompt s)
    as [(e & s1 & Hr & _)
       |(problems & ps & s1 & stmts & Hb & Hlen & Hps & Hc & Hf & Hall & Hex & Hr)];
    rewrite Hr in H; [discriminate|].
  injection H as <- <-. cbn [gen_files gen_executed].
  assert (Hl : length ps = 6).
  { apply rmapM_Forall2, Forall2_length in Hps. congruence. }
  exists ps. split; [reflexivity|]. rewrite String.eqb_refl.
  split; [reflexivity|]. split; [exact Hl|]. split; [|split; [|split]].
  - apply rmapM_Forall2 in Hps. clear - Hps.
    induction Hps as [|p p' l l' Hp _ IH]; constructor; [|exact IH].
    eapply check_problem_valid; eauto.
  - intros p Hp.
    match goal with |- (if String.eqb p ?x then _ else _) = _ =>
      destruct (String.eqb_spec p x) end; [contradiction|]. now rewrite Hf.
  - rewrite Hex, length_app, (statements_length py_repr ps stmts Hall), Hl. reflexivity.
  - intros _. exists stmts. auto.
Qed.

(** X20.  A run of [generate] that raises -- Gemini failing, a count other
    than six, a problem that does not pass the check, a statement PostgreSQL
    refuses -- writes no problem file: the files are as they were, so the
    day's problems are still missing for the next run. *)
Theorem generate_failure_writes_nothing (today_ : string) (pg : string -> result unit)
  (build_prompt : result (list pyval)) (s s' : GenState) (e : exn) :
  generate py_repr today_ pg build_prompt s = (Raise e, s') ->
  gen_files s' = gen_files s.
Proof.
  intros H.
  destruct (generate_run today_ pg build_prompt s)
    as [(e' & s1 & Hr & Hf)|(problems & ps & s1 & stmts & _ & _ & _ & _ & _ & _ & _ & Hr)];
    rewrite Hr in H; [|discriminate].
  now injection H as _ <-.
Qed.

Lemma find_problem_valid (problem_id : string) (ps : list pyval) :
  Forall valid_problem ps ->
  find_problem problem_id ps = Ok (find (has_problem_id problem_id) ps).
Proof.
  induction 1 as [|p ps (d & -> & _) _ IH]; cbn; [reflexivity|].
  destruct (eq_str (lookup "problem_id" d) problem_id); [reflexivity|exact IH].
Qed.

(** X21.  What [generate] writes, [load_problem_with_answer] reads: in a
    world that holds the files [generate] left, on the same day and for a
    category other than [stream], the lookup of an id returns the first of
    the six checked problems with that id, and nothing when there is none. *)
Theorem generate_then_load (today_ : string) (pg : string -> result unit)
  (build_prompt : result (list pyval)) (s s' : GenState) (path : string)
  (w : World) (problem_id data_type : string) :
  generate py_repr today_ pg build_prompt s = (Ok path, s') ->
  files w = gen_files s' ->
  today w = today_ ->
  data_type <> "stream" ->
  exists problems ps,
    build_prompt = Ok problems
    /\ rmapM (check_problem py_repr) problems = Ok ps
    /\ fst (load_problem_with_answer problem_id data_type w)
       = Ok (find (has_problem_id problem_id) ps).
Proof.
  intros H Hfiles Htoday Hdt.
  destruct (generate_run today_ pg build_prompt s)
    as [(e & s1 & Hr & _)
       |(problems & ps & s1 & stmts & Hb & Hlen & Hps & Hc & Hf & Hall & Hex & Hr)];
    rewrite Hr in H; [discriminate|].
  injection H as <- <-. exists problems, ps. split; [exact Hb|]. split; [exact Hps|].
  unfold load_problem_with_answer. destruct w as [td ck n fs pgw dk subs tr].
  cbn [files today] in Hfiles, Htoday. subst fs td. run_world.
  unfold problems_path. apply String.eqb_neq in Hdt. rewrite Hdt.
  cbn [gen_files append]. rewrite String.eqb_refl.
  cbn [fst try_except rbind py_iter].
  rewrite find_problem_valid; [reflexivity|].
  apply rmapM_Forall2 in Hps. clear - Hps.
  induction Hps as [|p p' l l' Hp _ IH]; constructor; [|exact IH].
  eapply check_problem_valid; eauto.
Qed.

End GenerateFacts.

Lemma check_problem_normalizes_witness :
  exists d d',
    gemini_problem "d" "expert" "cohort" = PDict d
    /\ gemini_problem "d" "medium" "cohort" = PDict d'
    /\ (forall k, In k REQUIRED_FIELDS -> In k (map fst d))
    /\ map fst d' = map fst d
    /\ (forall k, k <> "difficulty" -> lookup k d' = lookup k d)
    /\ (lookup "difficulty" d = PStr "advanced" -> lookup "difficulty" d' = PStr "hard")
    /\ (forall s, lookup "difficulty" d = PStr s ->
                  s = "easy" \/ s = "medium" \/ s = "hard" ->
                  lookup "difficulty" d' = PStr s)
    /\ (lookup "difficulty" d <> PStr "advanced" ->
        lookup "difficulty" d <> PStr "easy" ->
        lookup "difficulty" d <> PStr "medium" ->
        lookup "difficulty" d <> PStr "hard" ->
        lookup "difficulty" d' = PStr "medium")
    /\ (lookup "difficulty" d' = PStr "easy" \/ lookup "difficulty" d' = PStr "medium"
        \/ lookup "difficulty" d' = PStr "hard").
Proof.
  apply (check_problem_normalizes (fun _ => "")). reflexivity.
Defined.

Lemma generate_writes_witness :
  exists s' ps stmts,
    generate (fun _ => "") "2025-01-01" (fun _ => Ok tt) (Ok six_problems) empty_gen
    = (Ok "problems/daily/2025-01-01.json", s')
    /\ gen_files s' "problems/daily/2025-01-01.json" = Some (Ok (PList ps))
    /\ length ps = 6
    /\ Forall2 (statements_of (fun _ => "")) ps stmts
    /\ gen_executed s' = (gen_executed empty_gen ++ concat stmts)%list.
Proof.
  assert (Hrun : generate (fun _ => "") "2025-01-01" (fun _ => Ok tt) (Ok six_problems)
                   empty_gen
                 = (Ok "problems/daily/2025-01-01.json",
                    snd (generate (fun _ => "") "2025-01-01" (fun _ => Ok tt)
                           (Ok six_problems) empty_gen)))
    by (vm_compute; reflexivity).
  destruct (generate_writes (fun _ => "") "2025-01-01" (fun _ => Ok tt) (Ok six_problems)
              empty_gen _ _ Hrun) as (ps & _ & Hfile & Hlen & _ & _ & _ & Hst).
  assert (Hascii : Forall ascii_topic ps).
  { vm_compute in Hfile. injection Hfile as <-. repeat constructor. }
  destruct (Hst Hascii) as (stmts & Hall & Hex).
  eexists _, ps, stmts. split; [exact Hrun|]. auto.
Defined.

Lemma generate_failure_writes_nothing_witness :
  exists s', gen_files s' = gen_files empty_gen /\ gen_executed s' <> [].
Proof.
  eexists. split.
  - apply (generate_failure_writes_nothing (fun _ => "") "2025-01-01"
             (fun sql => if String.prefix "CREATE" sql
                         then Raise (mkExn DatabaseError "disk full") else Ok tt)
             (Ok six_problems) empty_gen _ (mkExn DatabaseError "disk full")).
    vm_compute. reflexivity.
  - discriminate.
Defined.

Lemma generate_then_load_witness :
  exists problems ps,
    Ok six_problems = Ok problems
    /\ rmapM (check_problem (fun _ => "")) problems = Ok ps
    /\ fst (load_problem_with_answer "b" "pa"
              (mkWorld "2025-01-01" (fun _ => 0%Z) 0
                 (gen_files (snd (generate (fun _ => "") "2025-01-01" (fun _ => Ok tt)
                                    (Ok six_problems) empty_gen)))
                 sample_postgres DuckOk [] []))
       = Ok (find (has_problem_id "b") ps).
Proof.
  eapply (generate_then_load (fun _ => "") "2025-01-01" (fun _ => Ok tt) (Ok six_problems)
            empty_gen).
  - vm_compute. reflexivity.
  - reflexivity.
  - reflexivity.
  - discriminate.
Defined.

(** * Properties of the dashboard *)

Lemma upper_app (a b : string) : upper (a ++ b) = upper a ++ upper b.
Proof. induction a as [|c a IH]; cbn; [reflexivity|]. now rewrite IH. Qed.

Lemma length_upper (s : string) : String.length (upper s) = String.length s.
Proof. induction s as [|c s IH]; cbn; [reflexivity|]. now rewrite IH. Qed.

Lemma is_space_upper (c : ascii) : is_space (upper_char c) = is_space c.
Proof. destruct c as [[] [] [] [] [] [] [] []]; reflexivity. Qed.

Lemma lstrip_by_upper (s : string) :
  lstrip_by is_space (upper s) = upper (lstrip_by is_space s).
Proof.
  induction s as [|c s IH]; cbn; [reflexivity|].
  rewrite is_space_upper. now destruct (is_space c).
Qed.

Lemma rstrip_by_upper (s : string) :
  rstrip_by is_space (upper s) = upper (rstrip_by is_space s).
Proof.
  induction s as [|c s IH]; cbn; [reflexivity|].
  rewrite IH, is_space_upper.
  destruct (rstrip_by is_space s); cbn; [now destruct (is_space c)|reflexivity].
Qed.

Lemma strip_upper (s : string) : strip (upper s) = upper (strip s).
Proof. unfold strip. now rewrite rstrip_by_upper, lstrip_by_upper. Qed.

Lemma prefix_app_long (k a u : string) :
  String.length k <= String.length a -> String.prefix k (a ++ u) = String.prefix k a.
Proof.
  revert a. induction k as [|c k IH]; intros a H.
  - cbn. now destruct (a ++ u), a.
  - destruct a as [|x a]; cbn in H; [lia|]. cbn.
    destruct (ascii_dec c x); [apply IH; lia|reflexivity].
Qed.

Lemma rstrip_by_app_ex (p : ascii -> bool) (s t : string) :
  exists u, rstrip_by p (s ++ t) = rstrip_by p s ++ u.
Proof.
  induction s as [|c s [u IH]]; cbn.
  - now exists (rstrip_by p t).
  - rewrite IH. destruct (rstrip_by p s) as [|x r]; cbn.
    + destruct u as [|y u].
      * exists "". now destruct (p c).
      * destruct (p c); [now exists (String c (String y u))|now exists (String y u)].
    + now exists u.
Qed.

Lemma lstrip_by_app_nonempty (p : ascii -> bool) (a u : string) :
  lstrip_by p a <> "" -> lstrip_by p (a ++ u) = lstrip_by p a ++ u.
Proof.
  induction a as [|c a IH]; cbn; [contradiction|].
  destruct (p c); [exact IH|reflexivity].
Qed.

Lemma strip_app_ex (s t : string) :
  strip s <> "" -> exists u, strip (s ++ t) = strip s ++ u.
Proof.
  intros H. unfold strip in *.
  destruct (rstrip_by_app_ex is_space s t) as [u Hu].
  exists u. rewrite Hu. now apply lstrip_by_app_nonempty.
Qed.

Lemma existsb_ext_in {A : Type} (f g : A -> bool) (l : list A) :
  (forall x, In x l -> f x = g x) -> existsb f l = existsb g l.
Proof.
  induction l as [|x l IH]; cbn; [reflexivity|].
  intros H. rewrite (H x), IH; auto.
Qed.

Lemma dangerous_length (k : string) : In k dangerous -> String.length k <= 8.
Proof.
  unfold dangerous. cbn.
  intros H. repeat (destruct H as [<-|H]; [cbn; lia|]). contradiction.
Qed.

(** X22.  [is_safe_sql] looks at the beginning of the statement only: once
    eight characters are left after stripping, whatever follows them does
    not change the verdict.  A statement that begins as a [SELECT] passes
    whatever statements come after it. *)
Theorem is_safe_sql_prefix_only (sql rest : string) :
  ascii_only sql -> ascii_only rest ->
  8 <= String.length (strip sql) ->
  is_safe_sql (sql ++ rest) = is_safe_sql sql.
Proof.
  intros _ _ Hlen.
  assert (Hne : strip sql <> "") by (intros E; rewrite E in Hlen; cbn in Hlen; lia).
  destruct (strip_app_ex sql rest Hne) as [u Hu].
  unfold is_safe_sql. cbv zeta. rewrite Hu, upper_app. f_equal.
  apply existsb_ext_in. intros k Hk. apply prefix_app_long.
  rewrite length_upper. apply dangerous_length in Hk.
  exact (Nat.le_trans _ _ _ Hk Hlen).
Qed.

Lemma is_safe_sql_prefix_only_witness :
  is_safe_sql ("SELECT 1" ++ "; DROP TABLE pa_users") = is_safe_sql "SELECT 1"
  /\ is_safe_sql "SELECT 1" = true.
Proof.
  split; [|reflexivity].
  apply (is_safe_sql_prefix_only "SELECT 1" "; DROP TABLE pa_users");
    [reflexivity|reflexivity|apply Nat.leb_le; reflexivity].
Defined.

(** X23.  [is_safe_sql] does not see the case of the letters: two statements
    with the same upper-case form get the same verdict. *)
Theorem is_safe_sql_case (sql1 sql2 : string) :
  ascii_only sql1 -> ascii_only sql2 ->
  upper sql1 = upper sql2 ->
  is_safe_sql sql1 = is_safe_sql sql2.
Proof.
  intros _ _ H. unfold is_safe_sql. cbv zeta.
  now rewrite <- !strip_upper, H.
Qed.

Lemma is_safe_sql_case_witness :
  is_safe_sql "  drop table x" = is_safe_sql "  DROP TABLE X"
  /\ is_safe_sql "  DROP TABLE X" = false.
Proof.
  split; [|reflexivity].
  apply (is_safe_sql_case "  drop table x" "  DROP TABLE X"); reflexivity.
Defined.

Lemma contains_limit_appended (query n : string) :
  contains "LIMIT" (upper (query ++ " LIMIT " ++ n)) = true.
Proof.
  rewrite upper_app.
  change (upper (" LIMIT " ++ n)) with (" " ++ "LIMIT" ++ " " ++ upper n).
  rewrite <- append_assoc. apply contains_app.
Qed.

(** X24.  What [run_query] sends to the database: nothing, or one query.  A
    query is sent only for a statement that is not blank and that
    [is_safe_sql] accepts; it is the statement stripped and without its
    trailing semicolons, as it is when its upper-case form contains [LIMIT]
    anywhere, and followed by [ LIMIT <limit>] otherwise; so the query sent
    always contains [LIMIT].  The frame returned is the one the database
    gave for that query, and comes without an error message. *)
Theorem run_query_sends (get_pg : result PostgresEngine) (sql : string) (limit : Z) :
  ascii_only sql ->
  let out := run_query get_pg sql limit in
  (snd out = [] /\ exists msg, fst out = (None, Some msg))
  \/ (exists pg query,
        get_pg = Ok pg
        /\ snd out = [query]
        /\ strip sql <> ""
        /\ is_safe_sql sql = true
        /\ ((contains "LIMIT" (upper (executed sql)) = true /\ query = executed sql)
            \/ (contains "LIMIT" (upper (executed sql)) = false
                /\ query = executed sql ++ " LIMIT " ++ str_int limit))
        /\ contains "LIMIT" (upper query) = true
        /\ ((exists msg, fst out = (None, Some msg))
            \/ (exists df, engine_fetch_df pg query = Ok df /\ fst out = (Some df, None)))).
Proof.
  intros _. unfold run_query. cbv zeta.
  destruct (String.eqb_spec (strip sql) "") as [E|Hne]; [left; cbn; eauto|].
  destruct (is_safe_sql sql) eqn:Hsafe; cbn [negb]; [|left; cbn; eauto].
  destruct get_pg as [pg|e]; [|left; cbn; eauto].
  right. fold (executed sql).
  set (query := if negb (contains "LIMIT" (upper (executed sql)))
                then executed sql ++ " LIMIT " ++ str_int limit else executed sql).
  assert (Hq : (contains "LIMIT" (upper (executed sql)) = true /\ query = executed sql)
               \/ (contains "LIMIT" (upper (executed sql)) = false
                   /\ query = executed sql ++ " LIMIT " ++ str_int limit)).
  { unfold query. destruct (contains "LIMIT" (upper (executed sql))); cbn; auto. }
  assert (Hl : contains "LIMIT" (upper query) = true).
  { destruct Hq as [[H ->]|[_ ->]]; [exact H|apply contains_limit_appended]. }
  exists pg, query.
  destruct (engine_fetch_df pg query) as [df|e] eqn:Hf; cbn [fst snd].
  - destruct (engine_close pg) as [[]|e]; cbn [fst snd]; repeat split; eauto.
  - repeat split; eauto.
Qed.

Lemma run_query_sends_witness :
  run_query (Ok one_row_engine) " select n from t; " 100
  = ((Some (frame ["n"] [[SInt 1]]), None), ["select n from t LIMIT 100"])
  /\ ((snd (run_query (Ok one_row_engine) "DROP TABLE t" 100) = []
       /\ exists msg, fst (run_query (Ok one_row_engine) "DROP TABLE t" 100)
                      = (None, Some msg))
      \/ exists pg query,
           Ok one_row_engine = Ok pg
           /\ snd (run_query (Ok one_row_engine) "DROP TABLE t" 100) = [query]
           /\ strip "DROP TABLE t" <> ""
           /\ is_safe_sql "DROP TABLE t" = true
           /\ ((contains "LIMIT" (upper (executed "DROP TABLE t")) = true
                /\ query = executed "DROP TABLE t")
               \/ (contains "LIMIT" (upper (executed "DROP TABLE t")) = false
                   /\ query = executed "DROP TABLE t" ++ " LIMIT " ++ str_int 100))
           /\ contains "LIMIT" (upper query) = true
           /\ ((exists msg, fst (run_query (Ok one_row_engine) "DROP TABLE t" 100)
                            = (None, Some msg))
               \/ (exists df, engine_fetch_df pg query = Ok df
                              /\ fst (run_query (Ok one_row_engine) "DROP TABLE t" 100)
                                 = (Some df, None)))).
Proof.
  split; [vm_compute; reflexivity|].
  apply (run_query_sends (Ok one_row_engine) "DROP TABLE t" 100). reflexivity.
Defined.

(** The loop over the levels, on a count that is not negative. *)
Lemma level_loop_levels (c : Z) :
  (0 <= c)%Z ->
  level_loop (PInt c) levels "🌱 Beginner" 5
  = Ok (if (c <? 5)%Z then ("🌱 Beginner", 5%Z)
        else if (c <? 15)%Z then ("🌿 Learner", 15%Z)
        else if (c <? 30)%Z then ("🌳 Analyst", 30%Z)
        else if (c <? 50)%Z then ("⭐ Senior", 50%Z)
        else if (c <? 100)%Z then ("🏆 Expert", 100%Z)
        else ("👑 Master", 5%Z)).
Proof.
  intros H. unfold levels. cbn [level_loop py_ge_int rbind].
  repeat match goal with
         | |- context [Z.leb ?a c] => destruct (Z.leb_spec a c)
         | |- context [Z.ltb c ?a] => destruct (Z.ltb_spec c a)
         end; try lia; reflexivity.
Qed.

(** The count [get_level_info] works with. *)
Lemma get_level_info_counted (duck : DuckDBEngine) (c : Z) :
  duck_close duck = Ok tt -> counted duck c ->
  get_level_info (Ok duck)
  = (found <- level_loop (PInt c) levels "🌱 Beginner" 5 ;;
     Ok (mkLevelInfo (fst found) (PInt c) (snd found)))%result.
Proof.
  intros Hclose Hc. unfold get_level_info. cbn [rbind]. rewrite Hclose.
  destruct Hc as [(e & -> & ->)|(d & -> & [Hd|[[Hd ->]|[Hd ->]]])];
    cbn [rbind py_get_default]; try rewrite Hd; cbn [dict_find truthy];
    try reflexivity.
  cbn [truthy]. destruct (Z.eqb_spec c 0) as [->|Hne]; reflexivity.
Qed.

(** X25.  The level of a learner with fewer than 100 right answers: the name
    is that of the highest threshold the count has reached, and [next] is
    the lowest threshold it has not reached. *)
Theorem get_level_info_ladder (duck : DuckDBEngine) (c : Z) :
  duck_close duck = Ok tt -> counted duck c ->
  (0 <= c < 100)%Z ->
  exists info,
    get_level_info (Ok duck) = Ok info
    /\ level_correct info = PInt c
    /\ In (level_next info) (map fst levels)
    /\ exists t,
         In (t, level_name info) levels
         /\ (t <= c < level_next info)%Z
         /\ forall t', In t' (map fst levels) -> (t' <= t \/ level_next info <= t')%Z.
Proof.
  intros Hclose Hc Hr. rewrite (get_level_info_counted duck c Hclose Hc).
  rewrite level_loop_levels by lia.
  repeat match goal with
         | |- context [Z.ltb c ?a] => destruct (Z.ltb_spec c a)
         end; try lia;
    cbn [rbind fst snd]; eexists; (split; [reflexivity|]);
    cbn [level_correct level_next level_name]; (split; [reflexivity|]);
    (split; [cbn; tauto|]).
  - exists 0%Z. split; [cbn; tauto|]. split; [lia|].
    cbn. intros t' H'. repeat (destruct H' as [<-|H']; [lia|]). contradiction.
  - exists 5%Z. split; [cbn; tauto|]. split; [lia|].
    cbn. intros t' H'. repeat (destruct H' as [<-|H']; [lia|]). contradiction.
  - exists 15%Z. split; [cbn; tauto|]. split; [lia|].
    cbn. intros t' H'. repeat (destruct H' as [<-|H']; [lia|]). contradiction.
  - exists 30%Z. split; [cbn; tauto|]. split; [lia|].
    cbn. intros t' H'. repeat (destruct H' as [<-|H']; [lia|]). contradiction.
  - exists 50%Z. split; [cbn; tauto|]. split; [lia|].
    cbn. intros t' H'. repeat (destruct H' as [<-|H']; [lia|]). contradiction.
Qed.

Lemma get_level_info_ladder_witness :
  exists info,
    get_level_info (Ok (duck_with 17)) = Ok info
    /\ level_correct info = PInt 17
    /\ In (level_next info) (map fst levels)
    /\ exists t,
         In (t, level_name info) levels
         /\ (t <= 17 < level_next info)%Z
         /\ forall t', In t' (map fst levels) -> (t' <= t \/ level_next info <= t')%Z.
Proof.
  apply (get_level_info_ladder (duck_with 17) 17).
  - reflexivity.
  - right. eexists. split; [reflexivity|]. left. reflexivity.
  - lia.
Defined.

(** X26.  From 100 right answers on the level is the last one, and [next]
    is 5, the value it had before the loop: the loop ends without a
    threshold left to report, so the next threshold lies below the count. *)
Theorem get_level_info_top (duck : DuckDBEngine) (c : Z) :
  duck_close duck = Ok tt -> counted duck c ->
  (100 <= c)%Z ->
  get_level_info (Ok duck) = Ok (mkLevelInfo "👑 Master" (PInt c) 5).
Proof.
  intros Hclose Hc Hr. rewrite (get_level_info_counted duck c Hclose Hc).
  rewrite level_loop_levels by lia.
  repeat match goal with
         | |- context [Z.ltb c ?a] => destruct (Z.ltb_spec c a)
         end; try lia; reflexivity.
Qed.

Lemma get_level_info_top_witness :
  get_level_info (Ok (duck_with 250)) = Ok (mkLevelInfo "👑 Master" (PInt 250) 5).
Proof.
  apply (get_level_info_top (duck_with 250) 250).
  - reflexivity.
  - right. eexists. split; [reflexivity|]. left. reflexivity.
  - lia.
Defined.
